(** * DictLearner / LCALearner: a shallow embedding and its properties

    The development follows [DictLearner.py] (the abstract dictionary
    learner: gradient step, statistics, sorting, checkpointing, the trial
    loop) and [LCALearner.py] (inference by a locally competitive
    algorithm).

    Conventions of the embedding.
    - A numpy array of rank 2 is a [list (list F)] in row-major order, an
      array of rank 1 a [list F].  The arrays of the program have positive
      dimensions and the shapes numpy asks for (a mismatch raises inside
      numpy and is not modelled); theorems that need a shape say so with
      [shape_ok].
    - A learner is a value of the record [Learner] with the class it was
      built from; the constructors and the plots are not modelled, and
      the files that are saved and loaded live in a file system that is a
      parameter of the model.
    - The scalar type is a parameter ([Scalar]).  The same definitions are
      read in two arithmetics: IEEE binary64 ([Scalar_float], the numpy
      [float64] of the program, executable) and exact real numbers
      ([Scalar_R], the arithmetic the update equations are written for).
    - Sums are left folds from zero.  numpy may associate a sum otherwise;
      in exact arithmetic the order is immaterial.
    - A Python exception is a value of [exn]; a call that can raise
      returns a [result].  The [while] loop of [infer_cpu] can run
      forever and takes fuel; [None] means the fuel ran out. *)

From Stdlib Require Import String.
From Stdlib Require Import List Bool Arith ZArith Lia Permutation.
From Stdlib Require Import Sorted.
From Stdlib Require Import Reals Lra.
From Stdlib Require Import Floats DecimalString.
From Stdlib Require Uint63.
Import ListNotations.

Set Implicit Arguments.

(** ** Exceptions *)

Inductive exn : Type :=
| ValueError (msg : string)
| TypeError (msg : string)
| IndexError (msg : string)
| OSError (msg : string)
| NotImplementedError.

Inductive result (A : Type) : Type :=
| Ok (a : A)
| Raise (e : exn).

Arguments Ok {A} a.
Arguments Raise {A} e.

Definition bind {A B : Type} (r : result A) (k : A -> result B) : result B :=
  match r with
  | Ok a => k a
  | Raise e => Raise e
  end.

Notation "'do' x <- r ; k" := (bind r (fun x => k))
  (at level 10, x pattern, r at level 100, k at level 200).

(** ** Scalars *)

Class Scalar (F : Type) : Type := {
  fzero : F;
  fone : F;
  fadd : F -> F -> F;
  fsub : F -> F -> F;
  fmul : F -> F -> F;
  fdiv : F -> F -> F;
  fsqrt : F -> F;
  fabs : F -> F;
  fltb : F -> F -> bool;
  fleb : F -> F -> bool;
  feqb : F -> F -> bool;
  fisnan : F -> bool;
  fof_Z : Z -> F
}.

Definition Rltb (a b : R) : bool := if Rlt_dec a b then true else false.
Definition Rleb (a b : R) : bool := if Rle_dec a b then true else false.
Definition Reqb (a b : R) : bool := if Req_dec_T a b then true else false.

#[export] Instance Scalar_R : Scalar R := {|
  fzero := 0%R;
  fone := 1%R;
  fadd := Rplus;
  fsub := Rminus;
  fmul := Rmult;
  fdiv := Rdiv;
  fsqrt := R_sqrt.sqrt;
  fabs := Rabs;
  fltb := Rltb;
  fleb := Rleb;
  feqb := Reqb;
  fisnan := fun _ => false;
  fof_Z := IZR
|}.

(** An int as a float; the ints of the program (array sizes, batch sizes)
    are far below 2^53. *)
Definition float_of_Z (z : Z) : float :=
  match z with
  | Zneg p => PrimFloat.opp (PrimFloat.of_uint63 (Uint63.of_Z (Zpos p)))
  | _ => PrimFloat.of_uint63 (Uint63.of_Z z)
  end.

#[export] Instance Scalar_float : Scalar float := {|
  fzero := 0%float;
  fone := 1%float;
  fadd := PrimFloat.add;
  fsub := PrimFloat.sub;
  fmul := PrimFloat.mul;
  fdiv := PrimFloat.div;
  fsqrt := PrimFloat.sqrt;
  fabs := PrimFloat.abs;
  fltb := PrimFloat.ltb;
  fleb := PrimFloat.leb;
  feqb := PrimFloat.eqb;
  fisnan := PrimFloat.is_nan;
  fof_Z := float_of_Z
|}.

(** [str(kk)] for a non-negative index. *)
Definition str_of_nat (n : nat) : string :=
  NilEmpty.string_of_uint (Nat.to_uint n).

(** ** Arrays *)

Fixpoint map2 {A B C : Type} (f : A -> B -> C) (xs : list A) (ys : list B) : list C :=
  match xs, ys with
  | x :: xs', y :: ys' => f x y :: map2 f xs' ys'
  | _, _ => []
  end.

Section Arrays.
Context {F : Type} {SF : Scalar F}.

Definition vec : Type := list F.
Definition matrix : Type := list (list F).

(** [self.corrmatrix_ave] starts as a rank-2 array and [sort] stores a
    rank-1 array there, so the attribute carries its rank. *)
Inductive ndarray : Type :=
| Arr1 (v : vec)
| Arr2 (m : matrix).

Definition shape (a : ndarray) : list nat :=
  match a with
  | Arr1 v => [length v]
  | Arr2 m => [length m; length (hd [] m)]
  end.

Definition shape_ok (r c : nat) (m : matrix) : Prop :=
  length m = r /\ Forall (fun row => length row = c) m.

(** [np.maximum(a, b)]: [a] when [a >= b] or [a] is NaN, else [b]. *)
Definition fmaximum (a b : F) : F :=
  if fleb b a || fisnan a then a else b.

(** [np.sign]. *)
Definition fsign (x : F) : F :=
  if fltb fzero x then fone
  else if fltb x fzero then fsub fzero fone
  else if feqb x fzero then fzero
  else x.

Definition vsum (v : vec) : F := fold_left fadd v fzero.
Definition vmean (v : vec) : F := fdiv (vsum v) (fof_Z (Z.of_nat (length v))).
Definition vdot (a b : vec) : F := vsum (map2 fmul a b).

Definition ncols (m : matrix) : nat := length (hd [] m).
Definition col (j : nat) (m : matrix) : vec := map (fun r => nth j r fzero) m.
Definition transpose (m : matrix) : matrix :=
  map (fun j => col j m) (seq 0 (ncols m)).

(** [np.dot] on rank-2 arrays: entry (i,j) is the sum over k of
    a[i,k]*b[k,j]. *)
Definition dot (a b : matrix) : matrix :=
  map (fun row => map (fun c => vdot row c) (transpose b)) a.

Definition madd : matrix -> matrix -> matrix := map2 (map2 fadd).
Definition msub : matrix -> matrix -> matrix := map2 (map2 fsub).
Definition mmul : matrix -> matrix -> matrix := map2 (map2 fmul).
Definition mscale (c : F) (m : matrix) : matrix := map (map (fmul c)) m.
Definition vscale (c : F) (v : vec) : vec := map (fmul c) v.
Definition vadd : vec -> vec -> vec := map2 fadd.

(** [np.mean] of a whole rank-2 array. *)
Definition mmean (m : matrix) : F := vmean (concat m).

Definition zeros (r c : nat) : matrix := repeat (repeat fzero c) r.
Definition eye (n : nat) : matrix :=
  map (fun i => map (fun k => if Nat.eqb i k then fone else fzero) (seq 0 n)) (seq 0 n).
(** [np.diag] of a rank-1 array. *)
Definition diag (v : vec) : matrix :=
  map (fun i => map (fun k => if Nat.eqb i k then nth i v fzero else fzero)
                    (seq 0 (length v)))
      (seq 0 (length v)).

(** [np.sqrt(np.sum(Q*Q,1))] for one row. *)
Definition row_norm (r : vec) : F := fsqrt (vsum (map2 fmul r r)).

(** Fancy indexing [a[sorter]] along the first axis. *)
Fixpoint take {A : Type} (xs : list A) (sorter : list nat) : result (list A) :=
  match sorter with
  | [] => Ok []
  | k :: ks =>
      match nth_error xs k with
      | Some x => do rest <- take xs ks; Ok (x :: rest)
      | None => Raise (IndexError "index out of bounds"%string)
      end
  end.
End Arrays.

Arguments ndarray F : clear implicits.
Arguments vec F : clear implicits.
Arguments matrix F : clear implicits.

(** ** The learners *)

Definition dq : string := String (Ascii.ascii_of_nat 34) EmptyString.

Inductive learner_class : Type :=
| DictLearner_class
| LCALearner_class.

Section Model.
Context {F : Type} {SF : Scalar F}.

(** The stimulus source [self.stims] (module StimSet, outside these
    sources) is a parameter: its data, its batch size, and the batches
    it draws, indexed by the number of draws made so far. *)
Record StimSet : Type := {
  stim_data : matrix F;
  stim_batch_size : Z;
  stim_draws : nat;
  stim_source : nat -> Z -> matrix F
}.

Definition rand_stim (st : StimSet) (batch_size : Z) : matrix F * StimSet :=
  (stim_source st (stim_draws st) batch_size,
   {| stim_data := stim_data st;
      stim_batch_size := stim_batch_size st;
      stim_draws := S (stim_draws st);
      stim_source := stim_source st |}).

(** The running statistics of [initialize_stats]. *)
Record Stats : Type := {
  corrmatrix_ave : ndarray F;
  L0hist : vec F;
  L1hist : vec F;
  L2hist : vec F;
  L0acts : vec F;
  L1acts : vec F;
  L2acts : vec F;
  errorhist : vec F;
  meanacts : vec F
}.

(** The attributes [LCALearner.__init__] adds. *)
Record LCAParams : Type := {
  infrate : F;
  niter : Z;
  min_thresh : F;
  adapt : F;
  softthresh : bool;
  tolerance : F;
  max_iter : option Z;
  gpu : bool
}.

Record Learner : Type := {
  cls : learner_class;
  nunits : Z;
  batch_size : Z;
  learnrate : F;
  paramfile : option string;
  theta : F;
  moving_avg_rate : F;
  stats : Stats;
  stims : StimSet;
  Q : matrix F;
  fastmode : bool;
  lca : LCAParams
}.

Definition set_Q (L : Learner) (q : matrix F) : Learner :=
  {| cls := cls L; nunits := nunits L; batch_size := batch_size L;
     learnrate := learnrate L; paramfile := paramfile L; theta := theta L;
     moving_avg_rate := moving_avg_rate L; stats := stats L; stims := stims L;
     Q := q; fastmode := fastmode L; lca := lca L |}.

Definition set_stats (L : Learner) (s : Stats) : Learner :=
  {| cls := cls L; nunits := nunits L; batch_size := batch_size L;
     learnrate := learnrate L; paramfile := paramfile L; theta := theta L;
     moving_avg_rate := moving_avg_rate L; stats := s; stims := stims L;
     Q := Q L; fastmode := fastmode L; lca := lca L |}.

Definition set_stims (L : Learner) (s : StimSet) : Learner :=
  {| cls := cls L; nunits := nunits L; batch_size := batch_size L;
     learnrate := learnrate L; paramfile := paramfile L; theta := theta L;
     moving_avg_rate := moving_avg_rate L; stats := stats L; stims := s;
     Q := Q L; fastmode := fastmode L; lca := lca L |}.

Definition set_rates (L : Learner) (lr th : F) : Learner :=
  {| cls := cls L; nunits := nunits L; batch_size := batch_size L;
     learnrate := lr; paramfile := paramfile L; theta := th;
     moving_avg_rate := moving_avg_rate L; stats := stats L; stims := stims L;
     Q := Q L; fastmode := fastmode L; lca := lca L |}.

Definition set_paramfile (L : Learner) (f : option string) : Learner :=
  {| cls := cls L; nunits := nunits L; batch_size := batch_size L;
     learnrate := learnrate L; paramfile := f; theta := theta L;
     moving_avg_rate := moving_avg_rate L; stats := stats L; stims := stims L;
     Q := Q L; fastmode := fastmode L; lca := lca L |}.

(** *** DictLearner.learn *)

(** The residual [R] of [learn]. *)
Definition residual (L : Learner) (data coeffs : matrix F) : matrix F :=
  msub (transpose data) (dot (transpose coeffs) (Q L)).

(** The dictionary of [learn] just before [if normalize:]. *)
Definition updated_Q (L : Learner) (data coeffs : matrix F) : matrix F :=
  let R := residual L data coeffs in
  let Q1 := madd (Q L) (mscale (learnrate L) (dot coeffs R)) in
  if negb (feqb (theta L) fzero) then
    let thetaterm := msub Q1 (dot Q1 (dot (transpose Q1) Q1)) in
    madd Q1 (mscale (theta L) thetaterm)
  else Q1.

(** [normmatrix = np.diag(1./np.sqrt(np.sum(self.Q*self.Q,1)))]. *)
Definition normmatrix (q : matrix F) : matrix F :=
  diag (map (fun r => fdiv fone (row_norm r)) q).

Definition learn (L : Learner) (data coeffs : matrix F) (normalize : bool)
  : Learner * F :=
  let R := residual L data coeffs in
  let Q1 := updated_Q L data coeffs in
  let Q2 := if normalize then dot (normmatrix Q1) Q1 else Q1 in
  (set_Q L Q2, mmean (mmul R R)).

(** *** DictLearner.adjust_rates and its override in LCALearner *)

Definition adjust_rates (L : Learner) (factor : F) : Learner :=
  match cls L with
  | DictLearner_class =>
      set_rates L (fmul factor (learnrate L)) (fmul factor (theta L))
  | LCALearner_class =>
      set_rates L (fmul factor (learnrate L)) (theta L)
  end.

(** *** LCALearner.infer_cpu *)

(** [a or b] on an optional float: [None] and [0.0] are falsy. *)
Definition or_float (a : option F) (b : F) : F :=
  match a with
  | Some t => if feqb t fzero then b else t
  | None => b
  end.

(** [a or b] on an optional int, where [b] may itself be [None]. *)
Definition or_int (a : option Z) (b : option Z) : option Z :=
  match a with
  | Some m => if Z.eqb m 0 then b else Some m
  | None => b
  end.

(** The arrays the loops of [infer_cpu] update in place. *)
Record lca_state : Type := {
  st_u : matrix F;
  st_s : matrix F;
  st_thresh : vec F
}.

(** The shapes of the arrays for [M] stimuli and [N] units: [u] and [s]
    have one row per stimulus and one column per unit, [thresh] one entry
    per stimulus. *)
Definition state_shape (M N : nat) (st : lca_state) : Prop :=
  shape_ok M N (st_u st) /\ shape_ok M N (st_s st) /\ length (st_thresh st) = M.

(** [c = self.Q.dot(self.Q.T) - np.eye(ndict)] *)
Definition overlap (q : matrix F) : matrix F :=
  msub (dot q (transpose q)) (eye (length q)).

(** [b = (self.Q.dot(X)).T] *)
Definition drive (q X : matrix F) : matrix F := transpose (dot q X).

(** The two statements that initialise [thresh]. *)
Definition init_thresh (P : LCAParams) (b : matrix F) : vec F :=
  map (fun thr => fmaximum thr (min_thresh P))
      (map (fun row => vmean (map fabs row)) b).

Definition init_state (P : LCAParams) (q X : matrix F) : lca_state :=
  let u := zeros (ncols X) (length q) in
  {| st_u := u; st_s := u; st_thresh := init_thresh P (drive q X) |}.

(** [u[:] = self.infrate*(b-ci) + (1.-self.infrate)*u] with
    [ci[:] = s.dot(c)]. *)
Definition next_u (P : LCAParams) (c b : matrix F) (st : lca_state) : matrix F :=
  let ci := dot (st_s st) c in
  madd (mscale (infrate P) (msub b ci))
       (mscale (fsub fone (infrate P)) (st_u st)).

(** [np.max(np.isnan(u))], for an array with at least one entry; on an
    array without entries numpy's [max] raises ValueError, which is not
    modelled. *)
Definition any_nan (u : matrix F) : bool := existsb (existsb fisnan) u.

Definition soft (th x : F) : F :=
  fmul (fsign x) (fmaximum fzero (fsub (fabs x) th)).

Definition hard (th x : F) : F :=
  if fltb (fabs x) th then fzero else x.

(** The [if self.softthresh: ... else: ...] of the inner loop;
    [thresh[:,np.newaxis]] pairs row [i] of [u] with [thresh[i]]. *)
Definition threshold (P : LCAParams) (u : matrix F) (thresh : vec F) : matrix F :=
  map2 (fun row th => map (if softthresh P then soft th else hard th) row) u thresh.

(** [thresh = self.adapt*thresh; thresh[thresh<self.min_thresh] = self.min_thresh] *)
Definition decay_thresh (P : LCAParams) (thresh : vec F) : vec F :=
  map (fun t => let t' := fmul (adapt P) t in
                if fltb t' (min_thresh P) then min_thresh P else t')
      thresh.

Definition blew_up (kk : nat) : exn :=
  ValueError ("Internal variable blew up at iteration " ++ str_of_nat kk)%string.

(** One pass through the body of [for kk in range(self.niter)]. *)
Definition inner_step (P : LCAParams) (c b : matrix F) (kk : nat) (st : lca_state)
  : result lca_state :=
  let u := next_u P c b st in
  if any_nan u then Raise (blew_up kk)
  else Ok {| st_u := u;
             st_s := threshold P u (st_thresh st);
             st_thresh := decay_thresh P (st_thresh st) |}.

(** The passes [kk = k0, k0+1, ..., k0+n-1]. *)
Fixpoint inner_from (P : LCAParams) (c b : matrix F) (k0 n : nat) (st : lca_state)
  : result lca_state :=
  match n with
  | O => Ok st
  | S n' => do st' <- inner_step P c b k0 st; inner_from P c b (S k0) n' st'
  end.

(** [for kk in range(self.niter): ...] *)
Definition inner_loop (P : LCAParams) (c b : matrix F) (st : lca_state)
  : result lca_state :=
  inner_from P c b 0 (Z.to_nat (niter P)) st.

(** [np.mean((X.T - s.dot(self.Q))**2)] *)
Definition mse (q X s : matrix F) : F :=
  let d := msub (transpose X) (dot s q) in mmean (mmul d d).

(** The test of the [while]. *)
Definition continue (tol : F) (cap : option Z) (error : F) (outer_k : Z) : bool :=
  fltb tol error &&
  match cap with
  | None => true
  | Some m => Z.ltb outer_k m
  end.

(** The [while] loop, from a given [error], [outer_k] and state. *)
Fixpoint outer_loop (fuel : nat) (P : LCAParams) (tol : F) (cap : option Z)
    (q X c b : matrix F) (error : F) (outer_k : Z) (st : lca_state)
  : option (result lca_state) :=
  if continue tol cap error outer_k then
    match fuel with
    | O => None
    | S fuel' =>
        match inner_loop P c b st with
        | Raise e => Some (Raise e)
        | Ok st' =>
            outer_loop fuel' P tol cap q X c b (mse q X (st_s st')) (outer_k + 1) st'
        end
    end
  else Some (Ok st).

(** [n] executions of the whole inner loop, each starting from the
    arrays the one before left. *)
Fixpoint blocks (P : LCAParams) (c b : matrix F) (n : nat) (st : lca_state)
  : result lca_state :=
  match n with
  | O => Ok st
  | S n' => do st' <- inner_loop P c b st; blocks P c b n' st'
  end.


(** [infer_cpu(X, infplots=False, tolerance, max_iter)]; the plots of
    [infplots=True] only fill arrays that are drawn, and are left out.
    The result is [(s.T, u.T, thresh)]. *)
Definition infer_cpu (fuel : nat) (L : Learner) (X : matrix F)
    (tolerance_arg : option F) (max_iter_arg : option Z)
  : option (result (matrix F * matrix F * vec F)) :=
  let P := lca L in
  let tol := or_float tolerance_arg (tolerance P) in
  let cap := or_int max_iter_arg (max_iter P) in
  let c := overlap (Q L) in
  let b := drive (Q L) X in
  match outer_loop fuel P tol cap (Q L) X c b (fadd tol fone) 0 (init_state P (Q L) X) with
  | None => None
  | Some (Raise e) => Some (Raise e)
  | Some (Ok st) => Some (Ok (transpose (st_s st), transpose (st_u st), st_thresh st))
  end.

(** *** DictLearner.store_statistics *)

(** [a or b] on an optional int with an int default. *)
Definition or_Z (a : option Z) (b : Z) : Z :=
  match a with
  | Some m => if Z.eqb m 0 then b else m
  | None => b
  end.

(** An entry of the boolean array [acts != 0], as numpy averages it. *)
Definition nonzero (x : F) : F := if feqb x fzero then fzero else fone.

(** [(1-self.moving_avg_rate)*old + self.moving_avg_rate*new] *)
Definition moving_avg (rate : F) (old new : vec F) : vec F :=
  vadd (vscale (fsub fone rate) old) (vscale rate new).

Definition mdiv (m : matrix F) (d : F) : matrix F := map (map (fun x => fdiv x d)) m.

Definition corrmatrix_of (L : Learner) (acts : matrix F) (bs : Z) (center_corr : bool)
  : matrix F :=
  if center_corr then
    let actdevs := map2 (fun row m => map (fun x => fsub x m) row) acts (map vmean acts) in
    mdiv (dot actdevs (transpose actdevs)) (fof_Z bs)
  else mdiv (dot acts (transpose acts)) (fof_Z (batch_size L)).

(** The last assignment of [store_statistics].  When [sort] has left a
    rank-1 array of length N in [corrmatrix_ave], numpy broadcasts it
    over the rows of the N x N [corrmatrix]. *)
Definition corr_update (rate : F) (ave : ndarray F) (corrmatrix : matrix F)
  : result (ndarray F) :=
  match ave with
  | Arr2 m => Ok (Arr2 (madd (mscale (fsub fone rate) m) (mscale rate corrmatrix)))
  | Arr1 v =>
      if Nat.eqb (length v) (ncols corrmatrix) then
        Ok (Arr2 (map (fun row => vadd (vscale (fsub fone rate) v) row)
                      (mscale rate corrmatrix)))
      else Raise (ValueError "operands could not be broadcast together"%string)
  end.

Definition store_statistics (L : Learner) (acts : matrix F) (thiserror : F)
    (batch_size_arg : option Z) (center_corr : bool) : result Learner :=
  let bs := or_Z batch_size_arg (batch_size L) in
  let rate := moving_avg_rate L in
  let S := stats L in
  let means := map vmean acts in
  let upd (ave : ndarray F) : Stats :=
    {| corrmatrix_ave := ave;
       L0hist := L0hist S ++ [mmean (map (map nonzero) acts)];
       L1hist := L1hist S ++ [mmean (map (map fabs) acts)];
       L2hist := L2hist S ++ [mmean (mmul acts acts)];
       L0acts := moving_avg rate (L0acts S) (map vmean (map (map nonzero) acts));
       L1acts := moving_avg rate (L1acts S) (map vmean (map (map fabs) acts));
       L2acts := moving_avg rate (L2acts S) (map vmean (mmul acts acts));
       errorhist := errorhist S ++ [thiserror];
       meanacts := moving_avg rate (meanacts S) means |} in
  if fastmode L then Ok (set_stats L (upd (corrmatrix_ave S)))
  else
    do ave <- corr_update rate (corrmatrix_ave S) (corrmatrix_of L acts bs center_corr);
    Ok (set_stats L (upd ave)).

(** *** DictLearner.sort, fast_sort *)

(** The order numpy sorts floats by: NaN after every number. *)
Definition sorts_before (a b : F) : bool :=
  fltb a b || (fisnan b && negb (fisnan a)).

(** [np.argsort]: the indices in increasing order of their values.  numpy
    does not promise an order among equal values; here they keep their
    original order. *)
Fixpoint insert_index (v : vec F) (i : nat) (l : list nat) : list nat :=
  match l with
  | [] => [i]
  | j :: l' =>
      if sorts_before (nth i v fzero) (nth j v fzero) then i :: j :: l'
      else j :: insert_index v i l'
  end.

Definition argsort (v : vec F) : list nat :=
  fold_left (fun acc i => insert_index v i acc) (seq 0 (length v)) [].

(** [a[sorter, sorter]] on a rank-2 array: the entries a[k,k] for k in
    [sorter]. *)
Fixpoint take_pairs (m : matrix F) (sorter : list nat) : result (vec F) :=
  match sorter with
  | [] => Ok []
  | k :: ks =>
      match nth_error m k with
      | Some row =>
          match nth_error row k with
          | Some x => do rest <- take_pairs m ks; Ok (x :: rest)
          | None => Raise (IndexError "index out of bounds"%string)
          end
      | None => Raise (IndexError "index out of bounds"%string)
      end
  end.

(** [self.corrmatrix_ave[sorter, sorter]] *)
Definition index_both (a : ndarray F) (sorter : list nat) : result (ndarray F) :=
  match a with
  | Arr2 m => do d <- take_pairs m sorter; Ok (Arr1 d)
  | Arr1 _ => Raise (IndexError "too many indices for array"%string)
  end.

(** [sort(usages, sorter, plot=False)].  A call that raises is modelled by
    its exception alone: the learner it leaves, in which the attributes
    indexed before the failing one are already reassigned, is not kept. *)
Definition sort (L : Learner) (usages : vec F) (sorter : list nat) : result Learner :=
  let S := stats L in
  do q <- take (Q L) sorter;
  do l0 <- take (L0acts S) sorter;
  do l1 <- take (L1acts S) sorter;
  do l2 <- take (L2acts S) sorter;
  do ma <- take (meanacts S) sorter;
  do cm <- index_both (corrmatrix_ave S) sorter;
  Ok (set_stats (set_Q L q)
        {| corrmatrix_ave := cm;
           L0hist := L0hist S; L1hist := L1hist S; L2hist := L2hist S;
           L0acts := l0; L1acts := l1; L2acts := l2;
           errorhist := errorhist S; meanacts := ma |}).

Definition fast_sort (L : Learner) (useL1 : bool) : result (Learner * vec F) :=
  let usages := if useL1 then L1acts (stats L) else L0acts (stats L) in
  let sorter := argsort usages in
  do L' <- sort L usages sorter;
  do sorted <- take usages sorter;
  Ok (L', sorted).

(** *** Calls that leave these sources *)

(** What the model cannot compute is a parameter: the CUDA inference of
    [infer_gpu], and the outcome of opening [filename] and pickling the
    state into it. *)
Record Externals : Type := {
  infer_gpu : Learner -> matrix F -> result (matrix F * matrix F * vec F);
  pickle_dump : string -> Learner -> list F -> result unit
}.

Section Calls.
Variable ext : Externals.

(** [self.infer(X)], as [run] and [sort_dict] call it.  The abstract
    [DictLearner.infer(self, data, infplot)] has a second positional
    parameter, so the call fails before its body. *)
Definition infer (fuel : nat) (L : Learner) (X : matrix F)
  : option (result (matrix F * matrix F * vec F)) :=
  match cls L with
  | DictLearner_class =>
      Some (Raise (TypeError "infer() missing 1 required positional argument: 'infplot'"%string))
  | LCALearner_class =>
      if gpu (lca L) then Some (infer_gpu ext L (transpose X))
      else infer_cpu fuel L X None None
  end.

(** *** sort_dict: DictLearner's and the override in LCALearner *)

Definition sort_dict (fuel : nat) (L : Learner) (batch_size_arg : option Z)
    (allstims : bool) : option (result (Learner * vec F)) :=
  let '(testX, L1) :=
    if allstims then (transpose (stim_data (stims L)), L)
    else
      let '(X, st') := rand_stim (stims L) (or_Z batch_size_arg (10 * batch_size L)) in
      (X, set_stims L st') in
  match infer fuel L1 testX with
  | None => None
  | Some (Raise e) => Some (Raise e)
  | Some (Ok (acts, _, _)) =>
      let means := map vmean (map (map nonzero) acts) in
      let sorter := argsort means in
      match cls L1 with
      | LCALearner_class =>
          Some (do q <- take (Q L1) sorter;
                do sorted <- take means sorter;
                Ok (set_Q L1 q, sorted))
      | DictLearner_class =>
          Some (do L2 <- sort L1 means sorter;
                do sorted <- take means sorter;
                Ok (L2, sorted))
      end
  end.

(** *** DictLearner.save *)

(** [a or b] on optional strings: [None] and the empty string are falsy. *)
Definition or_str (a b : option string) : option string :=
  match a with
  | Some EmptyString => b
  | Some f => Some f
  | None => b
  end.

(** Neither class overrides the hook. *)
Definition get_param_list (L : Learner) : result (list F) :=
  Raise NotImplementedError.

(** [save(filename)]: the learner as the call leaves it (it assigns
    [self.paramfile] before the hook is called) and how the call ends. *)
Definition save (L : Learner) (filename : option string) : Learner * result unit :=
  match or_str filename (paramfile L) with
  | None => (L, Raise (ValueError "You need to input a filename."%string))
  | Some f =>
      let L' := set_paramfile L (Some f) in
      (L', do params <- get_param_list L'; pickle_dump ext f L' params)
  end.

(** *** DictLearner.run *)

Record run_args : Type := {
  ntrials : Z;
  run_batch_size : option Z;
  rate_decay : option F;
  normalize : bool
}.

(** [(trial % 1000 == 0 or trial+1 == ntrials) and trial != 0] *)
Definition checkpoint_due (trial ntrials : Z) : bool :=
  (Z.eqb (trial mod 1000) 0 || Z.eqb (trial + 1) ntrials) && negb (Z.eqb trial 0).

(** The message of the TypeError of [str + None]. *)
Definition concat_None_msg : string :=
  ("can only concatenate str (not " ++ dq ++ "NoneType" ++ dq ++ ") to str")%string.

Definition concat_None : exn := TypeError concat_None_msg.

(** The line [print('Failed to save parameters. ', er)] writes. *)
Definition failed_line (msg : string) : string :=
  ("Failed to save parameters.  " ++ msg)%string.

(** [if trial % 50 == 0: print(trial)] *)
Definition printed (trial : nat) (out : list string) : list string :=
  if Z.eqb (Z.of_nat trial mod 50) 0 then out ++ [str_of_nat trial] else out.

(** The body of the [try]: the [print] concatenates [self.paramfile],
    which fails when it is [None]; then [self.save()]. *)
Definition save_attempt (L : Learner) (out : list string)
  : Learner * list string * result unit :=
  match paramfile L with
  | None => (L, out, Raise concat_None)
  | Some f =>
      let '(L', r) := save L None in
      (L', out ++ [("Saving progress to " ++ f)%string], r)
  end.

(** The [try ... except (ValueError, TypeError) as er: print(...)];
    standard output is the list of printed lines. *)
Definition try_save (L : Learner) (out : list string)
  : result (Learner * list string) :=
  match save_attempt L out with
  | (L', out', Ok _) => Ok (L', out')
  | (L', out', Raise (ValueError msg)) => Ok (L', out' ++ [failed_line msg])
  | (L', out', Raise (TypeError msg)) => Ok (L', out' ++ [failed_line msg])
  | (_, _, Raise e) => Raise e
  end.

(** The body of [for trial in range(ntrials)] up to the checkpoint: the
    batch, the inference, the dictionary update and the statistics. *)
Definition trial_compute (fuel : nat) (a : run_args) (bs : Z) (L : Learner)
  : option (result Learner) :=
  let '(X, stims') := rand_stim (stims L) bs in
  let L1 := set_stims L stims' in
  match infer fuel L1 X with
  | None => None
  | Some (Raise e) => Some (Raise e)
  | Some (Ok (acts, _, _)) =>
      let '(L2, thiserror) := learn L1 X acts (normalize a) in
      Some (store_statistics L2 acts thiserror (Some bs) true)
  end.

(** [if rate_decay is not None: self.adjust_rates(rate_decay)] *)
Definition decay (a : run_args) (L : Learner) : Learner :=
  match rate_decay a with
  | Some factor => adjust_rates L factor
  | None => L
  end.

(** One pass through the body of [for trial in range(ntrials)]. *)
Definition trial_body (fuel : nat) (a : run_args) (bs : Z) (trial : nat)
    (st : Learner * list string) : option (result (Learner * list string)) :=
  let '(L, out) := st in
  let t := Z.of_nat trial in
  let out1 := printed trial out in
  match trial_compute fuel a bs L with
  | None => None
  | Some (Raise e) => Some (Raise e)
  | Some (Ok L3) =>
      Some (do saved <- (if checkpoint_due t (ntrials a) then try_save L3 out1
                         else Ok (L3, out1));
            Ok (decay a (fst saved), snd saved))
  end.

(** The trials [t0, t0+1, ..., t0+n-1]. *)
Fixpoint run_from (fuel : nat) (a : run_args) (bs : Z) (t0 n : nat)
    (st : Learner * list string) : option (result (Learner * list string)) :=
  match n with
  | O => Some (Ok st)
  | S n' =>
      match trial_body fuel a bs t0 st with
      | None => None
      | Some (Raise e) => Some (Raise e)
      | Some (Ok st') => run_from fuel a bs (S t0) n' st'
      end
  end.

(** [run(ntrials, batch_size, show=False, rate_decay, normalize)];
    [fuel] bounds the outer repetitions of each inference. *)
Definition run (fuel : nat) (L : Learner) (a : run_args) (out : list string)
  : option (result (Learner * list string)) :=
  let bs := or_Z (run_batch_size a) (stim_batch_size (stims L)) in
  run_from fuel a bs 0 (Z.to_nat (ntrials a)) (L, out).
End Calls.
End Model.

(** ** More of the two classes *)

Section MoreModel.
Context {F : Type} {SF : Scalar F}.

(** *** DictLearner.initialize_stats *)

(** The statistics [initialize_stats] builds for [nunits] units;
    [np.zeros] refuses a negative size. *)
Definition fresh_stats (n : nat) : Stats (F:=F) :=
  {| corrmatrix_ave := Arr2 (zeros n n);
     L0hist := []; L1hist := []; L2hist := [];
     L0acts := repeat fzero n; L1acts := repeat fzero n; L2acts := repeat fzero n;
     errorhist := []; meanacts := repeat fzero n |}.

Definition initialize_stats (L : Learner (F:=F)) : result (Learner (F:=F)) :=
  if Z.ltb (nunits L) 0 then
    Raise (ValueError "negative dimensions are not allowed"%string)
  else Ok (set_stats L (fresh_stats (Z.to_nat (nunits L)))).

(** The per-unit statistics of a learner of [N] units: four vectors of
    length [N] and an [N] x [N] correlation matrix. *)
Definition stats_ok (N : nat) (S : Stats (F:=F)) : Prop :=
  length (L0acts S) = N /\ length (L1acts S) = N /\ length (L2acts S) = N /\
  length (meanacts S) = N /\
  exists m, corrmatrix_ave S = Arr2 m /\ shape_ok N N m.

(** *** DictLearner.rand_dict *)

(** [rand_dict], as a function of the array that
    [np.random.randn(nunits, datasize)] drew. *)
Definition rand_dict (draw : matrix F) : matrix F := dot (normmatrix draw) draw.

(** *** DictLearner.generate_model, compute_errors *)

Definition generate_model (L : Learner (F:=F)) (acts : matrix F) : matrix F :=
  dot (transpose (Q L)) acts.

(** [np.mean(m, axis=0)] *)
Definition col_means (m : matrix F) : vec F := map vmean (transpose m).

Definition compute_errors (L : Learner (F:=F)) (acts X : matrix F) : vec F :=
  let diffs := msub X (generate_model L acts) in
  map2 fdiv (col_means (mmul diffs diffs)) (col_means (mmul X X)).

(** *** LCALearner.save_params, load_params *)

(** The tuple [params] of [save_params]. *)
Record saved_params : Type := {
  sv_learnrate : F;
  sv_theta : F;
  sv_min_thresh : F;
  sv_infrate : F;
  sv_niter : Z;
  sv_adapt : F;
  sv_max_iter : option Z;
  sv_tolerance : F
}.

(** What a parameter file holds: the list [save_params] pickles, or the
    two-element list of older files.  [pickle.load] gives back what
    [pickle.dump] was given; files of other contents are not modelled. *)
Inductive pickled : Type :=
| Pickled3 (q : matrix F) (params : saved_params) (errorhist : vec F)
| Pickled2 (q : matrix F) (errorhist : vec F).

(** The file system, a parameter of the model: the names that can be
    opened for writing, and what each existing file holds. *)
Record FileSystem : Type := {
  writable : string -> bool;
  contents : string -> option pickled
}.

Definition write_file (fs : FileSystem) (name : string) (p : pickled) : FileSystem :=
  {| writable := writable fs;
     contents := fun g => if String.eqb g name then Some p else contents fs g |}.

Definition params_of (L : Learner (F:=F)) : saved_params :=
  {| sv_learnrate := learnrate L; sv_theta := theta L;
     sv_min_thresh := min_thresh (lca L); sv_infrate := infrate (lca L);
     sv_niter := niter (lca L); sv_adapt := adapt (lca L);
     sv_max_iter := max_iter (lca L); sv_tolerance := tolerance (lca L) |}.

Definition set_errorhist (S : Stats (F:=F)) (eh : vec F) : Stats (F:=F) :=
  {| corrmatrix_ave := corrmatrix_ave S;
     L0hist := L0hist S; L1hist := L1hist S; L2hist := L2hist S;
     L0acts := L0acts S; L1acts := L1acts S; L2acts := L2acts S;
     errorhist := eh; meanacts := meanacts S |}.

(** The eight assignments [self.learnrate, ..., self.tolerance = params]. *)
Definition set_params_of (L : Learner (F:=F)) (p : saved_params) : Learner (F:=F) :=
  {| cls := cls L; nunits := nunits L; batch_size := batch_size L;
     learnrate := sv_learnrate p; paramfile := paramfile L; theta := sv_theta p;
     moving_avg_rate := moving_avg_rate L; stats := stats L; stims := stims L;
     Q := Q L; fastmode := fastmode L;
     lca := {| infrate := sv_infrate p; niter := sv_niter p;
               min_thresh := sv_min_thresh p; adapt := sv_adapt p;
               softthresh := softthresh (lca L); tolerance := sv_tolerance p;
               max_iter := sv_max_iter p; gpu := gpu (lca L) |} |}.

(** [save_params(filename)]: the learner and the file system as the call
    leaves them, and how it ends. *)
Definition save_params (L : Learner (F:=F)) (filename : option string) (fs : FileSystem)
  : Learner (F:=F) * FileSystem * result unit :=
  match or_str filename (paramfile L) with
  | None => (L, fs, Raise (ValueError "You need to input a filename."%string))
  | Some f =>
      let L' := set_paramfile L (Some f) in
      if writable fs f then
        (L', write_file fs f (Pickled3 (Q L) (params_of L) (errorhist (stats L))), Ok tt)
      else (L', fs, Raise (OSError "cannot open the file for writing"%string))
  end.

(** [load_params(filename)]: the learner as the call leaves it and, when
    it returns, the value it gave [self.picklefile].  The [try] fails with
    ValueError on a two-element list before it assigns anything, and the
    handler reads the file again. *)
Definition load_params (L : Learner (F:=F)) (filename : option string) (fs : FileSystem)
  : Learner (F:=F) * result (option string) :=
  let L1 := set_paramfile L filename in
  match filename with
  | None => (L1, Raise (TypeError "expected str, bytes or os.PathLike object, not NoneType"%string))
  | Some f =>
      match contents fs f with
      | None => (L1, Raise (OSError "No such file or directory"%string))
      | Some (Pickled3 q p eh) =>
          (set_params_of (set_stats (set_Q L1 q) (set_errorhist (stats L1) eh)) p,
           Ok (Some f))
      | Some (Pickled2 q eh) =>
          (set_stats (set_Q L1 q) (set_errorhist (stats L1) eh), Ok (Some f))
      end
  end.
(** *** DictLearner.load *)




(** *** An invariant of the loops of infer_cpu *)

(** The threshold vector after [k] inner iterations. *)
Definition thresh_after (P : LCAParams (F:=F)) (b : matrix F) (k : nat) : vec F :=
  Nat.iter k (decay_thresh P) (init_thresh P b).

(** For M stimuli and N units: the arrays have their shapes, some number
    [k] of inner iterations has run, the thresholds are those after [k]
    iterations, and the outputs are the potentials with the entries below
    the threshold of iteration [k] (the one before its decay) set to zero;
    before the first iteration all potentials and outputs are zero. *)
Definition hard_state (P : LCAParams (F:=F)) (b : matrix F) (M N : nat)
    (st : lca_state (F:=F)) : Prop :=
  state_shape M N st /\
  exists k,
    st_thresh st = thresh_after P b k /\
    match k with
    | O =>
        forall i j, i < M -> j < N ->
          nth j (nth i (st_s st) []) fzero = fzero /\
          nth j (nth i (st_u st) []) fzero = fzero
    | S k' =>
        forall i j, i < M -> j < N ->
          nth j (nth i (st_s st) []) fzero =
          if fltb (fabs (nth j (nth i (st_u st) []) fzero))
                  (nth i (thresh_after P b k') fzero)
          then fzero else nth j (nth i (st_u st) []) fzero
    end.
End MoreModel.

(** ** Example values *)

Module Examples.
Definition no_stims {F : Type} {SF : Scalar F} : StimSet :=
  {| stim_data := [[fone]]; stim_batch_size := 1; stim_draws := 0;
     stim_source := fun _ _ => [[fone]] |}.

Definition stats0 {F : Type} {SF : Scalar F} (n : nat) : Stats :=
  {| corrmatrix_ave := Arr2 (zeros n n);
     L0hist := []; L1hist := []; L2hist := [];
     L0acts := repeat fzero n; L1acts := repeat fzero n; L2acts := repeat fzero n;
     errorhist := []; meanacts := repeat fzero n |}.

(** An [LCAParams] with one inner iteration per block, at most one block,
    no decay of the thresholds and tolerance 1. *)
Definition params1 {F : Type} {SF : Scalar F} (rate floor : F) (soft : bool)
  : LCAParams :=
  {| infrate := rate; niter := 1; min_thresh := floor; adapt := fone;
     softthresh := soft; tolerance := fone; max_iter := Some 1%Z; gpu := false |}.

Definition learner1 {F : Type} {SF : Scalar F} (k : learner_class)
    (lr th : F) (file : option string) (q : matrix F) (P : LCAParams) : Learner :=
  {| cls := k; nunits := Z.of_nat (length q); batch_size := 1;
     learnrate := lr; paramfile := file; theta := th;
     moving_avg_rate := fone; stats := stats0 (length q); stims := no_stims;
     Q := q; fastmode := false; lca := P |}.

(** A learner with two units whose moving averages and correlation matrix
    tell the units apart, over a stimulus set that uses unit 0 twice and
    unit 1 once. *)
Definition two_units (k : learner_class) : Learner (F:=float) :=
  {| cls := k; nunits := 2; batch_size := 3; learnrate := 1%float;
     paramfile := None; theta := 0%float; moving_avg_rate := 0.5%float;
     stats := {| corrmatrix_ave := Arr2 [[0.5; 0]; [0; 0.25]]%float;
                 L0hist := []; L1hist := []; L2hist := [];
                 L0acts := [0.75; 0.25]%float; L1acts := [0.75; 0.25]%float;
                 L2acts := [0.75; 0.25]%float;
                 errorhist := []; meanacts := [0.75; 0.25]%float |};
     stims := {| stim_data := [[1; 0]; [1; 0]; [0; 1]]%float; stim_batch_size := 3;
                 stim_draws := 0; stim_source := fun _ _ => [[1]; [0]]%float |};
     Q := [[1; 0]; [0; 1]]%float; fastmode := false;
     lca := params1 1%float 0.5%float false |}.

(** Two inner iterations per block, at most five blocks, tolerance 2^-10. *)
Definition params_blocks : LCAParams (F:=float) :=
  {| infrate := 0.5%float; niter := 2; min_thresh := 0.25%float; adapt := 0.5%float;
     softthresh := false; tolerance := 0x1p-10%float; max_iter := Some 5%Z;
     gpu := false |}.

(** No cap, and a threshold floor no drive of the example reaches. *)
Definition params_forever : LCAParams (F:=float) :=
  {| infrate := 1%float; niter := 1; min_thresh := 2%float; adapt := 1%float;
     softthresh := false; tolerance := 0.5%float; max_iter := None; gpu := false |}.

Definition two_trials : run_args (F:=float) :=
  {| ntrials := 2; run_batch_size := None; rate_decay := Some 0.5%float;
     normalize := true |}.

Definition no_externals {F : Type} {SF : Scalar F} : Externals (F:=F) :=
  {| infer_gpu := fun _ _ => Raise (OSError "no CUDA device"%string);
     pickle_dump := fun _ _ _ => Ok tt |}.
End Examples.

Module FileExamples.
(** A file system with no file, where every name can be written. *)
Definition empty_disk {F : Type} {SF : Scalar F} : FileSystem (F:=F) :=
  {| writable := fun _ => true; contents := fun _ => None |}.
End FileExamples.

(** ** Lists and arrays *)

Section ListFacts.
Context {A B C : Type}.

Lemma length_map2 (f : A -> B -> C) (xs : list A) (ys : list B) :
  length (map2 f xs ys) = Nat.min (length xs) (length ys).
Proof.
  revert ys; induction xs as [|x xs IH]; intros [|y ys]; simpl; auto.
Qed.

Lemma nth_map2 (f : A -> B -> C) (xs : list A) (ys : list B) (i : nat)
    (dx : A) (dy : B) (dz : C) :
  i < length xs -> i < length ys ->
  nth i (map2 f xs ys) dz = f (nth i xs dx) (nth i ys dy).
Proof.
  revert ys i; induction xs as [|x xs IH]; intros [|y ys] [|i]; simpl; intros;
    try lia; auto.
  apply IH; lia.
Qed.

Lemma nth_map_in (f : A -> B) (xs : list A) (i : nat) (da : A) (db : B) :
  i < length xs -> nth i (map f xs) db = f (nth i xs da).
Proof.
  intros Hi. rewrite (nth_indep _ db (f da)) by (rewrite length_map; exact Hi).
  apply map_nth.
Qed.

Lemma Forall_map2 (P : C -> Prop) (f : A -> B -> C) (xs : list A) (ys : list B) :
  (forall x y, In x xs -> In y ys -> P (f x y)) -> Forall P (map2 f xs ys).
Proof.
  revert ys; induction xs as [|x xs IH]; intros [|y ys] Hf; simpl; constructor.
  - apply Hf; simpl; auto.
  - apply IH. intros; apply Hf; simpl; auto.
Qed.
End ListFacts.

(** ** Real arithmetic of the scalar operations *)

Section RealScalars.
Open Scope R_scope.

Lemma Rltb_true (a b : R) : Rltb a b = true <-> a < b.
Proof. unfold Rltb; destruct (Rlt_dec a b); split; intros; auto; discriminate. Qed.

Lemma Rltb_false (a b : R) : Rltb a b = false <-> b <= a.
Proof.
  unfold Rltb; destruct (Rlt_dec a b); split; intros; auto; try discriminate; lra.
Qed.

Lemma Rleb_true (a b : R) : Rleb a b = true <-> a <= b.
Proof. unfold Rleb; destruct (Rle_dec a b); split; intros; auto; discriminate. Qed.

Lemma Rleb_false (a b : R) : Rleb a b = false <-> b < a.
Proof.
  unfold Rleb; destruct (Rle_dec a b); split; intros; auto; try discriminate; lra.
Qed.

Lemma Reqb_true (a b : R) : Reqb a b = true <-> a = b.
Proof. unfold Reqb; destruct (Req_dec_T a b); split; intros; auto; discriminate. Qed.

Lemma fmaximum_R (a b : R) : fmaximum a b = Rmax a b.
Proof.
  unfold fmaximum; simpl. rewrite orb_false_r.
  destruct (Rleb b a) eqn:E.
  - apply Rleb_true in E. symmetry; apply Rmax_left; exact E.
  - apply Rleb_false in E. symmetry; apply Rmax_right; lra.
Qed.



Lemma fsign_R_zero : fsign 0 = 0.
Proof.
  unfold fsign; simpl.
  destruct (Rltb 0 0) eqn:E; [apply Rltb_true in E; lra|].
  destruct (Reqb 0 0); reflexivity.
Qed.
End RealScalars.

(** ** Rate decay *)

Section RateDecay.
Open Scope R_scope.

Lemma adjust_rates_frame {F : Type} {SF : Scalar F} (L : Learner) (factor : F) :
  Q (adjust_rates L factor) = Q L /\
  stats (adjust_rates L factor) = stats L /\
  lca (adjust_rates L factor) = lca L /\
  cls (adjust_rates L factor) = cls L.
Proof. unfold adjust_rates; destruct (cls L) eqn:E; simpl; auto. Qed.

(** C6, as stated, fails: an LCALearner with learning rate 1/100 and
    theta 22/1000 keeps theta 22/1000 after [adjust_rates(0.5)]; theta
    is not halved. *)
Lemma adjust_rates_lca_theta_not_halved :
  let L := Examples.learner1 LCALearner_class (1/100) (22/1000) None [[1]]
             (Examples.params1 1 0 false) in
  theta (adjust_rates L (1/2)) = 22/1000 /\
  theta (adjust_rates L (1/2)) <> theta L / 2.
Proof. simpl. split; [reflexivity | lra]. Qed.

(** C6, amended: [adjust_rates(0.5)] halves the learning rate of every
    learner; it halves theta for a plain DictLearner, and leaves theta
    unchanged for an LCALearner, whose override multiplies the learning
    rate only. *)
Theorem adjust_rates_half (L : Learner (F:=R)) :
  learnrate (adjust_rates L (1/2)) = learnrate L / 2 /\
  (cls L = DictLearner_class -> theta (adjust_rates L (1/2)) = theta L / 2) /\
  (cls L = LCALearner_class -> theta (adjust_rates L (1/2)) = theta L).
Proof.
  unfold adjust_rates. destruct (cls L); simpl; repeat split; intros;
    try discriminate; try reflexivity; lra.
Qed.
End RateDecay.

(** ** Thresholding *)

Section Thresholding.
Open Scope R_scope.




Lemma threshold_entry {F : Type} {SF : Scalar F} (P : LCAParams) (u : matrix F)
    (thresh : vec F) (i j : nat) :
  (i < length u)%nat -> (i < length thresh)%nat -> (j < length (nth i u []))%nat ->
  nth j (nth i (threshold P u thresh) []) fzero =
  (if softthresh P then soft (nth i thresh fzero) else hard (nth i thresh fzero))
    (nth j (nth i u []) fzero).
Proof.
  intros Hi Hi' Hj. unfold threshold.
  rewrite (nth_map2 _ _ _ [] fzero) by assumption.
  apply nth_map_in; exact Hj.
Qed.

Lemma inner_step_Ok {F : Type} {SF : Scalar F} (P : LCAParams) (c b : matrix F)
    (kk : nat) (st st' : lca_state) :
  inner_step P c b kk st = Ok st' ->
  any_nan (next_u P c b st) = false /\
  st_u st' = next_u P c b st /\
  st_s st' = threshold P (next_u P c b st) (st_thresh st) /\
  st_thresh st' = decay_thresh P (st_thresh st).
Proof.
  unfold inner_step. destruct (any_nan (next_u P c b st)); [discriminate|].
  intros E; injection E as <-. simpl; auto.
Qed.



End Thresholding.

(** ** Invariants of the loops of [infer_cpu] *)

Section LoopInvariants.
Context {F : Type} {SF : Scalar F}.
Variables (P : LCAParams (F:=F)) (c b : matrix F).
Variable Inv : lca_state (F:=F) -> Prop.
Hypothesis step_inv :
  forall kk st st', Inv st -> inner_step P c b kk st = Ok st' -> Inv st'.

Lemma inner_from_inv (n k0 : nat) (st st' : lca_state) :
  Inv st -> inner_from P c b k0 n st = Ok st' -> Inv st'.
Proof.
  revert k0 st; induction n as [|n IH]; intros k0 st Hst; simpl.
  - intros E; injection E as <-; exact Hst.
  - destruct (inner_step P c b k0 st) as [st1|e] eqn:E1; simpl; [|discriminate].
    apply IH. eapply step_inv; eauto.
Qed.

Lemma inner_loop_inv (st st' : lca_state) :
  Inv st -> inner_loop P c b st = Ok st' -> Inv st'.
Proof. apply inner_from_inv. Qed.

Lemma blocks_inv (n : nat) (st st' : lca_state) :
  Inv st -> blocks P c b n st = Ok st' -> Inv st'.
Proof.
  revert st; induction n as [|n IH]; intros st Hst; simpl.
  - intros E; injection E as <-; exact Hst.
  - destruct (inner_loop P c b st) as [st1|e] eqn:E1; simpl; [|discriminate].
    apply IH. eapply inner_loop_inv; eauto.
Qed.

Lemma outer_loop_inv (fuel : nat) (tol : F) (cap : option Z) (q X : matrix F)
    (err : F) (k : Z) (st st' : lca_state) :
  Inv st -> outer_loop fuel P tol cap q X c b err k st = Some (Ok st') -> Inv st'.
Proof.
  revert err k st; induction fuel as [|fuel IH]; intros err k st Hst; simpl;
    destruct (continue tol cap err k); try discriminate;
    try (intros E; injection E as <-; exact Hst).
  destruct (inner_loop P c b st) as [st1|e] eqn:E1; [|discriminate].
  apply IH. eapply inner_loop_inv; eauto.
Qed.
End LoopInvariants.

(** ** The threshold floor *)

Section ThresholdFloor.
Open Scope R_scope.

Lemma decay_thresh_floor (P : LCAParams (F:=R)) (th : vec R) :
  Forall (fun t => min_thresh P <= t) (decay_thresh P th).
Proof.
  unfold decay_thresh. apply Forall_map, Forall_forall. intros t _. simpl.
  destruct (Rltb (adapt P * t) (min_thresh P)) eqn:E.
  - lra.
  - apply Rltb_false in E; exact E.
Qed.

Lemma init_thresh_floor (P : LCAParams (F:=R)) (b : matrix R) :
  Forall (fun t => min_thresh P <= t) (init_thresh P b).
Proof.
  unfold init_thresh. apply Forall_map, Forall_forall. intros t _.
  rewrite fmaximum_R. apply Rmax_r.
Qed.

(** In exact arithmetic every entry of the threshold vector of
    [infer_cpu] is at least [min_thresh] when it is initialised, after
    every inner iteration (whatever the thresholds were before it), and in
    the vector the call returns; nothing is assumed of [adapt] or of the
    sign of [min_thresh]. *)
Lemma thresh_floor_reals (P : LCAParams (F:=R)) :
  (forall q X, Forall (fun t => min_thresh P <= t) (st_thresh (init_state P q X))) /\
  (forall c b kk st st',
     inner_step P c b kk st = Ok st' ->
     Forall (fun t => min_thresh P <= t) (st_thresh st')) /\
  (forall fuel L X tolerance_arg max_iter_arg s u thresh,
     lca L = P ->
     infer_cpu fuel L X tolerance_arg max_iter_arg = Some (Ok (s, u, thresh)) ->
     Forall (fun t => min_thresh P <= t) thresh).
Proof.
  assert (Hstep : forall c b kk st st',
             inner_step P c b kk st = Ok st' ->
             Forall (fun t => min_thresh P <= t) (st_thresh st')).
  { intros c b kk st st' E.
    destruct (inner_step_Ok _ _ _ _ _ E) as (_ & _ & _ & ->).
    apply decay_thresh_floor. }
  split; [|split].
  - intros q X. apply init_thresh_floor.
  - exact Hstep.
  - intros fuel L X ta ma s u thresh HP. unfold infer_cpu. rewrite HP.
    destruct (outer_loop _ _ _ _ _ _ _ _ _ _ _) as [[st'|e]|] eqn:E; try discriminate.
    intros E'; injection E' as _ _ <-.
    eapply (@outer_loop_inv _ _ P _ _
              (fun st => Forall (fun t => min_thresh P <= t) (st_thresh st)));
      [ | | exact E].
    + intros kk st0 st1 _ Hs. eapply Hstep; eauto.
    + apply init_thresh_floor.
Qed.

End ThresholdFloor.

(** ** The threshold floor in binary64 *)

Section ThresholdFloorBinary64.
Open Scope float_scope.

Lemma SFcompare_antisym (x y : spec_float) (c : comparison) :
  SFcompare x y = Some c -> SFcompare y x = Some (CompOpp c).
Proof.
  destruct x as [sx|sx| |sx mx ex], y as [sy|sy| |sy my ey]; simpl;
    try discriminate; try (intros E; injection E as <-);
    try (destruct sx; reflexivity); try (destruct sy; reflexivity);
    try (destruct sx, sy; reflexivity).
  change (Pos.compare_cont Eq mx my) with (Pos.compare mx my).
  change (Pos.compare_cont Eq my mx) with (Pos.compare my mx).
  rewrite (Z.compare_antisym ex ey), (Pos.compare_antisym mx my).
  destruct sx, sy; try reflexivity;
    destruct (ex ?= ey)%Z; simpl; try reflexivity;
    destruct (mx ?= my)%positive; reflexivity.
Qed.

Lemma SFcompare_not_nan (x y : spec_float) :
  x <> S754_nan -> y <> S754_nan -> exists c, SFcompare x y = Some c.
Proof.
  destruct x, y; simpl; intros Hx Hy; try congruence; eexists; reflexivity.
Qed.

Lemma is_nan_false (x : float) : is_nan x = false -> Prim2SF x <> S754_nan.
Proof.
  unfold is_nan. rewrite FloatAxioms.eqb_spec. intros H E. rewrite E in H. discriminate.
Qed.

(** Among numbers, not being below is being at least. *)
Lemma ltb_false_leb (x y : float) :
  is_nan x = false -> is_nan y = false -> (x <? y) = false -> (y <=? x) = true.
Proof.
  intros Hx Hy. rewrite ltb_spec, leb_spec. unfold SFltb, SFleb.
  destruct (SFcompare_not_nan (is_nan_false _ Hx) (is_nan_false _ Hy)) as [c Hc].
  rewrite Hc, (SFcompare_antisym _ _ Hc). destruct c; simpl; congruence.
Qed.

Lemma leb_refl_number (x : float) : is_nan x = false -> (x <=? x) = true.
Proof.
  intros Hx. rewrite leb_spec. unfold SFleb.
  destruct (SFcompare_not_nan (is_nan_false _ Hx) (is_nan_false _ Hx)) as [c Hc].
  pose proof (SFcompare_antisym _ _ Hc) as Hc'. rewrite Hc in *.
  destruct c; simpl in *; congruence.
Qed.

(** The binary64 reading of the floor: when [min_thresh] is a number,
    every threshold that is a number is at least [min_thresh], at
    initialisation and after every inner iteration. *)
Lemma thresh_floor_binary64 (P : LCAParams (F:=float)) :
  is_nan (min_thresh P) = false ->
  (forall b, Forall (fun t => is_nan t = false -> (min_thresh P <=? t) = true)
                    (init_thresh P b)) /\
  (forall thresh, Forall (fun t => is_nan t = false -> (min_thresh P <=? t) = true)
                         (decay_thresh P thresh)).
Proof.
  intros Hmin. split.
  - intros b. unfold init_thresh. apply Forall_map, Forall_forall. intros t _.
    unfold fmaximum. simpl fleb. simpl fisnan.
    destruct (min_thresh P <=? t) eqn:E; simpl; [intros _; exact E|].
    destruct (is_nan t) eqn:En; [intros H; congruence|].
    intros _. apply leb_refl_number. exact Hmin.
  - intros thresh. unfold decay_thresh. apply Forall_map, Forall_forall. intros t _.
    simpl. destruct (adapt P * t <? min_thresh P) eqn:E.
    + intros _. apply leb_refl_number. exact Hmin.
    + intros Hn. apply ltb_false_leb; assumption.
Qed.
End ThresholdFloorBinary64.

Section ThresholdVector.
Context {F : Type} {SF : Scalar F}.

(** The threshold vector keeps its length: one entry per row of [b]. *)
Lemma thresh_length_step (P : LCAParams (F:=F)) (c b : matrix F) (kk : nat)
    (st st' : lca_state) :
  inner_step P c b kk st = Ok st' -> length (st_thresh st') = length (st_thresh st).
Proof.
  intros E. destruct (inner_step_Ok _ _ _ _ _ E) as (_ & _ & _ & ->).
  unfold decay_thresh. apply length_map.
Qed.

Lemma thresh_length_init (P : LCAParams (F:=F)) (q X : matrix F) :
  length (st_thresh (init_state P q X)) = length (drive q X).
Proof. simpl. unfold init_thresh. rewrite !length_map. reflexivity. Qed.

Lemma thresh_length_infer (fuel : nat) (L : Learner (F:=F)) (X : matrix F)
    (ta : option F) (ma : option Z) (s u : matrix F) (thresh : vec F) :
  infer_cpu fuel L X ta ma = Some (Ok (s, u, thresh)) ->
  length thresh = length (drive (Q L) X).
Proof.
  unfold infer_cpu.
  destruct (outer_loop _ _ _ _ _ _ _ _ _ _ _) as [[st'|e]|] eqn:E; try discriminate.
  intros E'; injection E' as _ _ <-.
  eapply (@outer_loop_inv _ _ (lca L) _ _
            (fun st => length (st_thresh st) = length (drive (Q L) X)));
    [ | | exact E].
  - intros kk st0 st1 H0 Hs. rewrite (thresh_length_step _ _ _ _ _ Hs). exact H0.
  - apply thresh_length_init.
Qed.
End ThresholdVector.

(** C2 as stated fails in binary64: a threshold can be NaN, and NaN is not
    at least [min_thresh].  With [adapt = 0] and a stimulus whose drive
    overflows, the initial threshold is +infinity, the first iteration
    multiplies it by 0, the reset [thresh[thresh < min_thresh]] does not
    select the NaN, and the call returns it.  The initial threshold itself
    is NaN when the drive of a stimulus is (here +infinity - infinity). *)
Lemma nan_threshold_is_returned :
  let P := {| infrate := 1%float; niter := 1; min_thresh := 0.5%float; adapt := 0%float;
              softthresh := false; tolerance := 1%float; max_iter := Some 1%Z;
              gpu := false |} in
  let L := Examples.learner1 LCALearner_class 1%float 0%float None [[2%float]] P in
  infer_cpu 1 L [[0x1p1023%float]] None None =
    Some (Ok ([[infinity]], [[infinity]], [nan])) /\
  PrimFloat.leb (min_thresh P) nan = false /\
  init_thresh P (drive [[2; 2]] [[0x1p1023]; [-0x1p1023]])%float = [nan].
Proof. vm_compute. repeat split; reflexivity. Qed.

(** C2, amended: the threshold vector of [infer_cpu] has one entry per
    stimulus (per row of [b]) when it is initialised, after every inner
    iteration and when it is returned, and, whatever [adapt] is:
    in binary64, with [min_thresh] a number, every entry that is not NaN
    is at least [min_thresh] (an entry can be NaN, as the lemma before
    this one shows); in exact arithmetic, where there is no NaN, every
    entry is at least [min_thresh].  Nothing is assumed of the sign of
    [min_thresh]. *)
Theorem thresh_never_below_min_thresh :
  (forall P : LCAParams (F:=float),
     is_nan (min_thresh P) = false ->
     (forall q X,
        length (st_thresh (init_state P q X)) = length (drive q X) /\
        Forall (fun t => is_nan t = false -> PrimFloat.leb (min_thresh P) t = true)
               (st_thresh (init_state P q X))) /\
     (forall c b kk st st',
        inner_step P c b kk st = Ok st' ->
        length (st_thresh st') = length (st_thresh st) /\
        Forall (fun t => is_nan t = false -> PrimFloat.leb (min_thresh P) t = true)
               (st_thresh st')) /\
     (forall fuel L X tolerance_arg max_iter_arg s u thresh,
        lca L = P ->
        infer_cpu fuel L X tolerance_arg max_iter_arg = Some (Ok (s, u, thresh)) ->
        length thresh = length (drive (Q L) X) /\
        Forall (fun t => is_nan t = false -> PrimFloat.leb (min_thresh P) t = true)
               thresh)) /\
  (forall P : LCAParams (F:=R),
     (forall q X,
        length (st_thresh (init_state P q X)) = length (drive q X) /\
        Forall (fun t => (min_thresh P <= t)%R) (st_thresh (init_state P q X))) /\
     (forall c b kk st st',
        inner_step P c b kk st = Ok st' ->
        length (st_thresh st') = length (st_thresh st) /\
        Forall (fun t => (min_thresh P <= t)%R) (st_thresh st')) /\
     (forall fuel L X tolerance_arg max_iter_arg s u thresh,
        lca L = P ->
        infer_cpu fuel L X tolerance_arg max_iter_arg = Some (Ok (s, u, thresh)) ->
        length thresh = length (drive (Q L) X) /\
        Forall (fun t => (min_thresh P <= t)%R) thresh)).
Proof.
  split.
  - intros P Hmin. destruct (thresh_floor_binary64 P Hmin) as [Hinit Hdecay].
    assert (Hstep : forall c b kk st st',
               inner_step P c b kk st = Ok st' ->
               Forall (fun t => is_nan t = false -> PrimFloat.leb (min_thresh P) t = true)
                      (st_thresh st')).
    { intros c b kk st st' E.
      destruct (inner_step_Ok _ _ _ _ _ E) as (_ & _ & _ & ->). apply Hdecay. }
    split; [|split].
    + intros q X. split; [apply thresh_length_init | apply Hinit].
    + intros c b kk st st' E. split; [exact (thresh_length_step _ _ _ _ _ E)|].
      exact (Hstep _ _ _ _ _ E).
    + intros fuel L X ta ma s u thresh HP Hinf.
      split; [exact (thresh_length_infer _ _ _ _ _ Hinf)|].
      revert Hinf. unfold infer_cpu. rewrite HP.
      destruct (outer_loop _ _ _ _ _ _ _ _ _ _ _) as [[st'|e]|] eqn:E; try discriminate.
      intros E'; injection E' as _ _ <-.
      eapply (@outer_loop_inv _ _ P _ _
                (fun st => Forall (fun t => is_nan t = false ->
                                            PrimFloat.leb (min_thresh P) t = true)
                                  (st_thresh st)));
        [ | | exact E].
      * intros kk st0 st1 _ Hs. eapply Hstep; eauto.
      * apply Hinit.
  - intros P. destruct (thresh_floor_reals P) as (Hinit & Hstep & Hinf).
    split; [|split].
    + intros q X. split; [apply thresh_length_init | apply Hinit].
    + intros c b kk st st' E. split; [exact (thresh_length_step _ _ _ _ _ E)|].
      exact (Hstep _ _ _ _ _ E).
    + intros fuel L X ta ma s u thresh HP H.
      split; [exact (thresh_length_infer _ _ _ _ _ H)|].
      exact (Hinf _ _ _ _ _ _ _ _ HP H).
Qed.

(** Three blocks of the one-unit example: the threshold starts at 1, is
    halved twice, and is reset to the floor 0.25 from then on. *)
Lemma thresh_never_below_min_thresh_witness :
  let P := Examples.params_blocks in
  let L := Examples.learner1 LCALearner_class 1%float 0%float None [[1%float]] P in
  st_thresh (init_state P (Q L) [[1%float]]) = [1%float] /\
  exists s u thresh,
    infer_cpu 3 L [[1%float]] None None = Some (Ok (s, u, thresh)) /\
    thresh = [0.25%float] /\
    length thresh = length (drive (Q L) [[1%float]]) /\
    Forall (fun t => is_nan t = false -> PrimFloat.leb (min_thresh P) t = true) thresh.
Proof.
  intros P L. split; [vm_compute; reflexivity|].
  assert (E : infer_cpu 3 L [[1%float]] None None =
              Some (Ok ([[0.984375]], [[0.984375]], [0.25]))%float)
    by (vm_compute; reflexivity).
  exists [[0.984375%float]], [[0.984375%float]], [0.25%float].
  split; [exact E|]. split; [reflexivity|].
  exact (proj2 (proj2 (proj1 thresh_never_below_min_thresh P eq_refl))
           3 L [[1%float]] None None _ _ _ eq_refl E).
Defined.

(** ** The NaN check of the inner loop *)

Section NanCheck.
Context {F : Type} {SF : Scalar F}.
Hypothesis zero_not_nan : fisnan fzero = false.

Lemma any_nan_false (m : matrix F) :
  any_nan m = false <-> (forall r x, In r m -> In x r -> fisnan x = false).
Proof.
  unfold any_nan. split.
  - intros H r x Hr Hx.
    destruct (fisnan x) eqn:E; auto.
    assert (existsb (existsb fisnan) m = true); [|congruence].
    apply existsb_exists. exists r; split; auto.
    apply existsb_exists. exists x; split; auto.
  - intros H. destruct (existsb (existsb fisnan) m) eqn:E; auto.
    apply existsb_exists in E. destruct E as (r & Hr & E).
    apply existsb_exists in E. destruct E as (x & Hx & E).
    rewrite (H r x Hr Hx) in E. discriminate.
Qed.

Lemma any_nan_zeros (r c : nat) : any_nan (zeros r c) = false.
Proof.
  apply any_nan_false. intros row x Hrow Hx. unfold zeros in Hrow.
  apply repeat_spec in Hrow. subst row. apply repeat_spec in Hx. subst x.
  exact zero_not_nan.
Qed.

Lemma nth_nan_free (l : vec F) (j : nat) :
  (forall x, In x l -> fisnan x = false) -> fisnan (nth j l fzero) = false.
Proof.
  intros H. destruct (nth_in_or_default j l fzero) as [Hin | ->]; auto.
Qed.

Lemma any_nan_transpose (m : matrix F) :
  any_nan m = false -> any_nan (transpose m) = false.
Proof.
  intros H. apply any_nan_false. intros r x Hr Hx.
  unfold transpose in Hr. apply in_map_iff in Hr. destruct Hr as (j & <- & _).
  unfold col in Hx. apply in_map_iff in Hx. destruct Hx as (row & <- & Hrow).
  apply nth_nan_free. intros y Hy.
  exact (proj1 (any_nan_false m) H row y Hrow Hy).
Qed.

Lemma in_map2 {A B C : Type} (f : A -> B -> C) (xs : list A) (ys : list B) (z : C) :
  In z (map2 f xs ys) -> exists x y, In x xs /\ In y ys /\ z = f x y.
Proof.
  revert ys; induction xs as [|x xs IH]; intros [|y ys]; simpl; try tauto.
  intros [<- | Hz].
  - exists x, y; auto.
  - destruct (IH _ Hz) as (x' & y' & Hx & Hy & ->). exists x', y'; auto.
Qed.

Lemma any_nan_hard (P : LCAParams (F:=F)) (u : matrix F) (thresh : vec F) :
  softthresh P = false -> any_nan u = false -> any_nan (threshold P u thresh) = false.
Proof.
  intros Hmode Hu. apply any_nan_false. intros r x Hr Hx.
  unfold threshold in Hr. rewrite Hmode in Hr.
  apply in_map2 in Hr. destruct Hr as (row & th & Hrow & _ & ->).
  apply in_map_iff in Hx. destruct Hx as (y & <- & Hy).
  unfold hard. destruct (fltb (fabs y) th); [exact zero_not_nan|].
  exact (proj1 (any_nan_false u) Hu row y Hrow Hy).
Qed.

Lemma inner_step_nan (P : LCAParams (F:=F)) (c b : matrix F) (kk : nat) (st : lca_state) :
  any_nan (next_u P c b st) = true -> inner_step P c b kk st = Raise (blew_up kk).
Proof. intros H. unfold inner_step. rewrite H. reflexivity. Qed.

Lemma inner_step_no_nan (P : LCAParams (F:=F)) (c b : matrix F) (kk : nat) (st : lca_state) :
  any_nan (next_u P c b st) = false ->
  exists st', inner_step P c b kk st = Ok st' /\ st_u st' = next_u P c b st.
Proof. intros H. unfold inner_step. rewrite H. eexists; split; reflexivity. Qed.

Lemma inner_from_raise_at (P : LCAParams (F:=F)) (c b : matrix F) (m : nat) :
  forall n k0 st stm,
    inner_from P c b k0 m st = Ok stm ->
    any_nan (next_u P c b stm) = true ->
    m < n ->
    inner_from P c b k0 n st = Raise (blew_up (k0 + m)).
Proof.
  induction m as [|m IH]; intros n k0 st stm Hm Hnan Hlt.
  - simpl in Hm. injection Hm as <-. destruct n as [|n]; [lia|]. simpl.
    rewrite (inner_step_nan _ _ _ k0 _ Hnan). simpl. rewrite Nat.add_0_r. reflexivity.
  - destruct n as [|n]; [lia|]. simpl in *.
    destruct (inner_step P c b k0 st) as [st1|e]; simpl in *; [|discriminate].
    rewrite (IH n (S k0) st1 stm Hm Hnan) by lia.
    f_equal. f_equal. lia.
Qed.

Lemma inner_from_raises (P : LCAParams (F:=F)) (c b : matrix F) (n : nat) :
  forall k0 st e,
    inner_from P c b k0 n st = Raise e ->
    exists kk, k0 <= kk < k0 + n /\ e = blew_up kk.
Proof.
  induction n as [|n IH]; intros k0 st e; simpl; [discriminate|].
  unfold inner_step at 1. destruct (any_nan (next_u P c b st)); simpl.
  - intros E; injection E as <-. exists k0; split; [lia|reflexivity].
  - intros E. destruct (IH _ _ _ E) as (kk & Hkk & ->). exists kk; split; [lia|reflexivity].
Qed.

Lemma outer_loop_raises (P : LCAParams (F:=F)) (c b : matrix F) (fuel : nat) :
  forall tol cap q X err k st e,
    outer_loop fuel P tol cap q X c b err k st = Some (Raise e) ->
    exists kk, kk < Z.to_nat (niter P) /\ e = blew_up kk.
Proof.
  induction fuel as [|fuel IH]; intros tol cap q X err k st e; simpl;
    destruct (continue tol cap err k); try discriminate.
  destruct (inner_loop P c b st) as [st1|e1] eqn:E1.
  - apply IH.
  - intros E; injection E as <-. unfold inner_loop in E1.
    destruct (inner_from_raises _ _ _ _ _ _ E1) as (kk & Hkk & ->).
    exists kk; split; [lia|reflexivity].
Qed.

Lemma infer_cpu_returns_no_nan (fuel : nat) (L : Learner (F:=F)) (X : matrix F)
    (ta : option F) (ma : option Z) (s u : matrix F) (thresh : vec F) :
  infer_cpu fuel L X ta ma = Some (Ok (s, u, thresh)) ->
  any_nan u = false /\ (softthresh (lca L) = false -> any_nan s = false).
Proof.
  unfold infer_cpu.
  destruct (outer_loop _ _ _ _ _ _ _ _ _ _ _) as [[st'|e]|] eqn:E; try discriminate.
  intros E'; injection E' as <- <- _. split.
  - apply any_nan_transpose.
    eapply (@outer_loop_inv _ _ (lca L) _ _ (fun st => any_nan (st_u st) = false));
      [ | | exact E].
    + intros kk st0 st1 _ Hs.
      destruct (inner_step_Ok _ _ _ _ _ Hs) as (Hn & -> & _). exact Hn.
    + apply any_nan_zeros.
  - intros Hmode. apply any_nan_transpose.
    eapply (@outer_loop_inv _ _ (lca L) _ _ (fun st => any_nan (st_s st) = false));
      [ | | exact E].
    + intros kk st0 st1 _ Hs.
      destruct (inner_step_Ok _ _ _ _ _ Hs) as (Hn & _ & -> & _).
      apply any_nan_hard; assumption.
    + apply any_nan_zeros.
Qed.
End NanCheck.

Section Divergence.
Open Scope float_scope.

(** C4, as stated, fails for infinities: with dictionary [[1]], step size
    2 and the stimulus 2^1023 the potential overflows to +infinity at
    the only inner iteration; nothing is raised and the call returns the
    infinite coefficient. *)
Lemma infinite_potential_is_returned :
  let P := Examples.params1 2 0.5 false in
  let L := Examples.learner1 LCALearner_class 1 0 None [[1]] P in
  let X := [[0x1p1023]] in
  next_u P (overlap (Q L)) (drive (Q L) X) (init_state P (Q L) X) = [[infinity]] /\
  infer_cpu 1 L X None None = Some (Ok ([[infinity]], [[infinity]], [0x1p1023])).
Proof. vm_compute. split; reflexivity. Qed.

(** In soft mode an infinite potential can even come with a NaN
    coefficient: with dictionary [[2]] the drive and the threshold are
    both +infinity, the potential is +infinity (no NaN, nothing raised) and
    the output is sign(u) * max(0, inf - inf). *)
Lemma soft_mode_returns_nan_coefficient :
  let P := Examples.params1 2 0.5 true in
  let L := Examples.learner1 LCALearner_class 1 0 None [[2]] P in
  infer_cpu 1 L [[0x1p1023]] None None = Some (Ok ([[nan]], [[infinity]], [infinity])).
Proof. vm_compute. reflexivity. Qed.

(** C4, amended: the inner loop of [infer_cpu] checks the updated
    potential for NaN only.  (a) An inner iteration raises the error
    carrying its index [kk] exactly when the updated [u] has a NaN entry,
    and otherwise goes on, infinite entries included.  (b) If the [kk]-th
    update of a block produces a NaN, the block stops there with that
    error and the call ends with it, returning no coefficients.  (c) The
    only error the call raises is this one, with [kk] below [niter]; when
    the call returns, the returned [u] has no NaN entry, and in hard mode
    neither have the coefficients. *)
Theorem infer_cpu_nan_check (P : LCAParams (F:=float)) :
  (forall c b kk st,
     (any_nan (next_u P c b st) = true ->
      inner_step P c b kk st = Raise (blew_up kk)) /\
     (any_nan (next_u P c b st) = false ->
      exists st', inner_step P c b kk st = Ok st' /\ st_u st' = next_u P c b st)) /\
  (forall c b st kk stk,
     (kk < Z.to_nat (niter P))%nat ->
     inner_from P c b 0 kk st = Ok stk ->
     any_nan (next_u P c b stk) = true ->
     inner_loop P c b st = Raise (blew_up kk) /\
     forall fuel tol cap q X err k,
       continue tol cap err k = true ->
       outer_loop (S fuel) P tol cap q X c b err k st = Some (Raise (blew_up kk))) /\
  (forall fuel L X tolerance_arg max_iter_arg,
     lca L = P ->
     (forall e, infer_cpu fuel L X tolerance_arg max_iter_arg = Some (Raise e) ->
                exists kk, (kk < Z.to_nat (niter P))%nat /\ e = blew_up kk) /\
     (forall s u thresh,
        infer_cpu fuel L X tolerance_arg max_iter_arg = Some (Ok (s, u, thresh)) ->
        any_nan u = false /\ (softthresh P = false -> any_nan s = false))).
Proof.
  split; [|split].
  - intros c b kk st. split.
    + apply inner_step_nan.
    + apply inner_step_no_nan.
  - intros c b st kk stk Hkk Hfrom Hnan.
    assert (Hblock : inner_loop P c b st = Raise (blew_up kk)).
    { unfold inner_loop.
      exact (@inner_from_raise_at _ _ P c b kk _ 0%nat st stk Hfrom Hnan Hkk). }
    split; [exact Hblock|].
    intros fuel tol cap q X err k Hcont. simpl. rewrite Hcont, Hblock. reflexivity.
  - intros fuel L X ta ma HP. subst P. split.
    + intros e. unfold infer_cpu.
      destruct (outer_loop _ _ _ _ _ _ _ _ _ _ _) as [[st'|e']|] eqn:E; try discriminate.
      intros E'; injection E' as <-.
      exact (outer_loop_raises _ _ _ _ _ _ _ _ _ _ _ E).
    + intros s u thresh. apply infer_cpu_returns_no_nan. reflexivity.
Qed.

(** The second block of a call whose first block overflowed: the NaN
    appears at inner index 0 and the call ends with the error. *)
Lemma infer_cpu_nan_check_witness :
  let P := Examples.params1 2 0.5 false in
  let c := overlap [[1]] in
  let b := drive [[1]] [[0x1p1023]] in
  let st := {| st_u := [[infinity]]; st_s := [[infinity]]; st_thresh := [0x1p1023] |} in
  inner_loop P c b st = Raise (blew_up 0).
Proof.
  intros P c b st.
  refine (proj1 (proj1 (proj2 (infer_cpu_nan_check P)) c b st 0%nat st _ eq_refl _)).
  - vm_compute. reflexivity.
  - vm_compute. reflexivity.
Defined.
End Divergence.

(** ** Shapes *)

Section Shapes.
Context {F : Type} {SF : Scalar F}.

Lemma ncols_shape (r c : nat) (m : matrix F) :
  shape_ok r c m -> 0 < r -> ncols m = c.
Proof.
  intros [Hlen Hrows] Hr. destruct m as [|row m]; simpl in *; [lia|].
  inversion Hrows; assumption.
Qed.

Lemma shape_ok_row (r c : nat) (m : matrix F) (i : nat) :
  shape_ok r c m -> i < r -> length (nth i m []) = c.
Proof.
  intros [Hlen Hrows] Hi. rewrite Forall_forall in Hrows.
  apply Hrows, nth_In. lia.
Qed.

Lemma shape_ok_transpose (r c : nat) (m : matrix F) :
  shape_ok r c m -> 0 < r -> shape_ok c r (transpose m).
Proof.
  intros Hm Hr. unfold transpose. rewrite (ncols_shape Hm Hr). split.
  - rewrite length_map, length_seq. reflexivity.
  - apply Forall_map, Forall_forall. intros j _. unfold col.
    rewrite length_map. apply Hm.
Qed.

Lemma shape_ok_dot (r k k' c : nat) (a b : matrix F) :
  shape_ok r k a -> shape_ok k' c b -> 0 < k' -> shape_ok r c (dot a b).
Proof.
  intros Ha Hb Hk. unfold dot. split.
  - rewrite length_map. apply Ha.
  - apply Forall_map, Forall_forall. intros row _.
    rewrite length_map. apply (shape_ok_transpose Hb Hk).
Qed.

Lemma shape_ok_map2 (f : F -> F -> F) (r c : nat) (a b : matrix F) :
  shape_ok r c a -> shape_ok r c b -> shape_ok r c (map2 (map2 f) a b).
Proof.
  intros [Ha Ha'] [Hb Hb']. split.
  - rewrite length_map2. lia.
  - rewrite Forall_forall in Ha', Hb'. apply Forall_map2. intros x y Hx Hy.
    rewrite length_map2, (Ha' x Hx), (Hb' y Hy). lia.
Qed.

Lemma shape_ok_mscale (x : F) (r c : nat) (m : matrix F) :
  shape_ok r c m -> shape_ok r c (mscale x m).
Proof.
  intros [Hm Hm']. split.
  - unfold mscale. rewrite length_map. exact Hm.
  - unfold mscale. apply Forall_map. eapply Forall_impl; [|exact Hm'].
    intros row Hrow. simpl. rewrite length_map. exact Hrow.
Qed.

Lemma shape_ok_residual (L : Learner (F:=F)) (data coeffs : matrix F) (N D B : nat) :
  0 < N -> 0 < D ->
  shape_ok N D (Q L) -> shape_ok D B data -> shape_ok N B coeffs ->
  shape_ok B D (residual L data coeffs).
Proof.
  intros HN HD HQ Hdata Hcoeffs. unfold residual, msub.
  apply shape_ok_map2.
  - apply shape_ok_transpose; assumption.
  - eapply shape_ok_dot; [apply shape_ok_transpose; eassumption | eassumption | assumption].
Qed.

Lemma shape_ok_updated_Q (L : Learner (F:=F)) (data coeffs : matrix F) (N D B : nat) :
  0 < N -> 0 < D -> 0 < B ->
  shape_ok N D (Q L) -> shape_ok D B data -> shape_ok N B coeffs ->
  shape_ok N D (updated_Q L data coeffs).
Proof.
  intros HN HD HB HQ Hdata Hcoeffs.
  pose proof (@shape_ok_residual L data coeffs N D B HN HD HQ Hdata Hcoeffs) as HR.
  assert (H1 : shape_ok N D (madd (Q L) (mscale (learnrate L)
                                      (dot coeffs (residual L data coeffs))))).
  { unfold madd. apply shape_ok_map2; [assumption|].
    apply shape_ok_mscale. eapply shape_ok_dot; eassumption. }
  unfold updated_Q. destruct (negb (feqb (theta L) fzero)); [|exact H1].
  unfold madd at 1. apply shape_ok_map2; [exact H1|].
  apply shape_ok_mscale. unfold msub. apply shape_ok_map2; [exact H1|].
  eapply shape_ok_dot; [exact H1| |exact HD].
  eapply shape_ok_dot; [apply shape_ok_transpose; eassumption | exact H1 | exact HN].
Qed.

Lemma shape_ok_zeros (r c : nat) : shape_ok r c (zeros (F:=F) r c).
Proof.
  unfold zeros. split.
  - apply repeat_length.
  - apply Forall_forall. intros row Hrow. apply repeat_spec in Hrow. subst row.
    apply repeat_length.
Qed.

Lemma shape_ok_eye (n : nat) : shape_ok n n (eye (F:=F) n).
Proof.
  unfold eye. split.
  - rewrite length_map, length_seq. reflexivity.
  - apply Forall_map, Forall_forall. intros i _. rewrite length_map, length_seq.
    reflexivity.
Qed.

Lemma shape_ok_diag (v : vec F) : shape_ok (length v) (length v) (diag v).
Proof.
  split; [unfold diag; rewrite length_map, length_seq; reflexivity|].
  unfold diag. apply Forall_map. apply Forall_forall. intros i _.
  rewrite length_map, length_seq. reflexivity.
Qed.

Lemma shape_ok_overlap (q : matrix F) (N D : nat) :
  0 < N -> 0 < D -> shape_ok N D q -> shape_ok N N (overlap q).
Proof.
  intros HN HD Hq. unfold overlap, msub. destruct Hq as [Hlen Hrows].
  rewrite Hlen. apply shape_ok_map2; [|apply shape_ok_eye].
  eapply shape_ok_dot; [split; eassumption | | exact HD].
  apply shape_ok_transpose; [split; assumption | exact HN].
Qed.

Lemma shape_ok_drive (q X : matrix F) (N D M : nat) :
  0 < N -> 0 < D -> shape_ok N D q -> shape_ok D M X -> shape_ok M N (drive q X).
Proof.
  intros HN HD Hq HX. unfold drive.
  apply shape_ok_transpose; [|exact HN].
  eapply shape_ok_dot; eassumption.
Qed.

Lemma state_shape_init (P : LCAParams (F:=F)) (q X : matrix F) (N D M : nat) :
  0 < N -> 0 < D -> shape_ok N D q -> shape_ok D M X ->
  state_shape M N (init_state P q X).
Proof.
  intros HN HD Hq HX. unfold init_state, state_shape. simpl.
  rewrite (ncols_shape HX HD). destruct Hq as [Hlen Hrows]. rewrite Hlen.
  repeat split; try apply shape_ok_zeros.
  unfold init_thresh. rewrite !length_map.
  apply (@shape_ok_drive q X N D M HN HD (conj Hlen Hrows) HX).
Qed.

Lemma state_shape_step (P : LCAParams (F:=F)) (c b : matrix F) (M N kk : nat)
    (st st' : lca_state) :
  0 < N -> shape_ok N N c -> shape_ok M N b ->
  state_shape M N st -> inner_step P c b kk st = Ok st' -> state_shape M N st'.
Proof.
  intros HN Hc Hb (Hu & Hs & Hth) Hstep. unfold inner_step in Hstep.
  destruct (any_nan (next_u P c b st)); [discriminate|]. injection Hstep as <-.
  assert (Hnext : shape_ok M N (next_u P c b st)).
  { unfold next_u, madd, msub. apply shape_ok_map2; apply shape_ok_mscale; [|exact Hu].
    apply shape_ok_map2; [exact Hb|]. eapply shape_ok_dot; eassumption. }
  unfold state_shape. simpl. split; [exact Hnext|]. split.
  - unfold threshold. destruct Hnext as [Hlen Hrows]. split.
    + rewrite length_map2. lia.
    + rewrite Forall_forall in Hrows. apply Forall_map2. intros row t Hrow _.
      rewrite length_map. apply Hrows. exact Hrow.
  - unfold decay_thresh. rewrite length_map. exact Hth.
Qed.

Lemma infer_cpu_shape (fuel : nat) (L : Learner (F:=F)) (X : matrix F)
    (ta : option F) (ma : option Z) (N D M : nat) (s u : matrix F) (thresh : vec F) :
  0 < N -> 0 < D -> 0 < M ->
  shape_ok N D (Q L) -> shape_ok D M X ->
  infer_cpu fuel L X ta ma = Some (Ok (s, u, thresh)) ->
  shape_ok N M s /\ shape_ok N M u /\ length thresh = M.
Proof.
  intros HN HD HM HQ HX. unfold infer_cpu.
  destruct (outer_loop _ _ _ _ _ _ _ _ _ _ _) as [[st'|e]|] eqn:E; try discriminate.
  intros E'; injection E' as <- <- <-.
  assert (Hst : state_shape M N st').
  { eapply (@outer_loop_inv _ _ (lca L) _ _ (state_shape M N)); [ | | exact E].
    - intros kk st0 st1 H0 H1.
      eapply state_shape_step; [exact HN | | | exact H0 | exact H1].
      + exact (@shape_ok_overlap (Q L) N D HN HD HQ).
      + exact (@shape_ok_drive (Q L) X N D M HN HD HQ HX).
    - exact (@state_shape_init (lca L) (Q L) X N D M HN HD HQ HX). }
  destruct Hst as (Hu & Hs & Hth).
  repeat split; try (apply shape_ok_transpose; assumption); try exact Hth;
    try (apply (shape_ok_transpose Hs HM)); try (apply (shape_ok_transpose Hu HM)).
Qed.

Lemma map_nth_seq {A B : Type} (g : A -> B) (l : list A) (d : A) :
  map g l = map (fun i => g (nth i l d)) (seq 0 (length l)).
Proof.
  induction l as [|x l IH]; simpl; [reflexivity|].
  f_equal. rewrite <- seq_shift, map_map. exact IH.
Qed.
End Shapes.

(** ** Row normalisation in exact arithmetic *)

Section Normalisation.
Open Scope R_scope.

Lemma fold_left_Rplus_acc (l : list R) (a : R) :
  fold_left Rplus l a = a + fold_left Rplus l 0.
Proof.
  revert a; induction l as [|x l IH]; intros a; simpl; [lra|].
  rewrite (IH (a + x)), (IH (0 + x)). lra.
Qed.

Lemma vsum_cons_R (x : R) (l : list R) : vsum (x :: l) = x + vsum l.
Proof. unfold vsum; simpl. rewrite fold_left_Rplus_acc. lra. Qed.

Lemma vsum_nil_R : vsum (F:=R) [] = 0.
Proof. reflexivity. Qed.

(** A row of [np.diag(v)] times a column picks one entry of the column. *)
Lemma vdot_indicator (a : R) (i n : nat) :
  forall (s : nat) (w : vec R),
    length w = n ->
    vdot (map (fun k => if Nat.eqb i k then a else 0) (seq s n)) w =
    if (s <=? i)%nat && (i <? s + n)%nat then a * nth (i - s) w 0 else 0.
Proof.
  induction n as [|n IH]; intros s w Hw.
  - destruct w; [|discriminate]. simpl.
    destruct (s <=? i)%nat eqn:E1; destruct (i <? s + 0)%nat eqn:E2; simpl; auto.
    apply Nat.leb_le in E1. apply Nat.ltb_lt in E2. lia.
  - destruct w as [|x w]; [discriminate|]. injection Hw as Hw.
    unfold vdot in *. change (@fmul R Scalar_R) with Rmult in *.
    simpl map. simpl map2. rewrite vsum_cons_R.
    rewrite (IH (S s) w Hw).
    destruct (Nat.eqb i s) eqn:Eis.
    + apply Nat.eqb_eq in Eis. subst s.
      replace (S i <=? i)%nat with false by (symmetry; apply Nat.leb_gt; lia).
      replace (i <=? i)%nat with true by (symmetry; apply Nat.leb_le; lia).
      replace (i <? i + S n)%nat with true by (symmetry; apply Nat.ltb_lt; lia).
      simpl. rewrite Nat.sub_diag. simpl. lra.
    + apply Nat.eqb_neq in Eis.
      destruct (S s <=? i)%nat eqn:E1.
      * apply Nat.leb_le in E1.
        replace (s <=? i)%nat with true by (symmetry; apply Nat.leb_le; lia).
        replace (i <? s + S n)%nat with (i <? S s + n)%nat by (f_equal; lia).
        destruct (i <? S s + n)%nat; simpl; [|lra].
        replace (i - s)%nat with (S (i - S s)) by lia. simpl. lra.
      * apply Nat.leb_gt in E1.
        replace (s <=? i)%nat with false by (symmetry; apply Nat.leb_gt; lia).
        simpl. lra.
Qed.

Lemma nth_col {F : Type} {SF : Scalar F} (m : matrix F) (i j : nat) :
  (i < length m)%nat -> nth i (col j m) fzero = nth j (nth i m []) fzero.
Proof.
  intros Hi. unfold col.
  exact (nth_map_in (fun r => nth j r fzero) m [] fzero Hi).
Qed.

(** [np.diag(v).dot(M)] scales row [i] of [M] by [v[i]]. *)
Lemma dot_diag (v : vec R) (M : matrix R) (N D : nat) :
  (0 < N)%nat -> length v = N -> shape_ok N D M ->
  dot (diag v) M = map2 (fun a row => map (Rmult a) row) v M.
Proof.
  intros HN Hv HM. pose proof HM as [HlenM _].
  apply (nth_ext _ _ [] []).
  - unfold dot, diag. rewrite !length_map, length_seq, length_map2. lia.
  - unfold dot, diag. rewrite !length_map, length_seq, Hv. intros i Hi.
    rewrite (nth_map2 _ _ _ 0 []) by lia.
    rewrite map_map.
    rewrite (nth_map_in _ _ 0%nat) by (rewrite length_seq; lia).
    rewrite seq_nth by lia. simpl Nat.add.
    unfold transpose. rewrite (ncols_shape HM HN). rewrite map_map.
    rewrite (map_nth_seq (Rmult (nth i v 0)) (nth i M []) 0).
    rewrite (shape_ok_row HM) by lia.
    apply map_ext_in. intros j _.
    rewrite (vdot_indicator (nth i v 0) i 0 (col j M))
      by (unfold col; rewrite length_map; lia).
    replace (0 <=? i)%nat with true by (symmetry; apply Nat.leb_le; lia).
    replace (i <? 0 + N)%nat with true by (symmetry; apply Nat.ltb_lt; lia).
    simpl andb. cbv iota. rewrite Nat.sub_0_r.
    f_equal. refine (@nth_col R Scalar_R M i j _). lia.
Qed.

Lemma sum_squares_nonneg (r : vec R) : 0 <= vsum (map2 Rmult r r).
Proof.
  induction r as [|x r IH]; simpl.
  - rewrite vsum_nil_R. lra.
  - rewrite vsum_cons_R. pose proof (Rle_0_sqr x) as Hx. unfold Rsqr in Hx. lra.
Qed.

Lemma sum_squares_scaled (a : R) (r : vec R) :
  vsum (map2 Rmult (map (Rmult a) r) (map (Rmult a) r)) = a * a * vsum (map2 Rmult r r).
Proof.
  induction r as [|x r IH]; simpl.
  - rewrite vsum_nil_R. lra.
  - rewrite !vsum_cons_R, IH. lra.
Qed.

Lemma row_norm_scaled (r : vec R) :
  row_norm r <> 0 -> row_norm (map (Rmult (1 / row_norm r)) r) = 1.
Proof.
  unfold row_norm. simpl fsqrt. simpl fmul.
  set (S := vsum (map2 Rmult r r)). intros Hnz.
  rewrite sum_squares_scaled. fold S.
  assert (HS : 0 <= S) by apply sum_squares_nonneg.
  assert (Hsq : R_sqrt.sqrt S * R_sqrt.sqrt S = S) by (apply R_sqrt.sqrt_sqrt; exact HS).
  replace (1 / R_sqrt.sqrt S * (1 / R_sqrt.sqrt S) * S) with 1.
  - apply R_sqrt.sqrt_1.
  - rewrite <- Hsq at 3. field. exact Hnz.
Qed.

Lemma normalize_rows_unit (M : matrix R) (N D : nat) :
  (0 < N)%nat -> shape_ok N D M ->
  Forall (fun r => row_norm r <> 0) M ->
  Forall (fun r => row_norm r = 1) (dot (normmatrix M) M).
Proof.
  intros HN HM Hnz. unfold normmatrix.
  rewrite (@dot_diag _ M N D HN) by (rewrite ?length_map; apply HM || exact HM).
  clear HM. induction M as [|row M IH]; simpl; constructor.
  - inversion Hnz; subst. apply row_norm_scaled. assumption.
  - inversion Hnz; subst. apply IH. assumption.
Qed.



(** The same call in binary64: the stored rows have norm 1 up to rounding
    (here 1 and 1 - 2^-53). *)
Lemma learn_rows_norm_binary64_example :
  let L := Examples.learner1 DictLearner_class 1%float 0%float None
             [[3; 4]; [1; 1]]%float (Examples.params1 1%float 0.5%float false) in
  map row_norm (Q (fst (learn L [[1]; [0]] [[0]; [0]] true)))%float
  = [1; 0x1.fffffffffffffp-1]%float.
Proof. vm_compute. reflexivity. Qed.

End Normalisation.

(** ** A zero-norm row in binary64 *)

Section DegenerateRow.
Open Scope float_scope.

Lemma Prim2SF_nan (x : float) : Prim2SF x = S754_nan -> x = nan.
Proof. intros H. apply Prim2SF_inj. rewrite H. reflexivity. Qed.

Lemma add_nan_l (x : float) : nan + x = nan.
Proof.
  apply Prim2SF_nan. rewrite add_spec.
  replace (Prim2SF nan) with S754_nan by reflexivity. reflexivity.
Qed.

Lemma add_nan_r (x : float) : x + nan = nan.
Proof.
  apply Prim2SF_nan. rewrite add_spec.
  replace (Prim2SF nan) with S754_nan by reflexivity.
  destruct (Prim2SF x); reflexivity.
Qed.

Lemma fold_add_from_nan (l : list float) : fold_left PrimFloat.add l nan = nan.
Proof. induction l as [|x l IH]; simpl; [reflexivity|]. rewrite add_nan_l. exact IH. Qed.

Lemma fold_add_nan (l : list float) :
  In nan l -> forall a, fold_left PrimFloat.add l a = nan.
Proof.
  induction l as [|x l IH]; simpl; [tauto|].
  intros [-> | Hin] a.
  - rewrite add_nan_r. apply fold_add_from_nan.
  - apply IH. exact Hin.
Qed.

Lemma vsum_nan (l : vec float) : In nan l -> vsum l = nan.
Proof. intros H. unfold vsum. simpl fadd. apply fold_add_nan. exact H. Qed.

(** The entry (i,j) of [normmatrix.dot(Q)] when row [i] of [Q] has a
    zero sum of squares and a zero at column [j]. *)
Lemma zero_row_entry_nan (M : matrix float) (N D i j : nat) :
  shape_ok N D M -> (i < N)%nat -> (j < D)%nat ->
  vsum (map2 PrimFloat.mul (nth i M []) (nth i M [])) = 0 ->
  nth j (nth i M []) 0 = 0 \/ nth j (nth i M []) 0 = -0 ->
  1 / row_norm (nth i M []) = infinity /\
  nth j (nth i (dot (normmatrix M) M) []) 0 = nan.
Proof.
  intros HM Hi Hj Hsum Hzero. pose proof HM as [HlenM _].
  assert (HN : (0 < N)%nat) by lia.
  assert (Hscale : 1 / row_norm (nth i M []) = infinity).
  { unfold row_norm. simpl fsqrt. simpl fmul. rewrite Hsum. reflexivity. }
  split; [exact Hscale|].
  set (v := map (fun r => fdiv fone (row_norm r)) M).
  assert (Hv : length v = N) by (unfold v; rewrite length_map; exact HlenM).
  assert (Hvi : nth i v 0 = infinity).
  { unfold v. rewrite (nth_map_in _ _ [] 0) by lia. exact Hscale. }
  unfold normmatrix. fold v. unfold dot, diag. rewrite map_map.
  rewrite (nth_map_in _ _ 0%nat []) by (rewrite length_seq; lia).
  rewrite seq_nth by lia. simpl Nat.add.
  unfold transpose. rewrite (ncols_shape HM HN). rewrite map_map.
  rewrite (nth_map_in _ _ 0%nat 0) by (rewrite length_seq; lia).
  rewrite seq_nth by lia. simpl Nat.add.
  unfold vdot. apply vsum_nan.
  set (drow := map (fun k => if Nat.eqb i k then nth i v fzero else fzero) (seq 0 (length v))).
  assert (Hd : length drow = N) by (unfold drow; rewrite length_map, length_seq; exact Hv).
  assert (Hc : length (col j M) = N) by (unfold col; rewrite length_map; exact HlenM).
  assert (Hnth : nth i (map2 fmul drow (col j M)) 0 = nan).
  { rewrite (nth_map2 _ _ _ 0 0) by lia.
    unfold drow. rewrite (nth_map_in _ _ 0%nat 0) by (rewrite length_seq; lia).
    rewrite seq_nth by lia. simpl Nat.add. rewrite Nat.eqb_refl.
    assert (Hcol : nth i (col j M) fzero = nth j (nth i M []) fzero)
      by (apply (@nth_col float Scalar_float); lia).
    change (@fzero float Scalar_float) with 0 in *. rewrite Hvi, Hcol.
    destruct Hzero as [-> | ->]; reflexivity. }
  rewrite <- Hnth. apply nth_In. rewrite length_map2. lia.
Qed.

(** C7, as stated, fails: with the dictionary [[0,0],[1,0]] and zero
    coefficients the first row has norm zero when it is normalised; the
    call raises nothing, stores NaN in that row and returns the error 0.5. *)
Lemma zero_norm_row_is_stored_as_nan :
  let L := Examples.learner1 DictLearner_class 1 0 None [[0; 0]; [1; 0]]
             (Examples.params1 1 0.5 false) in
  let r := learn L [[1]; [0]] [[0]; [0]] true in
  updated_Q L [[1]; [0]] [[0]; [0]] = [[0; 0]; [1; 0]] /\
  Q (fst r) = [[nan; nan]; [1; 0]] /\ snd r = 0.5.
Proof. vm_compute. repeat split; reflexivity. Qed.

(** C7, amended: [learn] has no check for a zero norm and no [raise]; the
    call always returns.  For a dictionary of N rows and D columns, when
    the sum of squares of row [i] just before the normalisation is zero,
    the scale factor [1./np.sqrt(0)] of that row is +infinity, and each
    zero entry of the row is stored as NaN. *)
Theorem learn_zero_norm_row_nan (L : Learner (F:=float)) (data coeffs : matrix float)
    (N D B i j : nat) :
  (0 < D)%nat -> (0 < B)%nat ->
  shape_ok N D (Q L) -> shape_ok D B data -> shape_ok N B coeffs ->
  (i < N)%nat -> (j < D)%nat ->
  let Q1 := updated_Q L data coeffs in
  vsum (map2 PrimFloat.mul (nth i Q1 []) (nth i Q1 [])) = 0 ->
  nth j (nth i Q1 []) 0 = 0 \/ nth j (nth i Q1 []) 0 = -0 ->
  1 / row_norm (nth i Q1 []) = infinity /\
  nth j (nth i (Q (fst (learn L data coeffs true))) []) 0 = nan.
Proof.
  intros HD HB HQ Hdata Hcoeffs Hi Hj Q1 Hsum Hzero.
  assert (HN : (0 < N)%nat) by lia.
  unfold learn. simpl Q. fold Q1.
  apply (@zero_row_entry_nan Q1 N D i j); try assumption.
  exact (@shape_ok_updated_Q _ _ L data coeffs N D B HN HD HB HQ Hdata Hcoeffs).
Qed.

(** The zero first row of [[0,0],[1,0]]: scale factor +infinity, NaN stored. *)
Lemma learn_zero_norm_row_nan_witness :
  let L := Examples.learner1 DictLearner_class 1 0 None [[0; 0]; [1; 0]]
             (Examples.params1 1 0.5 false) in
  1 / row_norm (nth 0 (updated_Q L [[1]; [0]] [[0]; [0]]) []) = infinity /\
  nth 1 (nth 0 (Q (fst (learn L [[1]; [0]] [[0]; [0]] true))) []) 0 = nan.
Proof.
  intros L.
  refine (@learn_zero_norm_row_nan L [[1]; [0]] [[0]; [0]] 2 2 1 0 1 _ _ _ _ _ _ _ _ _);
    try lia; try (split; [reflexivity | repeat constructor]).
  - vm_compute. reflexivity.
  - left. vm_compute. reflexivity.
Defined.
End DegenerateRow.

(** ** The outer loop of [infer_cpu] *)

Section OuterLoop.
Context {F : Type} {SF : Scalar F}.
Variables (P : LCAParams (F:=F)) (tol : F) (cap : option Z) (q X c b : matrix F).

Lemma outer_loop_stop (fuel : nat) (err : F) (k : Z) (st : lca_state) :
  continue tol cap err k = false ->
  outer_loop fuel P tol cap q X c b err k st = Some (Ok st).
Proof. intros H. destruct fuel; simpl; rewrite H; reflexivity. Qed.


Lemma blocks_S (n : nat) (st st1 : lca_state) :
  inner_loop P c b st = Ok st1 ->
  blocks P c b (S n) st = blocks P c b n st1.
Proof. intros H. simpl. rewrite H. reflexivity. Qed.



(** With a cap the loop ends within the fuel the cap asks for. *)
Lemma outer_loop_capped (m : Z) (fuel : nat) :
  cap = Some m ->
  forall err k st,
    (Z.to_nat (m - k) <= fuel)%nat ->
    outer_loop fuel P tol cap q X c b err k st <> None.
Proof.
  intros Hcap. induction fuel as [|fuel IH]; intros err k st Hfuel; simpl;
    destruct (continue tol cap err k) eqn:Hc; try discriminate.
  - unfold continue in Hc. rewrite Hcap in Hc.
    apply andb_true_iff in Hc. destruct Hc as [_ Hc]. apply Z.ltb_lt in Hc. lia.
  - destruct (inner_loop P c b st) as [st1|e]; [|discriminate].
    apply IH. unfold continue in Hc. rewrite Hcap in Hc.
    apply andb_true_iff in Hc. destruct Hc as [_ Hc]. apply Z.ltb_lt in Hc. lia.
Qed.

(** Without a cap the loop returns no state while the error stays above
    the tolerance. *)
Lemma outer_loop_uncapped (fuel : nat) :
  cap = None ->
  forall err k st,
    fltb tol err = true ->
    (forall n st_n, 0 < n -> blocks P c b n st = Ok st_n ->
       fltb tol (mse q X (st_s st_n)) = true) ->
    (forall st', outer_loop fuel P tol cap q X c b err k st <> Some (Ok st')) /\
    ((forall n, exists st_n, blocks P c b n st = Ok st_n) ->
     outer_loop fuel P tol cap q X c b err k st = None).
Proof.
  intros Hcap. induction fuel as [|fuel IH]; intros err k st Herr Hall; simpl;
    (assert (Hc : continue tol cap err k = true)
       by (unfold continue; rewrite Hcap, Herr; reflexivity));
    rewrite Hc.
  - split; [discriminate | reflexivity].
  - destruct (inner_loop P c b st) as [st1|e] eqn:E1.
    + assert (Hall1 : forall n st_n, 0 < n -> blocks P c b n st1 = Ok st_n ->
                 fltb tol (mse q X (st_s st_n)) = true).
      { intros n st_n Hn Hb. apply (Hall (S n)); [lia|].
        rewrite (@blocks_S n _ _ E1). exact Hb. }
      assert (Herr1 : fltb tol (mse q X (st_s st1)) = true).
      { apply (Hall 1); [lia|]. rewrite (@blocks_S 0 _ _ E1). reflexivity. }
      destruct (IH (mse q X (st_s st1)) (k + 1)%Z st1 Herr1 Hall1) as [H1 H2].
      split; [exact H1|].
      intros Hex. apply H2. intros n. destruct (Hex (S n)) as [st_n Hn].
      exists st_n. rewrite <- (@blocks_S n _ _ E1). exact Hn.
    + split; [discriminate|].
      intros Hex. destruct (Hex 1) as [st_1 H1]. simpl in H1. rewrite E1 in H1.
      discriminate.
Qed.
End OuterLoop.


Section Convergence.
Context {F : Type} {SF : Scalar F}.

End Convergence.

(** A run of three blocks: the errors after the first two blocks exceed
    the tolerance 2^-10, the third block starts from what the second left,
    and the call returns the state after the third; fuel for two blocks
    does not reach the end of the loop. *)
Lemma three_blocks_example :
  let P := Examples.params_blocks in
  let L := Examples.learner1 LCALearner_class 1%float 0%float None [[1%float]] P in
  let X := [[1%float]] in
  let c := overlap (Q L) in
  let b := drive (Q L) X in
  let st0 := init_state P (Q L) X in
  blocks P c b 1 st0 = Ok {| st_u := [[0.75]]; st_s := [[0.75]]; st_thresh := [0.25] |}%float /\
  blocks P c b 2 st0 = Ok {| st_u := [[0.9375]]; st_s := [[0.9375]]; st_thresh := [0.25] |}%float /\
  blocks P c b 3 st0 =
    Ok {| st_u := [[0.984375]]; st_s := [[0.984375]]; st_thresh := [0.25] |}%float /\
  infer_cpu 3 L X None None = Some (Ok ([[0.984375]], [[0.984375]], [0.25]))%float /\
  infer_cpu 2 L X None None = None.
Proof. vm_compute. repeat split; reflexivity. Qed.

(** A call that never returns: without a cap, and with every output
    zeroed by a threshold of 2, the error stays 1, above the tolerance 0.5,
    whatever the fuel. *)
Lemma uncapped_call_runs_forever :
  let L := Examples.learner1 LCALearner_class 1%float 0%float None [[1%float]]
             Examples.params_forever in
  forall fuel, infer_cpu fuel L [[1%float]] None None = None.
Proof.
  intros L fuel. unfold infer_cpu.
  set (P := lca L). set (c := overlap (Q L)). set (b := drive (Q L) [[1%float]]).
  set (st0 := init_state P (Q L) [[1%float]]).
  set (st1 := {| st_u := [[1]]; st_s := [[0]]; st_thresh := [2] |}%float).
  assert (H0 : inner_loop P c b st0 = Ok st1) by (vm_compute; reflexivity).
  assert (H1 : inner_loop P c b st1 = Ok st1) by (vm_compute; reflexivity).
  assert (Hfix : forall n, blocks P c b n st1 = Ok st1).
  { induction n as [|n IH]; [reflexivity|].
    rewrite (@blocks_S _ _ P c b n st1 st1 H1). exact IH. }
  assert (Hall : forall n, blocks P c b (S n) st0 = Ok st1).
  { intros n. rewrite (@blocks_S _ _ P c b n st0 st1 H0). apply Hfix. }
  destruct (@outer_loop_uncapped _ _ P (or_float None (tolerance P))
              (or_int None (max_iter P)) (Q L) [[1%float]] c b fuel eq_refl
              (fadd (or_float None (tolerance P)) fone) 0%Z st0) as [_ Hnone].
  - vm_compute. reflexivity.
  - intros [|n] st_n Hn Hb; [lia|]. rewrite Hall in Hb. injection Hb as <-.
    vm_compute. reflexivity.
  - rewrite Hnone; [reflexivity|].
    intros [|n]; [exists st0; reflexivity | exists st1; apply Hall].
Qed.



(** ** Sorting the dictionary *)

Section Sorting.
Context {F : Type} {SF : Scalar F}.

Lemma take_ok {A : Type} (xs : list A) (d : A) (sorter : list nat) :
  Forall (fun k => k < length xs) sorter ->
  take xs sorter = Ok (map (fun k => nth k xs d) sorter).
Proof.
  induction 1 as [|k ks Hk _ IH]; simpl; [reflexivity|].
  rewrite (nth_error_nth' xs d Hk), IH. reflexivity.
Qed.

Lemma take_pairs_ok (m : matrix F) (N : nat) (sorter : list nat) :
  shape_ok N N m ->
  Forall (fun k => k < N) sorter ->
  take_pairs m sorter = Ok (map (fun k => nth k (nth k m []) fzero) sorter).
Proof.
  intros Hm. induction 1 as [|k ks Hk _ IH]; simpl; [reflexivity|].
  assert (Hk' : k < length m) by (destruct Hm as [-> _]; exact Hk).
  rewrite (nth_error_nth' m [] Hk').
  assert (Hrow : k < length (nth k m [])) by (rewrite (shape_ok_row Hm Hk); exact Hk).
  rewrite (nth_error_nth' (nth k m []) fzero Hrow), IH. reflexivity.
Qed.

Lemma permutation_indices (N : nat) (sorter : list nat) :
  Permutation sorter (seq 0 N) ->
  length sorter = N /\ Forall (fun k => k < N) sorter.
Proof.
  intros Hp. split.
  - rewrite (Permutation_length Hp). apply length_seq.
  - apply Forall_forall. intros k Hk.
    apply (Permutation_in _ Hp) in Hk. apply in_seq in Hk. lia.
Qed.

Lemma insert_index_perm (v : vec F) (i : nat) (l : list nat) :
  Permutation (insert_index v i l) (i :: l).
Proof.
  induction l as [|j l IH]; simpl; [reflexivity|].
  destruct (sorts_before (nth i v fzero) (nth j v fzero)); [reflexivity|].
  rewrite IH. apply perm_swap.
Qed.

Lemma fold_insert_perm (v : vec F) (xs acc : list nat) :
  Permutation (fold_left (fun a i => insert_index v i a) xs acc) (acc ++ xs).
Proof.
  revert acc; induction xs as [|x xs IH]; intros acc; simpl.
  - rewrite app_nil_r. reflexivity.
  - rewrite IH, insert_index_perm. apply Permutation_middle.
Qed.

(** [np.argsort] returns a permutation of the indices. *)
Lemma argsort_perm (v : vec F) : Permutation (argsort v) (seq 0 (length v)).
Proof. unfold argsort. apply (fold_insert_perm v (seq 0 (length v)) []). Qed.


Lemma sort_permutation (L : Learner (F:=F)) (usages : vec F) (sorter : list nat)
    (m : matrix F) (N : nat) :
  corrmatrix_ave (stats L) = Arr2 m ->
  shape_ok N N m ->
  length (Q L) = N ->
  length (L0acts (stats L)) = N ->
  length (L1acts (stats L)) = N ->
  length (L2acts (stats L)) = N ->
  length (meanacts (stats L)) = N ->
  Permutation sorter (seq 0 N) ->
  exists L',
    sort L usages sorter = Ok L' /\
    corrmatrix_ave (stats L') =
      Arr1 (map (fun k => nth k (nth k m []) fzero) sorter) /\
    shape (corrmatrix_ave (stats L')) = [N].
Proof.
  intros Hcm Hm HQ H0 H1 H2 Hma Hperm.
  destruct (@permutation_indices N sorter Hperm) as [Hlen Hidx].
  unfold sort. rewrite Hcm. simpl index_both.
  rewrite (take_ok (Q L) []) by (rewrite HQ; exact Hidx).
  rewrite (take_ok (L0acts (stats L)) fzero) by (rewrite H0; exact Hidx).
  rewrite (take_ok (L1acts (stats L)) fzero) by (rewrite H1; exact Hidx).
  rewrite (take_ok (L2acts (stats L)) fzero) by (rewrite H2; exact Hidx).
  rewrite (take_ok (meanacts (stats L)) fzero) by (rewrite Hma; exact Hidx).
  rewrite (take_pairs_ok Hm Hidx). simpl.
  eexists. split; [reflexivity|]. simpl. rewrite length_map, Hlen.
  split; reflexivity.
Qed.

(** C8: for a learner of N units whose correlation statistic is an N x N
    array [m], [sort] with a permutation [sorter] of the indices succeeds
    and stores in [corrmatrix_ave] the rank-1 array of the diagonal entries
    m[k,k] taken at the positions k of [sorter]; its shape is (N,), not
    (N, N).  [fast_sort], which calls [sort] with the [np.argsort] of the
    usages, does so as well. *)
Theorem sort_stores_diagonal (L : Learner (F:=F)) (m : matrix F) (N : nat) :
  corrmatrix_ave (stats L) = Arr2 m ->
  shape_ok N N m ->
  length (Q L) = N ->
  length (L0acts (stats L)) = N ->
  length (L1acts (stats L)) = N ->
  length (L2acts (stats L)) = N ->
  length (meanacts (stats L)) = N ->
  (forall usages sorter,
     Permutation sorter (seq 0 N) ->
     exists L',
       sort L usages sorter = Ok L' /\
       corrmatrix_ave (stats L') =
         Arr1 (map (fun k => nth k (nth k m []) fzero) sorter) /\
       shape (corrmatrix_ave (stats L')) = [N] /\
       shape (corrmatrix_ave (stats L')) <> [N; N]) /\
  (forall useL1,
     exists L' sorted sorter,
       fast_sort L useL1 = Ok (L', sorted) /\
       Permutation sorter (seq 0 N) /\
       corrmatrix_ave (stats L') =
         Arr1 (map (fun k => nth k (nth k m []) fzero) sorter) /\
       shape (corrmatrix_ave (stats L')) = [N] /\
       shape (corrmatrix_ave (stats L')) <> [N; N]).
Proof.
  intros Hcm Hm HQ H0 H1 H2 Hma. split.
  - intros usages sorter Hperm.
    destruct (sort_permutation L usages Hcm Hm HQ H0 H1 H2 Hma Hperm)
      as (L' & Hs & Hc & Hsh).
    exists L'. repeat split; try assumption. rewrite Hsh. discriminate.
  - intros useL1. unfold fast_sort.
    set (usages := if useL1 then L1acts (stats L) else L0acts (stats L)).
    assert (Hu : length usages = N) by (unfold usages; destruct useL1; assumption).
    assert (Hperm : Permutation (argsort usages) (seq 0 N))
      by (rewrite <- Hu; apply argsort_perm).
    destruct (sort_permutation L usages Hcm Hm HQ H0 H1 H2 Hma Hperm)
      as (L' & Hs & Hc & Hsh).
    rewrite Hs. simpl.
    destruct (@permutation_indices N (argsort usages) Hperm) as [_ Hidx].
    rewrite (take_ok usages fzero) by (rewrite Hu; exact Hidx). simpl.
    exists L', (map (fun k => nth k usages fzero) (argsort usages)), (argsort usages).
    repeat split; try assumption. rewrite Hsh. discriminate.
Qed.
End Sorting.

(** Two units sorted by [1, 0]: the stored statistic is [m[1,1], m[0,0]]. *)
Lemma sort_stores_diagonal_witness :
  let L := Examples.two_units DictLearner_class in
  exists L',
    sort L [0.75; 0.25]%float [1; 0] = Ok L' /\
    corrmatrix_ave (stats L') = Arr1 [0.25; 0.5]%float /\
    shape (corrmatrix_ave (stats L')) = [2] /\
    shape (corrmatrix_ave (stats L')) <> [2; 2].
Proof.
  intros L.
  refine (proj1 (@sort_stores_diagonal float Scalar_float L
                   [[0.5; 0]; [0; 0.25]]%float 2 _ _ _ _ _ _ _)
            [0.75; 0.25]%float [1; 0] _); try reflexivity.
  - split; [reflexivity | repeat constructor].
  - apply perm_swap.
Defined.

(** After the first sort the statistic has rank 1, and a second sort fails
    on its two indices. *)
Lemma second_sort_raises :
  let L := Examples.two_units DictLearner_class in
  match fast_sort L false with
  | Ok (L', _) =>
      corrmatrix_ave (stats L') = Arr1 [0.25; 0.5]%float /\
      Q L' = [[0; 1]; [1; 0]]%float /\
      fast_sort L' false = Raise (IndexError "too many indices for array"%string)
  | Raise _ => False
  end.
Proof. vm_compute. repeat split; reflexivity. Qed.

Section SortDictFrame.
Context {F : Type} {SF : Scalar F}.
Variable ext : Externals (F:=F).


End SortDictFrame.


(** ** Checkpoints in the trial loop *)

Section Checkpoint.
Context {F : Type} {SF : Scalar F}.
Variable ext : Externals (F:=F).

Lemma try_save_without_paramfile (L : Learner (F:=F)) (out : list string) :
  paramfile L = None ->
  try_save ext L out = Ok (L, out ++ [failed_line concat_None_msg]).
Proof. intros H. unfold try_save, save_attempt. rewrite H. reflexivity. Qed.

Lemma try_save_with_paramfile (L : Learner (F:=F)) (out : list string) (f : string) :
  paramfile L = Some f -> try_save ext L out = Raise NotImplementedError.
Proof.
  intros H. unfold try_save, save_attempt, save. rewrite H. simpl. reflexivity.
Qed.

Lemma try_save_catches (L L' : Learner (F:=F)) (out out' : list string) (msg : string) :
  save_attempt ext L out = (L', out', Raise (ValueError msg)) \/
  save_attempt ext L out = (L', out', Raise (TypeError msg)) ->
  try_save ext L out = Ok (L', out' ++ [failed_line msg]).
Proof. unfold try_save. intros [-> | ->]; reflexivity. Qed.

Lemma store_statistics_paramfile (L L' : Learner (F:=F)) (acts : matrix F) (e : F)
    (bs : option Z) (center : bool) :
  store_statistics L acts e bs center = Ok L' -> paramfile L' = paramfile L.
Proof.
  unfold store_statistics. destruct (fastmode L).
  - intros E; injection E as <-. reflexivity.
  - destruct (corr_update _ _ _); simpl; [|discriminate].
    intros E; injection E as <-. reflexivity.
Qed.

Lemma trial_compute_paramfile (fuel : nat) (a : run_args) (bs : Z) (L L3 : Learner (F:=F)) :
  trial_compute ext fuel a bs L = Some (Ok L3) -> paramfile L3 = paramfile L.
Proof.
  unfold trial_compute. simpl.
  destruct (infer ext fuel _ _) as [[[[acts u] th]|e]|]; try discriminate.
  intros E; injection E as E. apply store_statistics_paramfile in E. exact E.
Qed.

(** C9, amended: at a trial where a checkpoint is attempted, a ValueError
    or TypeError raised by the attempt is caught, a line is printed, and
    the loop goes on with the next trial; this is what happens when
    [paramfile] is missing (the message of the attempt concatenates [None]).
    Any other exception leaves [run]: with a [paramfile], [save] reaches
    the hook [get_param_list], which neither class implements, and the
    NotImplementedError ends the loop at that trial.  The five parts: the
    two caught classes; the missing [paramfile]; the hook; every other
    exception; and the same two cases seen from the loop. *)
Theorem checkpoint_failures (fuel : nat) (a : run_args (F:=F)) (bs : Z) :
  (forall L L' out out' msg,
     save_attempt ext L out = (L', out', Raise (ValueError msg)) \/
     save_attempt ext L out = (L', out', Raise (TypeError msg)) ->
     try_save ext L out = Ok (L', out' ++ [failed_line msg])) /\
  (forall L out,
     paramfile L = None ->
     try_save ext L out = Ok (L, out ++ [failed_line concat_None_msg])) /\
  (forall L out f,
     paramfile L = Some f -> try_save ext L out = Raise NotImplementedError) /\
  (forall L L' out out' e,
     save_attempt ext L out = (L', out', Raise e) ->
     (forall msg, e <> ValueError msg) -> (forall msg, e <> TypeError msg) ->
     try_save ext L out = Raise e) /\
  (forall trial n L out L3,
     checkpoint_due (Z.of_nat trial) (ntrials a) = true ->
     trial_compute ext fuel a bs L = Some (Ok L3) ->
     (paramfile L = None ->
      run_from ext fuel a bs trial (S n) (L, out) =
      run_from ext fuel a bs (S trial) n
        (decay a L3, printed trial out ++ [failed_line concat_None_msg])) /\
     (forall f, paramfile L = Some f ->
      run_from ext fuel a bs trial (S n) (L, out) = Some (Raise NotImplementedError))).
Proof.
  split; [|split; [|split; [|split]]].
  - intros L L' out out' msg. apply try_save_catches.
  - intros L out. apply try_save_without_paramfile.
  - intros L out f. apply try_save_with_paramfile.
  - intros L L' out out' e Hs Hv Ht. unfold try_save. rewrite Hs.
    destruct e as [msg|msg|msg|msg|]; try reflexivity.
    + elim (Hv msg). reflexivity.
    + elim (Ht msg). reflexivity.
  - intros trial n L out L3 Hdue Hcomp.
    pose proof (trial_compute_paramfile _ _ _ _ Hcomp) as Hpf.
    split.
    + intros Hnone. rewrite Hnone in Hpf. simpl.
      rewrite Hcomp, Hdue.
      rewrite (try_save_without_paramfile _ _ Hpf). reflexivity.
    + intros f Hsome. rewrite Hsome in Hpf. simpl.
      rewrite Hcomp, Hdue.
      rewrite (try_save_with_paramfile _ _ Hpf). reflexivity.
Qed.
End Checkpoint.

(** C9, as stated, fails: an LCALearner with a [paramfile], run for two
    trials, attempts a checkpoint at the last trial; [save] calls
    [get_param_list], the NotImplementedError is not caught, and [run]
    ends with it. *)
Lemma unimplemented_hook_ends_run :
  let L := Examples.learner1 LCALearner_class 1%float 0%float (Some "dict.pickle"%string)
             [[1%float]] (Examples.params1 1%float 0.5%float false) in
  checkpoint_due 1 (ntrials Examples.two_trials) = true /\
  run Examples.no_externals 1 L Examples.two_trials [] = Some (Raise NotImplementedError).
Proof. vm_compute. split; reflexivity. Qed.

(** Without a [paramfile] the attempt is caught and a line is printed. *)
Lemma checkpoint_failures_witness :
  let L := Examples.learner1 LCALearner_class 1%float 0%float None
             [[1%float]] (Examples.params1 1%float 0.5%float false) in
  try_save Examples.no_externals L [] = Ok (L, [failed_line concat_None_msg]).
Proof.
  intros L.
  exact (proj1 (proj2 (@checkpoint_failures _ _ Examples.no_externals 1
                         Examples.two_trials 1%Z)) L [] eq_refl).
Defined.

(** ** What a run leaves behind *)

Section RunFacts.
Context {F : Type} {SF : Scalar F}.
Variable ext : Externals (F:=F).

(** What a returning call of [store_statistics] did. *)
Lemma store_statistics_inv (L L' : Learner (F:=F)) (acts : matrix F) (e : F)
    (bs : option Z) (center : bool) :
  store_statistics L acts e bs center = Ok L' ->
  exists ave,
    L' = set_stats L
           {| corrmatrix_ave := ave;
              L0hist := L0hist (stats L) ++ [mmean (map (map nonzero) acts)];
              L1hist := L1hist (stats L) ++ [mmean (map (map fabs) acts)];
              L2hist := L2hist (stats L) ++ [mmean (mmul acts acts)];
              L0acts := moving_avg (moving_avg_rate L) (L0acts (stats L))
                          (map vmean (map (map nonzero) acts));
              L1acts := moving_avg (moving_avg_rate L) (L1acts (stats L))
                          (map vmean (map (map fabs) acts));
              L2acts := moving_avg (moving_avg_rate L) (L2acts (stats L))
                          (map vmean (mmul acts acts));
              errorhist := errorhist (stats L) ++ [e];
              meanacts := moving_avg (moving_avg_rate L) (meanacts (stats L))
                            (map vmean acts) |} /\
    (if fastmode L then ave = corrmatrix_ave (stats L)
     else corr_update (moving_avg_rate L) (corrmatrix_ave (stats L))
            (corrmatrix_of L acts (or_Z bs (batch_size L)) center) = Ok ave).
Proof.
  unfold store_statistics. destruct (fastmode L).
  - intros E; injection E as <-. eexists. split; reflexivity.
  - destruct (corr_update _ _ _) as [ave|x] eqn:Ec; simpl; [|discriminate].
    intros E; injection E as <-. exists ave. split; reflexivity.
Qed.

(** What a returning pass through the first half of a trial did. *)
Lemma trial_compute_inv (fuel : nat) (a : run_args) (bs : Z) (L L3 : Learner (F:=F)) :
  trial_compute ext fuel a bs L = Some (Ok L3) ->
  exists acts u th,
    let X := fst (rand_stim (stims L) bs) in
    let L1 := set_stims L (snd (rand_stim (stims L) bs)) in
    infer ext fuel L1 X = Some (Ok (acts, u, th)) /\
    store_statistics (fst (learn L1 X acts (normalize a))) acts
      (snd (learn L1 X acts (normalize a))) (Some bs) true = Ok L3.
Proof.
  unfold trial_compute. simpl.
  destruct (infer ext fuel _ _) as [[[[acts u] th]|e]|] eqn:Einf; try discriminate.
  intros E; injection E as E. exists acts, u, th. split; [reflexivity | exact E].
Qed.

(** A checkpoint that lets the loop go on found no [paramfile] and changed
    nothing but the output. *)
Lemma try_save_Ok (L L' : Learner (F:=F)) (out out' : list string) :
  try_save ext L out = Ok (L', out') ->
  paramfile L = None /\ L' = L /\ out' = out ++ [failed_line concat_None_msg].
Proof.
  destruct (paramfile L) as [f|] eqn:Epf.
  - rewrite (try_save_with_paramfile ext _ _ Epf). discriminate.
  - rewrite (try_save_without_paramfile ext _ _ Epf).
    intros E; injection E as <- <-. repeat split.
Qed.

(** What a returning pass through the body of the trial loop did. *)
Lemma trial_body_inv (fuel : nat) (a : run_args) (bs : Z) (trial : nat)
    (L L' : Learner (F:=F)) (out out' : list string) :
  trial_body ext fuel a bs trial (L, out) = Some (Ok (L', out')) ->
  exists L3,
    trial_compute ext fuel a bs L = Some (Ok L3) /\
    L' = decay a L3 /\
    (checkpoint_due (Z.of_nat trial) (ntrials a) = true -> paramfile L3 = None).
Proof.
  unfold trial_body.
  destruct (trial_compute ext fuel a bs L) as [[L3|e]|] eqn:Ec; try discriminate.
  destruct (checkpoint_due (Z.of_nat trial) (ntrials a)).
  - destruct (try_save ext L3 (printed trial out)) as [[L4 out4]|e] eqn:Es;
      simpl; [|discriminate].
    apply try_save_Ok in Es. destruct Es as (Hpf & -> & _).
    intros E; injection E as <- _. exists L3. repeat split. intros _. exact Hpf.
  - simpl. intros E; injection E as <- _. exists L3. repeat split. discriminate.
Qed.

(** An invariant of the passes through the body is kept by the loop. *)
Lemma run_from_inv (Inv : nat -> Learner (F:=F) -> Prop) (fuel : nat) (a : run_args)
    (bs : Z) :
  (forall t L out L' out',
     Inv t L -> trial_body ext fuel a bs t (L, out) = Some (Ok (L', out')) ->
     Inv (S t) L') ->
  forall n t0 L out L' out',
    Inv t0 L ->
    run_from ext fuel a bs t0 n (L, out) = Some (Ok (L', out')) ->
    Inv (t0 + n) L'.
Proof.
  intros Hstep. induction n as [|n IH]; intros t0 L out L' out' H0 Hr;
    cbn [run_from] in Hr.
  - injection Hr as <- _. rewrite Nat.add_0_r. exact H0.
  - destruct (trial_body ext fuel a bs t0 (L, out)) as [[[L1 out1]|e]|] eqn:Eb;
      try discriminate.
    replace (t0 + S n) with (S t0 + n) by lia.
    eapply IH; [|exact Hr]. eapply Hstep; eassumption.
Qed.

Lemma decay_frame (a : run_args) (L : Learner (F:=F)) :
  Q (decay a L) = Q L /\ stats (decay a L) = stats L /\ lca (decay a L) = lca L /\
  cls (decay a L) = cls L /\ stims (decay a L) = stims L /\
  paramfile (decay a L) = paramfile L /\ fastmode (decay a L) = fastmode L /\
  moving_avg_rate (decay a L) = moving_avg_rate L /\ batch_size (decay a L) = batch_size L.
Proof.
  unfold decay. destruct (rate_decay a); [|repeat split; reflexivity].
  unfold adjust_rates. destruct (cls L) eqn:E; simpl; rewrite E; repeat split; reflexivity.
Qed.
End RunFacts.

Section RunProperties.
Context {F : Type} {SF : Scalar F}.
Variable ext : Externals (F:=F).

(** The first half of a trial changes the dictionary, the statistics and
    the stimulus source, and nothing else. *)
Lemma trial_compute_frame (fuel : nat) (a : run_args) (bs : Z) (L L3 : Learner (F:=F)) :
  trial_compute ext fuel a bs L = Some (Ok L3) ->
  learnrate L3 = learnrate L /\ theta L3 = theta L /\ cls L3 = cls L /\
  lca L3 = lca L /\ fastmode L3 = fastmode L /\
  moving_avg_rate L3 = moving_avg_rate L /\ batch_size L3 = batch_size L /\
  nunits L3 = nunits L /\ stims L3 = snd (rand_stim (stims L) bs).
Proof.
  intros Hc. apply trial_compute_inv in Hc. destruct Hc as (acts & u & th & _ & Hst).
  apply store_statistics_inv in Hst. destruct Hst as (ave & -> & _).
  repeat split; reflexivity.
Qed.

(** X1: a call of [run] that returns has appended one entry per trial to
    each of the four histories [errorhist], [L0hist], [L1hist] and
    [L2hist], after the entries they held before, and has drawn one batch
    per trial from the stimulus source. *)
Theorem run_appends_histories (fuel : nat) (L L' : Learner (F:=F)) (a : run_args)
    (out out' : list string) :
  run ext fuel L a out = Some (Ok (L', out')) ->
  let n := Z.to_nat (ntrials a) in
  (exists es, errorhist (stats L') = errorhist (stats L) ++ es /\ length es = n) /\
  (exists es, L0hist (stats L') = L0hist (stats L) ++ es /\ length es = n) /\
  (exists es, L1hist (stats L') = L1hist (stats L) ++ es /\ length es = n) /\
  (exists es, L2hist (stats L') = L2hist (stats L) ++ es /\ length es = n) /\
  stim_draws (stims L') = stim_draws (stims L) + n.
Proof.
  intros Hrun n. unfold run in Hrun.
  pose (Inv := fun (t : nat) (M : Learner (F:=F)) =>
    (exists es, errorhist (stats M) = errorhist (stats L) ++ es /\ length es = t) /\
    (exists es, L0hist (stats M) = L0hist (stats L) ++ es /\ length es = t) /\
    (exists es, L1hist (stats M) = L1hist (stats L) ++ es /\ length es = t) /\
    (exists es, L2hist (stats M) = L2hist (stats L) ++ es /\ length es = t) /\
    stim_draws (stims M) = stim_draws (stims L) + t).
  refine (@run_from_inv _ _ ext Inv fuel a _ _ n 0 L out L' out' _ Hrun).
  - intros t M o M' o' (He & H0 & H1 & H2 & Hd) Hb.
    apply trial_body_inv in Hb. destruct Hb as (L3 & Hc & -> & _).
    apply trial_compute_inv in Hc. destruct Hc as (acts & u & th & _ & Hst).
    apply store_statistics_inv in Hst. destruct Hst as (ave & HL3 & _).
    destruct (decay_frame a L3) as (_ & Hs & _ & _ & Hsm & _).
    unfold Inv. rewrite Hs, Hsm, HL3. simpl.
    destruct He as (es & -> & Hes). destruct H0 as (e0 & -> & He0).
    destruct H1 as (e1 & -> & He1). destruct H2 as (e2 & -> & He2).
    repeat split.
    + eexists. rewrite <- app_assoc. split; [reflexivity|]. rewrite length_app. simpl. lia.
    + eexists. rewrite <- app_assoc. split; [reflexivity|]. rewrite length_app. simpl. lia.
    + eexists. rewrite <- app_assoc. split; [reflexivity|]. rewrite length_app. simpl. lia.
    + eexists. rewrite <- app_assoc. split; [reflexivity|]. rewrite length_app. simpl. lia.
    + lia.
  - unfold Inv. repeat split; try (exists []; rewrite app_nil_r; split; reflexivity). lia.
Qed.

(** X2: a call of [run] with a [rate_decay] that returns has multiplied
    [learnrate] by the factor once per trial; on an LCALearner [theta] is
    what it was.  Without [rate_decay] both rates are unchanged.  The
    inference parameters and the class are unchanged in every case. *)
Theorem run_decays_learnrate (fuel : nat) (L L' : Learner (F:=F)) (a : run_args)
    (out out' : list string) :
  run ext fuel L a out = Some (Ok (L', out')) ->
  let n := Z.to_nat (ntrials a) in
  match rate_decay a with
  | Some factor =>
      learnrate L' = Nat.iter n (fmul factor) (learnrate L) /\
      (cls L = LCALearner_class -> theta L' = theta L)
  | None => learnrate L' = learnrate L /\ theta L' = theta L
  end /\
  lca L' = lca L /\ cls L' = cls L.
Proof.
  intros Hrun n. unfold run in Hrun.
  pose (Inv := fun (t : nat) (M : Learner (F:=F)) =>
    match rate_decay a with
    | Some factor =>
        learnrate M = Nat.iter t (fmul factor) (learnrate L) /\
        (cls L = LCALearner_class -> theta M = theta L)
    | None => learnrate M = learnrate L /\ theta M = theta L
    end /\
    lca M = lca L /\ cls M = cls L).
  refine (@run_from_inv _ _ ext Inv fuel a _ _ n 0 L out L' out' _ Hrun).
  - intros t M o M' o' (Hr & Hl & Hk) Hb.
    apply trial_body_inv in Hb. destruct Hb as (L3 & Hc & -> & _).
    apply trial_compute_frame in Hc. destruct Hc as (Hlr & Hth & Hcl & Hlca & _).
    destruct (decay_frame a L3) as (_ & _ & Hdl & Hdc & _).
    unfold Inv. rewrite Hdl, Hdc, Hlca, Hcl. split; [|split; assumption].
    unfold decay. destruct (rate_decay a) as [factor|].
    + destruct Hr as [Hr1 Hr2]. unfold adjust_rates. rewrite Hcl, Hk. split.
      * destruct (cls L); simpl; rewrite Hlr, Hr1; reflexivity.
      * intros E. rewrite E. simpl. rewrite Hth. exact (Hr2 E).
    + rewrite Hlr, Hth. exact Hr.
  - unfold Inv. destruct (rate_decay a); repeat split; reflexivity.
Qed.

(** X3: on a learner with a [paramfile], a call of [run] for two trials or
    more never returns: the last trial attempts a checkpoint, [save] calls
    the hook [get_param_list], and the NotImplementedError is not among the
    exceptions the loop catches (an earlier trial may have raised before). *)
Theorem run_with_paramfile_never_returns (fuel : nat) (L : Learner (F:=F)) (a : run_args)
    (out : list string) (f : string) :
  paramfile L = Some f ->
  (2 <= ntrials a)%Z ->
  forall L' out', run ext fuel L a out <> Some (Ok (L', out')).
Proof.
  intros Hpf Hn L' out' Hrun. unfold run in Hrun.
  pose (Inv := fun (t : nat) (M : Learner (F:=F)) =>
    paramfile M = Some f /\ t < Z.to_nat (ntrials a)).
  assert (HI : Inv (0 + Z.to_nat (ntrials a)) L').
  { refine (@run_from_inv _ _ ext Inv fuel a _ _ _ 0 L out L' out' _ Hrun).
    - intros t M o M' o' (Hp & Ht) Hb.
      apply trial_body_inv in Hb. destruct Hb as (L3 & Hc & -> & Hdue).
      pose proof Hc as Hp3. apply trial_compute_paramfile in Hp3.
      destruct (decay_frame a L3) as (_ & _ & _ & _ & _ & Hdp & _).
      unfold Inv. rewrite Hdp, Hp3. split; [exact Hp|].
      destruct (Nat.eq_dec (S t) (Z.to_nat (ntrials a))) as [E|E]; [|lia].
      exfalso. rewrite Hp3, Hp in Hdue.
      assert (Hd : checkpoint_due (Z.of_nat t) (ntrials a) = true).
      { unfold checkpoint_due.
        replace (Z.of_nat t + 1 =? ntrials a)%Z with true by (symmetry; apply Z.eqb_eq; lia).
        replace (Z.of_nat t =? 0)%Z with false by (symmetry; apply Z.eqb_neq; lia).
        rewrite orb_true_r. reflexivity. }
      specialize (Hdue Hd). discriminate.
    - unfold Inv. split; [exact Hpf | lia]. }
  destruct HI as [_ HI]. lia.
Qed.

(** X4: the abstract [DictLearner] cannot be trained or sorted by usage:
    [run] with at least one trial and [sort_dict] call [self.infer(X)] with
    one argument, which the two-parameter [infer] of the base class refuses
    with a TypeError.  With no trial to run, [run] returns at once and
    changes nothing. *)
Theorem abstract_learner_cannot_infer (fuel : nat) (L : Learner (F:=F)) (a : run_args)
    (out : list string) :
  cls L = DictLearner_class ->
  ((0 < ntrials a)%Z ->
   exists msg, run ext fuel L a out = Some (Raise (TypeError msg))) /\
  ((ntrials a <= 0)%Z -> run ext fuel L a out = Some (Ok (L, out))) /\
  (forall bs allstims,
     exists msg, sort_dict ext fuel L bs allstims = Some (Raise (TypeError msg))).
Proof.
  intros Hcls. split; [|split].
  - intros Hn. unfold run.
    destruct (Z.to_nat (ntrials a)) as [|n] eqn:En; [lia|].
    cbn [run_from]. unfold trial_body, trial_compute, infer. simpl. rewrite Hcls.
    eexists. reflexivity.
  - intros Hn. unfold run. replace (Z.to_nat (ntrials a)) with 0 by lia. reflexivity.
  - intros bs allstims. unfold sort_dict, infer.
    destruct allstims; simpl; rewrite Hcls; eexists; reflexivity.
Qed.
End RunProperties.

(** Two trials of a one-unit learner without a [paramfile]: two entries in
    each history, two batches drawn. *)
Lemma run_appends_histories_witness :
  let L := Examples.learner1 LCALearner_class 1%float 0%float None
             [[1%float]] (Examples.params1 1%float 0.5%float false) in
  exists L' out',
    run Examples.no_externals 1 L Examples.two_trials [] = Some (Ok (L', out')) /\
    (exists es, errorhist (stats L') = errorhist (stats L) ++ es /\ length es = 2) /\
    stim_draws (stims L') = stim_draws (stims L) + 2.
Proof.
  intros L.
  destruct (run Examples.no_externals 1 L Examples.two_trials [])
    as [[[L' out']|e]|] eqn:E;
    [|vm_compute in E; discriminate|vm_compute in E; discriminate].
  exists L', out'. split; [reflexivity|].
  pose proof (@run_appends_histories _ _ Examples.no_externals 1 L L'
                Examples.two_trials [] out' E) as H.
  split; [exact (proj1 H) | exact (proj2 (proj2 (proj2 (proj2 H))))].
Defined.

(** Two trials with [rate_decay = 0.5]: the learning rate 1 ends as 0.25,
    [theta] is untouched. *)
Lemma run_decays_learnrate_witness :
  let L := Examples.learner1 LCALearner_class 1%float 0.25%float None
             [[1%float]] (Examples.params1 1%float 0.5%float false) in
  exists L' out',
    run Examples.no_externals 1 L Examples.two_trials [] = Some (Ok (L', out')) /\
    learnrate L' = (0.5 * (0.5 * 1))%float /\ theta L' = 0.25%float.
Proof.
  intros L.
  destruct (run Examples.no_externals 1 L Examples.two_trials [])
    as [[[L' out']|e]|] eqn:E;
    [|vm_compute in E; discriminate|vm_compute in E; discriminate].
  exists L', out'. split; [reflexivity|].
  pose proof (@run_decays_learnrate _ _ Examples.no_externals 1 L L'
                Examples.two_trials [] out' E) as H.
  simpl in H. destruct H as [[H1 H2] _]. split; [exact H1 | exact (H2 eq_refl)].
Defined.

(** With a [paramfile], two trials do not complete. *)
Lemma run_with_paramfile_never_returns_witness :
  let L := Examples.learner1 LCALearner_class 1%float 0%float (Some "dict.pickle"%string)
             [[1%float]] (Examples.params1 1%float 0.5%float false) in
  run Examples.no_externals 1 L Examples.two_trials [] <> Some (Ok (L, [])).
Proof.
  intros L.
  apply (@run_with_paramfile_never_returns _ _ Examples.no_externals 1 L
           Examples.two_trials [] "dict.pickle"%string).
  - reflexivity.
  - simpl. lia.
Defined.

(** A plain [DictLearner] asked for two trials. *)
Lemma abstract_learner_cannot_infer_witness :
  let L := Examples.learner1 DictLearner_class 1%float 0%float None
             [[1%float]] (Examples.params1 1%float 0.5%float false) in
  exists msg,
    run Examples.no_externals 1 L Examples.two_trials [] = Some (Raise (TypeError msg)).
Proof.
  intros L.
  apply (proj1 (@abstract_learner_cannot_infer _ _ Examples.no_externals 1 L
                  Examples.two_trials [] eq_refl)).
  simpl. lia.
Defined.

(** ** Sorting: alignment, failures, order *)

Section SortProperties.
Context {F : Type} {SF : Scalar F}.

(** What fancy indexing returns, and when. *)
Lemma take_Ok_nth {A : Type} (xs : list A) (sorter : list nat) :
  forall ys, take xs sorter = Ok ys ->
  length ys = length sorter /\
  Forall (fun k => k < length xs) sorter /\
  forall k, k < length sorter -> nth_error ys k = nth_error xs (nth k sorter 0).
Proof.
  induction sorter as [|j js IH]; intros ys H; simpl in H.
  - injection H as <-. repeat split; [constructor | intros k Hk; inversion Hk].
  - destruct (nth_error xs j) as [x|] eqn:Ex; [|discriminate].
    destruct (take xs js) as [rest|e]; simpl in H; [|discriminate].
    injection H as <-. destruct (IH rest eq_refl) as (Hl & Hf & Hn).
    split; [simpl; congruence|]. split.
    + constructor; [|exact Hf]. apply nth_error_Some. congruence.
    + intros [|k] Hk; simpl; [symmetry; exact Ex|]. apply Hn. simpl in Hk. lia.
Qed.

Lemma take_Raise {A : Type} (xs : list A) (sorter : list nat) (e : exn) :
  take xs sorter = Raise e -> e = IndexError "index out of bounds"%string.
Proof.
  induction sorter as [|j js IH]; simpl; [discriminate|].
  destruct (nth_error xs j); [|intros E; injection E as <-; reflexivity].
  destruct (take xs js); simpl; [discriminate|].
  intros E; injection E as <-. apply IH. reflexivity.
Qed.

Lemma take_pairs_Ok_iff (m : matrix F) (sorter : list nat) :
  (exists d, take_pairs m sorter = Ok d) <->
  Forall (fun k => k < length m /\ k < length (nth k m [])) sorter.
Proof.
  induction sorter as [|j js IH]; simpl.
  - split; [constructor | exists []; reflexivity].
  - split.
    + intros [d H]. destruct (nth_error m j) as [row|] eqn:Er; [|discriminate].
      destruct (nth_error row j) as [x|] eqn:Ex; [|discriminate].
      destruct (take_pairs m js) as [rest|e]; simpl in H; [|discriminate].
      constructor; [|apply IH; exists rest; reflexivity].
      assert (Hj : j < length m) by (apply nth_error_Some; congruence).
      split; [exact Hj|].
      rewrite (nth_error_nth' m [] Hj) in Er. injection Er as ->.
      apply nth_error_Some. congruence.
    + intros H. inversion H as [|? ? [Hj Hr] Hjs]; subst.
      rewrite (nth_error_nth' m [] Hj), (nth_error_nth' _ fzero Hr).
      apply IH in Hjs. destruct Hjs as [d ->]. simpl. eexists. reflexivity.
Qed.

Lemma take_pairs_Raise (m : matrix F) (sorter : list nat) (e : exn) :
  take_pairs m sorter = Raise e -> e = IndexError "index out of bounds"%string.
Proof.
  induction sorter as [|j js IH]; simpl; [discriminate|].
  destruct (nth_error m j) as [row|]; [|intros E; injection E as <-; reflexivity].
  destruct (nth_error row j); [|intros E; injection E as <-; reflexivity].
  destruct (take_pairs m js); simpl; [discriminate|].
  intros E; injection E as <-. apply IH. reflexivity.
Qed.

Lemma take_Ok_iff {A : Type} (xs : list A) (sorter : list nat) :
  (exists ys, take xs sorter = Ok ys) <-> Forall (fun k => k < length xs) sorter.
Proof.
  split.
  - intros [ys H]. apply take_Ok_nth in H. apply H.
  - intros H. destruct xs as [|d xs'].
    + destruct sorter as [|k ks]; [exists []; reflexivity|].
      inversion H as [|? ? Hk _]. inversion Hk.
    + eexists. apply (take_ok (d :: xs') d H).
Qed.

(** What a returning call of [sort] went through. *)
Lemma sort_inv (L L' : Learner (F:=F)) (usages : vec F) (sorter : list nat) :
  sort L usages sorter = Ok L' ->
  exists q l0 l1 l2 ma m d,
    take (Q L) sorter = Ok q /\
    take (L0acts (stats L)) sorter = Ok l0 /\
    take (L1acts (stats L)) sorter = Ok l1 /\
    take (L2acts (stats L)) sorter = Ok l2 /\
    take (meanacts (stats L)) sorter = Ok ma /\
    corrmatrix_ave (stats L) = Arr2 m /\ take_pairs m sorter = Ok d /\
    L' = set_stats (set_Q L q)
           {| corrmatrix_ave := Arr1 d;
              L0hist := L0hist (stats L); L1hist := L1hist (stats L);
              L2hist := L2hist (stats L);
              L0acts := l0; L1acts := l1; L2acts := l2;
              errorhist := errorhist (stats L); meanacts := ma |}.
Proof.
  unfold sort.
  destruct (take (Q L) sorter) as [q|e]; simpl; [|discriminate].
  destruct (take (L0acts (stats L)) sorter) as [l0|e]; simpl; [|discriminate].
  destruct (take (L1acts (stats L)) sorter) as [l1|e]; simpl; [|discriminate].
  destruct (take (L2acts (stats L)) sorter) as [l2|e]; simpl; [|discriminate].
  destruct (take (meanacts (stats L)) sorter) as [ma|e]; simpl; [|discriminate].
  destruct (corrmatrix_ave (stats L)) as [v|m]; simpl; [discriminate|].
  destruct (take_pairs m sorter) as [d|e] eqn:Ed; simpl; [|discriminate].
  intros E; injection E as <-. exists q, l0, l1, l2, ma, m, d.
  repeat split; try reflexivity. exact Ed.
Qed.

(** [sort] raises nothing but IndexError. *)
Lemma sort_Raise (L : Learner (F:=F)) (usages : vec F) (sorter : list nat) (e : exn) :
  sort L usages sorter = Raise e -> exists msg, e = IndexError msg.
Proof.
  unfold sort.
  destruct (take (Q L) sorter) as [q|e0] eqn:E0; simpl;
    [|intros E; injection E as <-; apply take_Raise in E0; eexists; exact E0].
  destruct (take (L0acts (stats L)) sorter) as [l0|e1] eqn:E1; simpl;
    [|intros E; injection E as <-; apply take_Raise in E1; eexists; exact E1].
  destruct (take (L1acts (stats L)) sorter) as [l1|e2] eqn:E2; simpl;
    [|intros E; injection E as <-; apply take_Raise in E2; eexists; exact E2].
  destruct (take (L2acts (stats L)) sorter) as [l2|e3] eqn:E3; simpl;
    [|intros E; injection E as <-; apply take_Raise in E3; eexists; exact E3].
  destruct (take (meanacts (stats L)) sorter) as [ma|e4] eqn:E4; simpl;
    [|intros E; injection E as <-; apply take_Raise in E4; eexists; exact E4].
  destruct (corrmatrix_ave (stats L)) as [v|m]; simpl;
    [intros E; injection E as <-; eexists; reflexivity|].
  destruct (take_pairs m sorter) as [d|e5] eqn:E5; simpl; [discriminate|].
  intros E; injection E as <-. apply take_pairs_Raise in E5. eexists; exact E5.
Qed.

(** X5: a call of [sort] that returns keeps the units together: row k of
    the new dictionary is row sorter[k] of the old one, and entry k of
    each of [L0acts], [L1acts], [L2acts] and [meanacts] is the old entry
    sorter[k].  The four histories, the rates and the inference parameters
    are unchanged. *)
Theorem sort_keeps_units_aligned (L L' : Learner (F:=F)) (usages : vec F)
    (sorter : list nat) :
  sort L usages sorter = Ok L' ->
  length (Q L') = length sorter /\
  (forall k, k < length sorter ->
     nth_error (Q L') k = nth_error (Q L) (nth k sorter 0) /\
     nth_error (L0acts (stats L')) k = nth_error (L0acts (stats L)) (nth k sorter 0) /\
     nth_error (L1acts (stats L')) k = nth_error (L1acts (stats L)) (nth k sorter 0) /\
     nth_error (L2acts (stats L')) k = nth_error (L2acts (stats L)) (nth k sorter 0) /\
     nth_error (meanacts (stats L')) k = nth_error (meanacts (stats L)) (nth k sorter 0)) /\
  errorhist (stats L') = errorhist (stats L) /\
  L0hist (stats L') = L0hist (stats L) /\
  L1hist (stats L') = L1hist (stats L) /\
  L2hist (stats L') = L2hist (stats L) /\
  learnrate L' = learnrate L /\ theta L' = theta L /\ lca L' = lca L.
Proof.
  intros H. apply sort_inv in H.
  destruct H as (q & l0 & l1 & l2 & ma & m & d & Hq & H0 & H1 & H2 & Hma & _ & _ & ->).
  apply take_Ok_nth in Hq, H0, H1, H2, Hma. simpl.
  split; [apply Hq|]. split; [|repeat split; reflexivity].
  intros k Hk. repeat split.
  - apply Hq; exact Hk.
  - apply H0; exact Hk.
  - apply H1; exact Hk.
  - apply H2; exact Hk.
  - apply Hma; exact Hk.
Qed.

(** X6: [sort] returns exactly when [corrmatrix_ave] is a rank-2 array and
    every index of [sorter] is within the dictionary, the four per-unit
    statistics and both axes of [corrmatrix_ave]; in every other case it
    raises IndexError, and nothing else. *)
Theorem sort_returns_iff (L : Learner (F:=F)) (usages : vec F) (sorter : list nat) :
  ((exists L', sort L usages sorter = Ok L') <->
   (Forall (fun k => k < length (Q L)) sorter /\
    Forall (fun k => k < length (L0acts (stats L))) sorter /\
    Forall (fun k => k < length (L1acts (stats L))) sorter /\
    Forall (fun k => k < length (L2acts (stats L))) sorter /\
    Forall (fun k => k < length (meanacts (stats L))) sorter /\
    exists m, corrmatrix_ave (stats L) = Arr2 m /\
              Forall (fun k => k < length m /\ k < length (nth k m [])) sorter)) /\
  (forall e, sort L usages sorter = Raise e -> exists msg, e = IndexError msg).
Proof.
  split; [|intros e; apply sort_Raise].
  split.
  - intros [L' H]. apply sort_inv in H.
    destruct H as (q & l0 & l1 & l2 & ma & m & d & Hq & H0 & H1 & H2 & Hma & Hc & Hd & _).
    repeat split.
    + apply take_Ok_iff. exists q; exact Hq.
    + apply take_Ok_iff. exists l0; exact H0.
    + apply take_Ok_iff. exists l1; exact H1.
    + apply take_Ok_iff. exists l2; exact H2.
    + apply take_Ok_iff. exists ma; exact Hma.
    + exists m. split; [exact Hc|]. apply take_pairs_Ok_iff. exists d; exact Hd.
  - intros (Hq & H0 & H1 & H2 & Hma & m & Hc & Hd).
    apply take_Ok_iff in Hq, H0, H1, H2, Hma. apply take_pairs_Ok_iff in Hd.
    destruct Hq as [q Hq]. destruct H0 as [l0 H0]. destruct H1 as [l1 H1].
    destruct H2 as [l2 H2]. destruct Hma as [ma Hma]. destruct Hd as [d Hd].
    unfold sort. rewrite Hq, H0, H1, H2, Hma, Hc. simpl. rewrite Hd. simpl.
    eexists. reflexivity.
Qed.

(** X7: sorting cannot be repeated.  After a call of [sort] that returned,
    every further call of [sort], with whatever arguments, and every call
    of [fast_sort] raises IndexError: [corrmatrix_ave] is then a rank-1
    array and is indexed with two indices. *)
Theorem sort_is_not_repeatable (L L' : Learner (F:=F)) (usages : vec F)
    (sorter : list nat) :
  sort L usages sorter = Ok L' ->
  (forall usages' sorter', exists msg, sort L' usages' sorter' = Raise (IndexError msg)) /\
  (forall useL1, exists msg, fast_sort L' useL1 = Raise (IndexError msg)).
Proof.
  intros H. apply sort_inv in H.
  destruct H as (q & l0 & l1 & l2 & ma & m & d & _ & _ & _ & _ & _ & _ & _ & HL').
  assert (Hc : exists v, corrmatrix_ave (stats L') = Arr1 v)
    by (exists d; rewrite HL'; reflexivity).
  clear HL'. destruct Hc as [v Hc].
  assert (Hs : forall usages' sorter',
             exists msg, sort L' usages' sorter' = Raise (IndexError msg)).
  { intros usages' sorter'.
    destruct (sort L' usages' sorter') as [L2|e] eqn:E.
    - apply sort_inv in E.
      destruct E as (? & ? & ? & ? & ? & m' & ? & _ & _ & _ & _ & _ & Hc' & _).
      rewrite Hc in Hc'. discriminate.
    - apply sort_Raise in E. destruct E as [msg ->]. exists msg. reflexivity. }
  split; [exact Hs|].
  intros useL1. unfold fast_sort.
  destruct (Hs (if useL1 then L1acts (stats L') else L0acts (stats L'))
               (argsort (if useL1 then L1acts (stats L') else L0acts (stats L'))))
    as [msg ->].
  exists msg. reflexivity.
Qed.
End SortProperties.

(** Two units sorted by [1, 0]: the rows and the averages are swapped
    together. *)
Lemma sort_keeps_units_aligned_witness :
  let L := Examples.two_units DictLearner_class in
  exists L',
    sort L [0.75; 0.25]%float [1; 0] = Ok L' /\
    nth_error (Q L') 0 = nth_error (Q L) 1 /\
    nth_error (L0acts (stats L')) 0 = nth_error (L0acts (stats L)) 1.
Proof.
  intros L.
  destruct (sort L [0.75; 0.25]%float [1; 0]) as [L'|e] eqn:E;
    [|vm_compute in E; discriminate].
  exists L'. split; [reflexivity|].
  pose proof (proj1 (proj2 (sort_keeps_units_aligned L _ _ E)) 0) as H.
  simpl in H. specialize (H (Nat.lt_0_succ 1)). split; apply H.
Defined.

(** After that sort, a sort with no index at all still fails. *)
Lemma sort_is_not_repeatable_witness :
  let L := Examples.two_units DictLearner_class in
  exists L' msg,
    sort L [0.75; 0.25]%float [1; 0] = Ok L' /\
    sort L' [] [] = Raise (IndexError msg).
Proof.
  intros L.
  destruct (sort L [0.75; 0.25]%float [1; 0]) as [L'|e] eqn:E;
    [|vm_compute in E; discriminate].
  destruct (proj1 (sort_is_not_repeatable L _ _ E) [] []) as [msg H].
  exists L', msg. split; [reflexivity | exact H].
Defined.

Section SortedUsages.
Local Open Scope R_scope.
Variable v : vec R.





End SortedUsages.

Section SortedUsagesReturned.
Local Open Scope R_scope.

End SortedUsagesReturned.

(** ** The shapes of the statistics and of the dictionary *)

Section StatsShapes.
Context {F : Type} {SF : Scalar F}.

Lemma length_moving_avg (rate : F) (old new : vec F) (N : nat) :
  length old = N -> length new = N -> length (moving_avg rate old new) = N.
Proof.
  intros Ho Hn. unfold moving_avg, vadd, vscale.
  rewrite length_map2, !length_map, Ho, Hn. apply Nat.min_id.
Qed.

Lemma shape_ok_mdiv (m : matrix F) (d : F) (r c : nat) :
  shape_ok r c m -> shape_ok r c (mdiv m d).
Proof.
  intros [Hl Hf]. split; [unfold mdiv; rewrite length_map; exact Hl|].
  unfold mdiv. apply Forall_map. eapply Forall_impl; [|exact Hf].
  simpl. intros row Hr. rewrite length_map. exact Hr.
Qed.

Lemma shape_ok_corrmatrix_of (L : Learner (F:=F)) (acts : matrix F) (bs : Z)
    (center : bool) (N B : nat) :
  0 < N -> 0 < B -> shape_ok N B acts ->
  shape_ok N N (corrmatrix_of L acts bs center).
Proof.
  intros HN HB Ha. unfold corrmatrix_of. destruct center.
  - apply shape_ok_mdiv.
    assert (Hd : shape_ok N B
              (map2 (fun row m => map (fun x => fsub x m) row) acts (map vmean acts))).
    { destruct Ha as [Hl Hf]. split.
      - rewrite length_map2, length_map. etransitivity; [apply Nat.min_id | exact Hl].
      - apply Forall_map2. intros row m Hin _. rewrite length_map.
        rewrite Forall_forall in Hf. apply Hf. exact Hin. }
    exact (shape_ok_dot Hd (shape_ok_transpose Hd HN) HB).
  - apply shape_ok_mdiv.
    exact (shape_ok_dot Ha (shape_ok_transpose Ha HN) HB).
Qed.

(** The last assignment of [store_statistics] gives an N x N array,
    whether it starts from one or from the rank-1 array a sort left. *)
Lemma corr_update_shape (rate : F) (ave : ndarray F) (corr : matrix F) (N : nat) :
  0 < N -> shape_ok N N corr ->
  (forall m, ave = Arr2 m -> shape_ok N N m) ->
  (forall v, ave = Arr1 v -> length v = N) ->
  exists m', corr_update rate ave corr = Ok (Arr2 m') /\ shape_ok N N m'.
Proof.
  intros HN Hc H2 H1. destruct ave as [v|m]; simpl.
  - rewrite (H1 v eq_refl), (ncols_shape Hc HN), Nat.eqb_refl.
    eexists. split; [reflexivity|].
    pose proof (shape_ok_mscale rate Hc) as [Hl Hf]. split.
    + rewrite length_map. exact Hl.
    + apply Forall_map. eapply Forall_impl; [|exact Hf]. simpl. intros row Hr.
      unfold vadd, vscale. rewrite length_map2, length_map, (H1 v eq_refl), Hr.
      apply Nat.min_id.
  - eexists. split; [reflexivity|].
    apply shape_ok_map2; apply shape_ok_mscale; [apply H2; reflexivity | exact Hc].
Qed.

Lemma length_row_means (f : F -> F) (acts : matrix F) (N B : nat) :
  shape_ok N B acts -> length (map vmean (map (map f) acts)) = N.
Proof. intros [Hl _]. rewrite !length_map. exact Hl. Qed.

(** On activities of one row per unit, [store_statistics] returns, keeps
    the lengths of the per-unit statistics, and leaves an N x N
    correlation matrix unless [fastmode] made it skip that update. *)
Lemma store_statistics_shapes (L : Learner (F:=F)) (acts : matrix F) (e : F)
    (bs : option Z) (center : bool) (N B : nat) :
  0 < N -> 0 < B -> shape_ok N B acts ->
  length (L0acts (stats L)) = N -> length (L1acts (stats L)) = N ->
  length (L2acts (stats L)) = N -> length (meanacts (stats L)) = N ->
  (forall m, corrmatrix_ave (stats L) = Arr2 m -> shape_ok N N m) ->
  (forall v, corrmatrix_ave (stats L) = Arr1 v -> length v = N) ->
  exists L',
    store_statistics L acts e bs center = Ok L' /\
    length (L0acts (stats L')) = N /\ length (L1acts (stats L')) = N /\
    length (L2acts (stats L')) = N /\ length (meanacts (stats L')) = N /\
    (fastmode L = false ->
     exists m', corrmatrix_ave (stats L') = Arr2 m' /\ shape_ok N N m') /\
    (fastmode L = true -> corrmatrix_ave (stats L') = corrmatrix_ave (stats L)) /\
    Q L' = Q L.
Proof.
  intros HN HB Ha H0 H1 H2 Hma Hc2 Hc1.
  assert (Hsq : shape_ok N B (mmul acts acts)) by (apply shape_ok_map2; exact Ha).
  assert (Hl2 : length (map vmean (mmul acts acts)) = N)
    by (rewrite length_map; apply Hsq).
  assert (Hlm : length (map vmean acts) = N) by (rewrite length_map; apply Ha).
  unfold store_statistics. destruct (fastmode L).
  - eexists. split; [reflexivity|]. simpl.
    repeat split; try (intros; discriminate);
      try (apply length_moving_avg; [assumption|]);
      try (apply (length_row_means _ Ha)); assumption.
  - destruct (@corr_update_shape (moving_avg_rate L) (corrmatrix_ave (stats L))
                (corrmatrix_of L acts (or_Z bs (batch_size L)) center) N HN
                (shape_ok_corrmatrix_of L _ center HN HB Ha) Hc2 Hc1)
      as (m' & -> & Hm').
    simpl. eexists. split; [reflexivity|]. simpl.
    repeat split; try (intros; discriminate);
      try (apply length_moving_avg; [assumption|]);
      try (apply (length_row_means _ Ha)); try assumption.
    intros _. exists m'. split; [reflexivity | exact Hm'].
Qed.

Lemma stats_ok_fresh (n : nat) : stats_ok n (fresh_stats n).
Proof.
  unfold stats_ok, fresh_stats. simpl. rewrite !repeat_length.
  repeat split. exists (zeros n n). split; [reflexivity | apply shape_ok_zeros].
Qed.

(** X9: the shapes of the running statistics are an invariant.
    [initialize_stats] refuses a negative [nunits] and otherwise sets four
    per-unit vectors of length [nunits], an [nunits] x [nunits] correlation
    matrix and empty histories.  On activities of one row per unit (N rows,
    B columns, both positive) [store_statistics] never raises and keeps
    these shapes; when a sort has left a rank-1 array of length N in
    [corrmatrix_ave], the update broadcasts it and the attribute is an
    N x N array again, unless [fastmode] skips the update. *)
Theorem stats_shapes_invariant :
  (forall L : Learner (F:=F),
     ((nunits L < 0)%Z -> exists msg, initialize_stats L = Raise (ValueError msg)) /\
     ((0 <= nunits L)%Z ->
      exists L', initialize_stats L = Ok L' /\
        stats_ok (Z.to_nat (nunits L)) (stats L') /\
        errorhist (stats L') = [] /\ L0hist (stats L') = [] /\
        L1hist (stats L') = [] /\ L2hist (stats L') = [] /\
        Q L' = Q L /\ nunits L' = nunits L)) /\
  (forall (L : Learner (F:=F)) acts e bs center N B,
     0 < N -> 0 < B -> shape_ok N B acts ->
     stats_ok N (stats L) ->
     exists L', store_statistics L acts e bs center = Ok L' /\ stats_ok N (stats L')) /\
  (forall (L : Learner (F:=F)) acts e bs center N B v,
     0 < N -> 0 < B -> shape_ok N B acts ->
     length (L0acts (stats L)) = N -> length (L1acts (stats L)) = N ->
     length (L2acts (stats L)) = N -> length (meanacts (stats L)) = N ->
     corrmatrix_ave (stats L) = Arr1 v -> length v = N ->
     fastmode L = false ->
     exists L', store_statistics L acts e bs center = Ok L' /\ stats_ok N (stats L')).
Proof.
  split; [|split].
  - intros L. unfold initialize_stats. split.
    + intros Hn. apply Z.ltb_lt in Hn. rewrite Hn. eexists. reflexivity.
    + intros Hn. apply Z.ltb_ge in Hn. rewrite Hn. eexists. split; [reflexivity|].
      simpl. split; [apply stats_ok_fresh | repeat split].
  - intros L acts e bs center N B HN HB Ha (H0 & H1 & H2 & Hma & m & Hc & Hm).
    destruct (@store_statistics_shapes L acts e bs center N B HN HB Ha H0 H1 H2 Hma)
      as (L' & Hs & H0' & H1' & H2' & Hma' & Hf & Ht & _).
    + intros m0 E. rewrite Hc in E. injection E as <-. exact Hm.
    + intros v E. rewrite Hc in E. discriminate.
    + exists L'. split; [exact Hs|]. repeat split; try assumption.
      destruct (fastmode L).
      * exists m. split; [rewrite (Ht eq_refl); exact Hc | exact Hm].
      * apply Hf. reflexivity.
  - intros L acts e bs center N B v HN HB Ha H0 H1 H2 Hma Hc Hv Hfast.
    destruct (@store_statistics_shapes L acts e bs center N B HN HB Ha H0 H1 H2 Hma)
      as (L' & Hs & H0' & H1' & H2' & Hma' & Hf & _).
    + intros m0 E. rewrite Hc in E. discriminate.
    + intros v0 E. rewrite Hc in E. injection E as <-. exact Hv.
    + exists L'. split; [exact Hs|]. repeat split; try assumption.
      apply Hf. exact Hfast.
Qed.
End StatsShapes.

(** Two units, three stimuli. *)
Lemma stats_shapes_invariant_witness :
  let L := Examples.two_units LCALearner_class in
  exists L',
    store_statistics L [[1; 0; 1]; [0; 1; 0]]%float 0%float None true = Ok L' /\
    stats_ok 2 (stats L').
Proof.
  intros L.
  apply (proj1 (proj2 (@stats_shapes_invariant float Scalar_float)) L
           [[1; 0; 1]; [0; 1; 0]]%float 0%float None true 2 3).
  - lia.
  - lia.
  - split; [reflexivity | repeat constructor].
  - repeat split. exists [[0.5; 0]; [0; 0.25]]%float.
    split; [reflexivity|]. split; [reflexivity | repeat constructor].
Defined.

Section RunShapes.
Context {F : Type} {SF : Scalar F}.
Variable ext : Externals (F:=F).

Lemma shape_ok_learn (L : Learner (F:=F)) (data coeffs : matrix F) (nz : bool)
    (N D B : nat) :
  0 < N -> 0 < D -> 0 < B ->
  shape_ok N D (Q L) -> shape_ok D B data -> shape_ok N B coeffs ->
  shape_ok N D (Q (fst (learn L data coeffs nz))).
Proof.
  intros HN HD HB HQ Hd Hc.
  pose proof (shape_ok_updated_Q L HN HD HB HQ Hd Hc) as H1.
  unfold learn. simpl. destruct nz; [|exact H1].
  assert (Hn : shape_ok N N (normmatrix (updated_Q L data coeffs))).
  { unfold normmatrix.
    replace N with (length (map (fun r => fdiv fone (row_norm r))
                                (updated_Q L data coeffs))) at 1 2
      by (rewrite length_map; apply H1).
    apply shape_ok_diag. }
  exact (shape_ok_dot Hn H1 HN).
Qed.

(** X10: training keeps the shapes.  On an LCALearner that infers on the
    CPU, with an N x D dictionary, statistics for N units and a stimulus
    source that gives D x B batches (N, D, B positive), a call of [run]
    that returns leaves an N x D dictionary and statistics for N units. *)
Theorem run_keeps_shapes (fuel : nat) (L L' : Learner (F:=F)) (a : run_args)
    (out out' : list string) (N D B : nat) :
  cls L = LCALearner_class -> gpu (lca L) = false ->
  0 < N -> 0 < D -> 0 < B ->
  shape_ok N D (Q L) -> stats_ok N (stats L) ->
  (forall n, shape_ok D B
     (stim_source (stims L) n (or_Z (run_batch_size a) (stim_batch_size (stims L))))) ->
  run ext fuel L a out = Some (Ok (L', out')) ->
  shape_ok N D (Q L') /\ stats_ok N (stats L').
Proof.
  intros Hcls Hgpu HN HD HB HQ Hst Hsrc Hrun. unfold run in Hrun.
  set (bs := or_Z (run_batch_size a) (stim_batch_size (stims L))) in *.
  pose (Inv := fun (t : nat) (M : Learner (F:=F)) =>
    shape_ok N D (Q M) /\ stats_ok N (stats M) /\
    stim_source (stims M) = stim_source (stims L) /\
    cls M = LCALearner_class /\ gpu (lca M) = false).
  assert (HI : Inv (0 + Z.to_nat (ntrials a)) L').
  { refine (@run_from_inv _ _ ext Inv fuel a bs _ _ 0 L out L' out' _ Hrun).
    - intros t M o M' o' (HQM & HsM & Hso & HcM & HgM) Hb.
      apply trial_body_inv in Hb. destruct Hb as (L3 & Hc & -> & _).
      pose proof Hc as Hfr. apply trial_compute_frame in Hfr.
      destruct Hfr as (_ & _ & Hcl3 & Hlca3 & _ & _ & _ & _ & Hst3).
      apply trial_compute_inv in Hc. destruct Hc as (acts & u & th & Hinf & Hss).
      cbv zeta in Hinf, Hss.
      set (X := fst (rand_stim (stims M) bs)) in *.
      set (L1 := set_stims M (snd (rand_stim (stims M) bs))) in *.
      assert (HX : shape_ok D B X) by (unfold X; simpl; rewrite Hso; apply Hsrc).
      unfold infer in Hinf.
      change (cls L1) with (cls M) in Hinf. change (lca L1) with (lca M) in Hinf.
      rewrite HcM, HgM in Hinf.
      destruct (@infer_cpu_shape _ _ fuel L1 X None None N D B acts u th HN HD HB
                  HQM HX Hinf) as (Hacts & _ & _).
      destruct HsM as (H0 & H1 & H2 & Hma & m & Hcm & Hm).
      set (L2 := fst (learn L1 X acts (normalize a))) in *.
      destruct (@store_statistics_shapes _ _ L2 acts
                  (snd (learn L1 X acts (normalize a)))
                  (Some bs) true N B HN HB Hacts H0 H1 H2 Hma)
        as (L3' & Hs' & H0' & H1' & H2' & Hma' & Hf & Htr & HQ3).
      { intros m0 E. change (stats L2) with (stats M) in E.
        rewrite Hcm in E. injection E as <-. exact Hm. }
      { intros v E. change (stats L2) with (stats M) in E.
        rewrite Hcm in E. discriminate. }
      rewrite Hs' in Hss. injection Hss as <-.
      destruct (decay_frame a L3') as (HdQ & Hds & Hdl & Hdc & Hdst & _).
      unfold Inv. rewrite HdQ, Hds, Hdl, Hdc, Hdst, Hcl3, Hlca3, Hst3, HQ3.
      split; [|split; [|split; [|split]]]; try assumption.
      + apply (@shape_ok_learn L1 X acts (normalize a) N D B HN HD HB HQM HX Hacts).
      + repeat split; try assumption.
        destruct (fastmode L2) eqn:Efm.
        * exists m. split; [rewrite (Htr eq_refl); exact Hcm | exact Hm].
        * apply Hf. reflexivity.
    - unfold Inv. split; [exact HQ|]. split; [exact Hst|]. split; [reflexivity|].
      split; assumption. }
  destruct HI as (H1 & H2 & _). split; assumption.
Qed.
End RunShapes.

(** Two trials of a one-unit learner on 1 x 1 batches. *)
Lemma run_keeps_shapes_witness :
  let L := Examples.learner1 LCALearner_class 1%float 0%float None
             [[1%float]] (Examples.params1 1%float 0.5%float false) in
  exists L' out',
    run Examples.no_externals 1 L Examples.two_trials [] = Some (Ok (L', out')) /\
    shape_ok 1 1 (Q L') /\ stats_ok 1 (stats L').
Proof.
  intros L.
  destruct (run Examples.no_externals 1 L Examples.two_trials [])
    as [[[L' out']|e]|] eqn:E;
    [|vm_compute in E; discriminate|vm_compute in E; discriminate].
  exists L', out'. split; [reflexivity|].
  apply (@run_keeps_shapes _ _ Examples.no_externals 1 L L' Examples.two_trials
           [] out' 1 1 1); try reflexivity; try lia.
  - split; [reflexivity | repeat constructor].
  - repeat split. exists [[0%float]]. split; [reflexivity|].
    split; [reflexivity | repeat constructor].
  - intros n. split; [reflexivity | repeat constructor].
  - exact E.
Defined.

(** ** The usage statistics over the reals *)

Section UsageBounds.
Local Open Scope R_scope.

Lemma vsum_bounds (l : vec R) (hi : R) :
  Forall (fun x => 0 <= x <= hi) l -> 0 <= vsum l <= hi * INR (length l).
Proof.
  induction 1 as [|x l Hx _ IH].
  - rewrite vsum_nil_R. simpl. lra.
  - rewrite vsum_cons_R. change (length (x :: l)) with (S (length l)).
    rewrite S_INR. lra.
Qed.

Lemma vmean_bounds (l : vec R) (hi : R) :
  l <> [] -> Forall (fun x => 0 <= x <= hi) l -> 0 <= vmean l <= hi.
Proof.
  intros Hne Hf. pose proof (vsum_bounds Hf) as [Hlo Hhi].
  unfold vmean. change (@fdiv R Scalar_R) with Rdiv. change (@fof_Z R Scalar_R) with IZR.
  rewrite <- INR_IZR_INZ.
  assert (Hn : 0 < INR (length l)).
  { apply lt_0_INR. destruct l; [contradiction | simpl; lia]. }
  split.
  - apply Rmult_le_pos; [exact Hlo|]. left. apply Rinv_0_lt_compat. exact Hn.
  - apply (Rmult_le_reg_r (INR (length l))); [exact Hn|].
    unfold Rdiv. rewrite Rmult_assoc, Rinv_l by lra. lra.
Qed.

Lemma vmean_nonneg (l : vec R) :
  l <> [] -> Forall (fun x => 0 <= x) l -> 0 <= vmean l.
Proof.
  intros Hne Hf.
  assert (Hs : 0 <= vsum l).
  { clear Hne. induction Hf as [|x l Hx _ IH]; [rewrite vsum_nil_R; lra|].
    rewrite vsum_cons_R. lra. }
  unfold vmean. change (@fdiv R Scalar_R) with Rdiv. change (@fof_Z R Scalar_R) with IZR.
  rewrite <- INR_IZR_INZ.
  apply Rmult_le_pos; [exact Hs|]. left. apply Rinv_0_lt_compat.
  apply lt_0_INR. destruct l; [contradiction | simpl; lia].
Qed.

Lemma nonzero_bounds (x : R) : 0 <= nonzero x <= 1.
Proof. unfold nonzero. destruct (feqb x fzero); cbn; lra. Qed.

Lemma moving_avg_bounds (rate hi : R) (old new : vec R) :
  0 <= rate <= 1 ->
  Forall (fun x => 0 <= x <= hi) old -> Forall (fun x => 0 <= x <= hi) new ->
  Forall (fun x => 0 <= x <= hi) (moving_avg rate old new).
Proof.
  intros Hr Ho Hn. unfold moving_avg, vadd, vscale. apply Forall_map2.
  intros x y Hx Hy. apply in_map_iff in Hx, Hy.
  destruct Hx as (o & <- & Hio). destruct Hy as (n & <- & Hin).
  rewrite Forall_forall in Ho, Hn. specialize (Ho o Hio). specialize (Hn n Hin).
  cbn. nra.
Qed.

Lemma moving_avg_nonneg (rate : R) (old new : vec R) :
  0 <= rate <= 1 ->
  Forall (fun x => 0 <= x) old -> Forall (fun x => 0 <= x) new ->
  Forall (fun x => 0 <= x) (moving_avg rate old new).
Proof.
  intros Hr Ho Hn. unfold moving_avg, vadd, vscale. apply Forall_map2.
  intros x y Hx Hy. apply in_map_iff in Hx, Hy.
  destruct Hx as (o & <- & Hio). destruct Hy as (n & <- & Hin).
  rewrite Forall_forall in Ho, Hn. specialize (Ho o Hio). specialize (Hn n Hin).
  cbn. nra.
Qed.

Lemma row_nonempty (acts : matrix R) (N B : nat) (row : vec R) :
  (0 < B)%nat -> shape_ok N B acts -> In row acts -> row <> [].
Proof.
  intros HB [_ Hf] Hin. rewrite Forall_forall in Hf. specialize (Hf row Hin).
  intros ->. simpl in Hf. lia.
Qed.

Lemma concat_nonempty (acts : matrix R) (N B : nat) :
  (0 < N)%nat -> (0 < B)%nat -> shape_ok N B acts -> concat acts <> [].
Proof.
  intros HN HB Ha. destruct acts as [|row rest].
  - destruct Ha as [Hl _]. simpl in Hl. lia.
  - pose proof (@row_nonempty (row :: rest) N B row HB Ha (or_introl eq_refl)) as Hr.
    simpl. destruct row; [contradiction | discriminate].
Qed.

(** Row means and the overall mean of an entrywise image of [acts]. *)
Lemma image_means_bounds (f : R -> R) (hi : R) (acts : matrix R) (N B : nat) :
  (0 < N)%nat -> (0 < B)%nat -> shape_ok N B acts ->
  (forall x, 0 <= f x <= hi) ->
  Forall (fun x => 0 <= x <= hi) (map vmean (map (map f) acts)) /\
  0 <= mmean (map (map f) acts) <= hi.
Proof.
  intros HN HB Ha Hf.
  assert (Hsh : shape_ok N B (map (map f) acts)).
  { destruct Ha as [Hl Hr]. split; [rewrite length_map; exact Hl|].
    apply Forall_map. eapply Forall_impl; [|exact Hr].
    simpl. intros row E. rewrite length_map. exact E. }
  split.
  - apply Forall_map. apply Forall_forall. intros row Hin.
    apply vmean_bounds; [exact (row_nonempty HB Hsh Hin)|].
    apply in_map_iff in Hin. destruct Hin as (r0 & <- & _).
    apply Forall_map. apply Forall_forall. intros x _. apply Hf.
  - unfold mmean. apply vmean_bounds; [exact (concat_nonempty HN HB Hsh)|].
    apply Forall_concat. apply Forall_map. apply Forall_forall. intros row _.
    apply Forall_map. apply Forall_forall. intros x _. apply Hf.
Qed.

Lemma image_means_nonneg (f : R -> R) (acts : matrix R) (N B : nat) :
  (0 < N)%nat -> (0 < B)%nat -> shape_ok N B acts ->
  (forall x, 0 <= f x) ->
  Forall (fun x => 0 <= x) (map vmean (map (map f) acts)) /\
  0 <= mmean (map (map f) acts).
Proof.
  intros HN HB Ha Hf.
  assert (Hsh : shape_ok N B (map (map f) acts)).
  { destruct Ha as [Hl Hr]. split; [rewrite length_map; exact Hl|].
    apply Forall_map. eapply Forall_impl; [|exact Hr].
    simpl. intros row E. rewrite length_map. exact E. }
  split.
  - apply Forall_map. apply Forall_forall. intros row Hin.
    apply vmean_nonneg; [exact (row_nonempty HB Hsh Hin)|].
    apply in_map_iff in Hin. destruct Hin as (r0 & <- & _).
    apply Forall_map. apply Forall_forall. intros x _. apply Hf.
  - unfold mmean. apply vmean_nonneg; [exact (concat_nonempty HN HB Hsh)|].
    apply Forall_concat. apply Forall_map. apply Forall_forall. intros row _.
    apply Forall_map. apply Forall_forall. intros x _. apply Hf.
Qed.

Lemma mmul_self (acts : matrix R) : mmul acts acts = map (map (fun x => x * x)) acts.
Proof.
  unfold mmul. induction acts as [|row rest IH]; simpl; [reflexivity|].
  f_equal; [|exact IH]. clear IH. induction row as [|x row IH]; simpl; [reflexivity|].
  f_equal. exact IH.
Qed.

(** X11: over the reals, with a moving-average rate between 0 and 1 and
    activities of N rows and B columns (both positive), [store_statistics]
    keeps the usage statistics in range: if the entries of [L0acts] were
    fractions between 0 and 1 they still are, if those of [L1acts] and
    [L2acts] were non-negative they still are, and the entries appended to
    [L0hist], [L1hist] and [L2hist] are a fraction between 0 and 1 and two
    non-negative numbers. *)
Theorem store_statistics_keeps_usages_in_range (L L' : Learner (F:=R))
    (acts : matrix R) (e : R) (bs : option Z) (center : bool) (N B : nat) :
  (0 < N)%nat -> (0 < B)%nat -> shape_ok N B acts ->
  0 <= moving_avg_rate L <= 1 ->
  Forall (fun x => 0 <= x <= 1) (L0acts (stats L)) ->
  Forall (fun x => 0 <= x) (L1acts (stats L)) ->
  Forall (fun x => 0 <= x) (L2acts (stats L)) ->
  store_statistics L acts e bs center = Ok L' ->
  Forall (fun x => 0 <= x <= 1) (L0acts (stats L')) /\
  Forall (fun x => 0 <= x) (L1acts (stats L')) /\
  Forall (fun x => 0 <= x) (L2acts (stats L')) /\
  exists h0 h1 h2,
    L0hist (stats L') = L0hist (stats L) ++ [h0] /\ 0 <= h0 <= 1 /\
    L1hist (stats L') = L1hist (stats L) ++ [h1] /\ 0 <= h1 /\
    L2hist (stats L') = L2hist (stats L) ++ [h2] /\ 0 <= h2.
Proof.
  intros HN HB Ha Hr H0 H1 H2 Hs.
  apply store_statistics_inv in Hs. destruct Hs as (ave & -> & _). simpl.
  destruct (@image_means_bounds nonzero 1 acts N B HN HB Ha nonzero_bounds) as [Hr0 Hm0].
  destruct (@image_means_nonneg Rabs acts N B HN HB Ha Rabs_pos) as [Hr1 Hm1].
  assert (Hsq : forall x : R, 0 <= x * x) by (intros x; nra).
  destruct (@image_means_nonneg (fun x => x * x) acts N B HN HB Ha Hsq) as [Hr2 Hm2].
  rewrite mmul_self.
  split; [exact (moving_avg_bounds Hr H0 Hr0)|].
  split; [exact (moving_avg_nonneg Hr H1 Hr1)|].
  split; [exact (moving_avg_nonneg Hr H2 Hr2)|].
  eexists _, _, _. repeat split; try reflexivity; try assumption; apply Hm0.
Qed.
End UsageBounds.

(** One unit, one stimulus that uses it. *)
Lemma store_statistics_keeps_usages_in_range_witness :
  let L := Examples.learner1 LCALearner_class 1%R 0%R None [[1%R]]
             (Examples.params1 1%R 0%R false) in
  exists L',
    store_statistics L [[1%R]] 0%R None true = Ok L' /\
    Forall (fun x => (0 <= x <= 1)%R) (L0acts (stats L')).
Proof.
  intros L.
  destruct (store_statistics L [[1%R]] 0%R None true) as [L'|e] eqn:E;
    [|unfold store_statistics in E; simpl in E; discriminate].
  exists L'. split; [reflexivity|].
  apply (@store_statistics_keeps_usages_in_range L L' [[1%R]] 0%R None true 1 1).
  - lia.
  - lia.
  - split; [reflexivity | repeat constructor].
  - simpl. lra.
  - simpl. repeat constructor; lra.
  - simpl. repeat constructor; lra.
  - simpl. repeat constructor; lra.
  - exact E.
Defined.

(** ** The gradient step over the reals *)

Section GradientStep.
Local Open Scope R_scope.

Lemma vdot_zero_l (a c : vec R) : Forall (fun x => x = 0) a -> vdot a c = 0.
Proof.
  intros Ha. revert c. induction Ha as [|x a Hx _ IH]; intros c.
  - reflexivity.
  - destruct c as [|y c]; [reflexivity|].
    unfold vdot in *. simpl map2. rewrite vsum_cons_R, IH. subst x. cbn. lra.
Qed.

Lemma vdot_zero_r (a c : vec R) : Forall (fun x => x = 0) c -> vdot a c = 0.
Proof.
  intros Hc. revert a. induction Hc as [|y c Hy _ IH]; intros a.
  - destruct a; reflexivity.
  - destruct a as [|x a]; [reflexivity|].
    unfold vdot in *. simpl map2. rewrite vsum_cons_R, IH. subst y. cbn. lra.
Qed.

Lemma map2_add_zeros (lr : R) (q z : vec R) :
  length z = length q -> Forall (fun x => x = 0) z ->
  map2 Rplus q (map (Rmult lr) z) = q.
Proof.
  revert z. induction q as [|x q IH]; intros z Hl Hz; [reflexivity|].
  destruct z as [|y z]; [discriminate|]. inversion Hz as [|? ? Hy Hz']; subst.
  simpl. rewrite IH by (simpl in Hl; lia || assumption). f_equal. lra.
Qed.

(** A row of [np.dot(a, b)]. *)
Lemma nth_dot (a b : matrix R) (i : nat) :
  (i < length a)%nat ->
  nth i (dot a b) [] = map (fun c => vdot (nth i a []) c) (transpose b).
Proof.
  intros Hi. unfold dot.
  rewrite (nth_map_in (fun row => map (fun c => vdot row c) (transpose b)) a [] [] Hi).
  reflexivity.
Qed.

(** A row of the dictionary is left alone by the step when the matching
    row of [np.dot(coeffs, R)] is zero and [theta] is zero. *)
Lemma updated_Q_row (L : Learner (F:=R)) (data coeffs : matrix R) (N D B i : nat) :
  (0 < N)%nat -> (0 < D)%nat -> (0 < B)%nat ->
  shape_ok N D (Q L) -> shape_ok D B data -> shape_ok N B coeffs ->
  (i < N)%nat -> theta L = 0 ->
  Forall (fun x => x = 0) (nth i (dot coeffs (residual L data coeffs)) []) ->
  nth i (updated_Q L data coeffs) [] = nth i (Q L) [].
Proof.
  intros HN HD HB HQ Hd Hc Hi Hth Hz.
  pose proof (shape_ok_residual L HN HD HQ Hd Hc) as HR.
  pose proof (shape_ok_dot Hc HR HB) as Hdot.
  unfold updated_Q. change (@feqb R Scalar_R) with Reqb.
  change (@fzero R Scalar_R) with 0.
  replace (Reqb (theta L) 0) with true by (symmetry; apply Reqb_true; exact Hth).
  simpl negb. cbv iota. unfold madd, mscale.
  change (@fadd R Scalar_R) with Rplus. change (@fmul R Scalar_R) with Rmult.
  rewrite (@nth_map2 _ _ _ (map2 Rplus) (Q L)
             (map (map (Rmult (learnrate L))) (dot coeffs (residual L data coeffs)))
             i [] [] []).
  - rewrite (nth_map_in (map (Rmult (learnrate L)))
               (dot coeffs (residual L data coeffs)) [] []).
    + apply map2_add_zeros; [|exact Hz].
      rewrite (shape_ok_row Hdot Hi), (shape_ok_row HQ Hi). reflexivity.
    + destruct Hdot as [-> _]. exact Hi.
  - destruct HQ as [-> _]. exact Hi.
  - rewrite length_map. destruct Hdot as [-> _]. exact Hi.
Qed.

Lemma vsum_zero_all (l : vec R) :
  Forall (fun x => 0 <= x) l -> vsum l = 0 -> Forall (fun x => x = 0) l.
Proof.
  induction 1 as [|x l Hx Hl IH]; intros Hs; [constructor|].
  rewrite vsum_cons_R in Hs.
  assert (Hn : 0 <= vsum l).
  { clear IH Hs. induction Hl as [|y l Hy _ IH]; [rewrite vsum_nil_R; lra|].
    rewrite vsum_cons_R. lra. }
  constructor; [lra|]. apply IH. lra.
Qed.

Lemma vsum_all_zero (l : vec R) : Forall (fun x => x = 0) l -> vsum l = 0.
Proof.
  induction 1 as [|x l Hx _ IH]; [apply vsum_nil_R|].
  rewrite vsum_cons_R. lra.
Qed.

(** X12: the gradient step of [learn] does not move the dictionary element
    of a unit that was inactive on the whole batch.  Over the reals, with
    [theta] zero and well-shaped arrays, if row i of [coeffs] is zero then
    row i of the dictionary after [learn] without normalisation is row i
    before; with normalisation it is so when that row had norm 1. *)
Theorem learn_leaves_inactive_unit (L : Learner (F:=R)) (data coeffs : matrix R)
    (N D B i : nat) :
  (0 < N)%nat -> (0 < D)%nat -> (0 < B)%nat ->
  shape_ok N D (Q L) -> shape_ok D B data -> shape_ok N B coeffs ->
  (i < N)%nat -> theta L = 0 ->
  Forall (fun x => x = 0) (nth i coeffs []) ->
  nth i (Q (fst (learn L data coeffs false))) [] = nth i (Q L) [] /\
  (row_norm (nth i (Q L) []) = 1 ->
   nth i (Q (fst (learn L data coeffs true))) [] = nth i (Q L) []).
Proof.
  intros HN HD HB HQ Hd Hc Hi Hth Hz.
  assert (Hrow : nth i (updated_Q L data coeffs) [] = nth i (Q L) []).
  { apply (@updated_Q_row L data coeffs N D B i); try assumption.
    rewrite nth_dot by (destruct Hc as [-> _]; exact Hi).
    apply Forall_map. apply Forall_forall. intros c _. apply vdot_zero_l. exact Hz. }
  split; [exact Hrow|].
  intros Hnorm.
  change (Q (fst (learn L data coeffs true)))
    with (dot (normmatrix (updated_Q L data coeffs)) (updated_Q L data coeffs)).
  pose proof (shape_ok_updated_Q L HN HD HB HQ Hd Hc) as H1.
  assert (Hi1 : (i < length (updated_Q L data coeffs))%nat)
    by (destruct H1 as [Hl1 _]; rewrite Hl1; exact Hi).
  unfold normmatrix.
  rewrite (@dot_diag _ (updated_Q L data coeffs) N D HN)
    by (try (rewrite length_map; apply H1); exact H1).
  rewrite (@nth_map2 _ _ _ (fun a row => map (Rmult a) row)
             (map (fun r => fdiv fone (row_norm r)) (updated_Q L data coeffs))
             (updated_Q L data coeffs) i 0 [] []).
  - rewrite (nth_map_in (fun r => fdiv fone (row_norm r)) (updated_Q L data coeffs) [] 0)
      by exact Hi1.
    cbv beta. rewrite Hrow.
    change (map (Rmult (fdiv fone (row_norm (nth i (updated_Q L data coeffs) []))))
              (nth i (Q L) []) = nth i (Q L) []).
    rewrite Hrow, Hnorm. cbn.
    rewrite <- (map_id (nth i (Q L) [])) at 2. apply map_ext. intros x. lra.
  - rewrite length_map. exact Hi1.
  - exact Hi1.
Qed.

(** X13: the error [learn] returns, the mean of the squared residuals, is
    non-negative over the reals, and is zero exactly when the dictionary
    reconstructs the batch from the coefficients without residual; in that
    case, with [theta] zero, the gradient step leaves the whole dictionary
    as it was. *)
Theorem learn_error_zero_iff (L : Learner (F:=R)) (data coeffs : matrix R)
    (nz : bool) (N D B : nat) :
  (0 < N)%nat -> (0 < D)%nat -> (0 < B)%nat ->
  shape_ok N D (Q L) -> shape_ok D B data -> shape_ok N B coeffs ->
  let err := snd (learn L data coeffs nz) in
  let exact := Forall (Forall (fun x => x = 0)) (residual L data coeffs) in
  0 <= err /\ (err = 0 <-> exact) /\
  (theta L = 0 -> exact -> updated_Q L data coeffs = Q L).
Proof.
  intros HN HD HB HQ Hd Hc err exact.
  pose proof (shape_ok_residual L HN HD HQ Hd Hc) as HR.
  assert (Hsq : forall x : R, 0 <= x * x) by (intros x; nra).
  destruct (@image_means_nonneg (fun x => x * x) (residual L data coeffs) B D
              HB HD HR Hsq) as [_ Hpos].
  assert (Hshape : shape_ok B D (map (map (fun x => x * x)) (residual L data coeffs))).
  { destruct HR as [Hl Hr]. split; [rewrite length_map; exact Hl|].
    apply Forall_map. eapply Forall_impl; [|exact Hr].
    simpl. intros row E. rewrite length_map. exact E. }
  assert (Herr : err = mmean (map (map (fun x => x * x)) (residual L data coeffs)))
    by (unfold err, learn; simpl; rewrite mmul_self; reflexivity).
  split; [rewrite Herr; exact Hpos|]. split.
  - rewrite Herr. unfold mmean, vmean.
    change (@fdiv R Scalar_R) with Rdiv. change (@fof_Z R Scalar_R) with IZR.
    rewrite <- INR_IZR_INZ.
    set (sq := concat (map (map (fun x => x * x)) (residual L data coeffs))).
    assert (Hn : 0 < INR (length sq)).
    { apply lt_0_INR. pose proof (concat_nonempty HB HD Hshape) as Hne.
      fold sq in Hne. destruct sq; [contradiction | simpl; lia]. }
    assert (Hall : Forall (fun x => 0 <= x) sq).
    { unfold sq. apply Forall_concat. apply Forall_map. apply Forall_forall.
      intros row _. apply Forall_map. apply Forall_forall. intros x _. apply Hsq. }
    split.
    + intros H0.
      assert (Hs : vsum sq = 0).
      { apply (Rmult_eq_reg_r (/ INR (length sq))).
        - unfold Rdiv in H0. lra.
        - apply Rinv_neq_0_compat. lra. }
      pose proof (vsum_zero_all Hall Hs) as Hz. unfold sq in Hz.
      apply Forall_concat in Hz. rewrite Forall_map in Hz.
      unfold exact. eapply Forall_impl; [|exact Hz]. simpl. intros row Hrow.
      rewrite Forall_map in Hrow. eapply Forall_impl; [|exact Hrow].
      simpl. intros x Hx. nra.
    + intros Hex.
      assert (Hz : Forall (fun x => x = 0) sq).
      { unfold sq. apply Forall_concat. apply Forall_map.
        eapply Forall_impl; [|exact Hex]. simpl. intros row Hrow.
        apply Forall_map. eapply Forall_impl; [|exact Hrow].
        simpl. intros x ->. lra. }
      rewrite (vsum_all_zero Hz). unfold Rdiv. lra.
  - intros Hth Hex.
    pose proof (shape_ok_updated_Q L HN HD HB HQ Hd Hc) as H1.
    apply (nth_ext _ _ [] []).
    + destruct H1 as [-> _]. destruct HQ as [-> _]. reflexivity.
    + intros i Hi. destruct H1 as [Hl1 _]. rewrite Hl1 in Hi.
      apply (@updated_Q_row L data coeffs N D B i); try assumption.
      rewrite nth_dot by (destruct Hc as [-> _]; exact Hi).
      apply Forall_map. apply Forall_forall. intros c Hin. apply vdot_zero_r.
      unfold transpose in Hin. apply in_map_iff in Hin. destruct Hin as (j & <- & _).
      unfold col. apply Forall_map. apply Forall_forall. intros row Hrow.
      unfold exact in Hex. rewrite Forall_forall in Hex. specialize (Hex row Hrow).
      destruct (Nat.lt_ge_cases j (length row)) as [Hj|Hj].
      * rewrite Forall_forall in Hex. apply Hex. apply nth_In. exact Hj.
      * apply nth_overflow. exact Hj.
Qed.
End GradientStep.

(** Two units on one stimulus; the second unit was not used. *)
Lemma learn_leaves_inactive_unit_witness :
  let L := Examples.learner1 DictLearner_class 1%R 0%R None [[1%R]; [1%R]]
             (Examples.params1 1%R 0%R false) in
  nth 1 (Q (fst (learn L [[1%R]] [[1%R]; [0%R]] false))) [] = nth 1 (Q L) [].
Proof.
  intros L.
  apply (proj1 (@learn_leaves_inactive_unit L [[1%R]] [[1%R]; [0%R]] 2 1 1 1
                  ltac:(lia) ltac:(lia) ltac:(lia)
                  ltac:(split; [reflexivity | repeat constructor])
                  ltac:(split; [reflexivity | repeat constructor])
                  ltac:(split; [reflexivity | repeat constructor])
                  ltac:(lia) eq_refl ltac:(repeat constructor))).
Defined.

(** The same batch: the returned error is not negative. *)
Lemma learn_error_zero_iff_witness :
  let L := Examples.learner1 DictLearner_class 1%R 0%R None [[1%R]; [1%R]]
             (Examples.params1 1%R 0%R false) in
  (0 <= snd (learn L [[1%R]] [[1%R]; [0%R]] true))%R.
Proof.
  intros L.
  apply (proj1 (@learn_error_zero_iff L [[1%R]] [[1%R]; [0%R]] true 2 1 1
                  ltac:(lia) ltac:(lia) ltac:(lia)
                  ltac:(split; [reflexivity | repeat constructor])
                  ltac:(split; [reflexivity | repeat constructor])
                  ltac:(split; [reflexivity | repeat constructor]))).
Defined.

(** ** What the inference returns *)

Section InferenceResults.
Context {F : Type} {SF : Scalar F}.

(** An entry of [m.T]. *)
Lemma nth_transpose (m : matrix F) (r c i j : nat) :
  shape_ok r c m -> 0 < r -> i < c -> j < r ->
  nth j (nth i (transpose m) []) fzero = nth i (nth j m []) fzero.
Proof.
  intros Hm Hr Hi Hj. unfold transpose. rewrite (ncols_shape Hm Hr).
  rewrite (nth_map_in (fun k => col k m) (seq 0 c) 0 [])
    by (rewrite length_seq; exact Hi).
  rewrite seq_nth by exact Hi. simpl.
  apply nth_col. destruct Hm as [Hl _]. rewrite Hl. exact Hj.
Qed.

Lemma nth_zeros (M N i j : nat) :
  i < M -> nth j (nth i (zeros (F:=F) M N) []) fzero = fzero.
Proof.
  intros Hi. unfold zeros.
  rewrite (nth_indep _ [] (repeat fzero N)) by (rewrite repeat_length; exact Hi).
  rewrite nth_repeat. apply nth_repeat.
Qed.

Lemma hard_state_step (P : LCAParams (F:=F)) (c b : matrix F) (M N kk : nat)
    (st st' : lca_state) :
  softthresh P = false ->
  0 < N -> shape_ok N N c -> shape_ok M N b ->
  hard_state P b M N st -> inner_step P c b kk st = Ok st' -> hard_state P b M N st'.
Proof.
  intros Hhard HN Hc Hb [Hsh (k & Hk & _)] Hstep.
  pose proof (@state_shape_step _ _ P c b M N kk st st' HN Hc Hb Hsh Hstep) as Hsh'.
  split; [exact Hsh'|].
  apply inner_step_Ok in Hstep. destruct Hstep as (_ & Hu & Hs & Hth').
  destruct Hsh' as (Hu' & _ & _). destruct Hsh as (_ & _ & Hth).
  exists (S k). split.
  - rewrite Hth', Hk. reflexivity.
  - intros i j Hi Hj. rewrite Hs, Hu. rewrite Hu in Hu'.
    rewrite threshold_entry.
    + rewrite Hhard, Hk. reflexivity.
    + destruct Hu' as [Hl _]. rewrite Hl. exact Hi.
    + rewrite Hth. exact Hi.
    + rewrite (shape_ok_row Hu' Hi). exact Hj.
Qed.
End InferenceResults.

Section InferenceTheorems.
Context {F : Type} {SF : Scalar F}.
Variable ext : Externals (F:=F).

Lemma hard_state_init (P : LCAParams (F:=F)) (q X : matrix F) (N D M : nat) :
  0 < N -> 0 < D -> shape_ok N D q -> shape_ok D M X ->
  hard_state P (drive q X) M N (init_state P q X).
Proof.
  intros HN HD Hq HX.
  pose proof (@state_shape_init _ _ P q X N D M HN HD Hq HX) as Hsh.
  split; [exact Hsh|]. exists 0. split; [reflexivity|].
  intros i j Hi _. destruct Hsh as ([Hl _] & _ & _). simpl in Hl. simpl.
  assert (Hi' : i < ncols X) by (unfold zeros in Hl; rewrite repeat_length in Hl; lia).
  split; apply nth_zeros; exact Hi'.
Qed.

(** X14: the arrays an inference returns have one row per unit and one
    column per stimulus.  On an N x D dictionary and D x M stimuli (N, D,
    M positive), a returning [infer_cpu], with whatever tolerance and cap,
    gives coefficients and potentials of shape N x M and M thresholds; so
    does [infer] on an LCALearner that does not use the GPU. *)
Theorem inference_result_shapes (fuel : nat) (L : Learner (F:=F)) (X : matrix F)
    (N D M : nat) :
  0 < N -> 0 < D -> 0 < M ->
  shape_ok N D (Q L) -> shape_ok D M X ->
  (forall ta ma s u thresh,
     infer_cpu fuel L X ta ma = Some (Ok (s, u, thresh)) ->
     shape_ok N M s /\ shape_ok N M u /\ length thresh = M) /\
  (cls L = LCALearner_class -> gpu (lca L) = false ->
   forall s u thresh,
     infer ext fuel L X = Some (Ok (s, u, thresh)) ->
     shape_ok N M s /\ shape_ok N M u /\ length thresh = M).
Proof.
  intros HN HD HM HQ HX. split.
  - intros ta ma s u thresh H.
    exact (@infer_cpu_shape _ _ fuel L X ta ma N D M s u thresh HN HD HM HQ HX H).
  - intros Hcls Hgpu s u thresh. unfold infer. rewrite Hcls, Hgpu. intros H.
    exact (@infer_cpu_shape _ _ fuel L X None None N D M s u thresh HN HD HM HQ HX H).
Qed.

(** X15: with hard thresholding ([softthresh] false) the coefficients a
    returning [infer_cpu] gives are the potentials with the sub-threshold
    entries set to zero, never shrunk.  Some number [k] of inner iterations
    has run and the returned thresholds are those after [k] iterations.  If
    [k] is 0 every coefficient and potential is zero.  Otherwise, for unit
    i and stimulus j, the coefficient is zero when the magnitude of the
    potential is strictly below the threshold of stimulus j in force at the
    last iteration (the one after [k - 1] iterations), and is the potential
    itself when it is not. *)
Theorem hard_threshold_coefficients (fuel : nat) (L : Learner (F:=F)) (X : matrix F)
    (ta : option F) (ma : option Z) (N D M : nat) (s u : matrix F) (thresh : vec F) :
  0 < N -> 0 < D -> 0 < M ->
  shape_ok N D (Q L) -> shape_ok D M X ->
  softthresh (lca L) = false ->
  infer_cpu fuel L X ta ma = Some (Ok (s, u, thresh)) ->
  exists k,
    thresh = thresh_after (lca L) (drive (Q L) X) k /\
    match k with
    | O =>
        forall i j, i < N -> j < M ->
          nth j (nth i s []) fzero = fzero /\ nth j (nth i u []) fzero = fzero
    | S k' =>
        forall i j, i < N -> j < M ->
          nth j (nth i s []) fzero =
          if fltb (fabs (nth j (nth i u []) fzero))
                  (nth j (thresh_after (lca L) (drive (Q L) X) k') fzero)
          then fzero else nth j (nth i u []) fzero
    end.
Proof.
  intros HN HD HM HQ HX Hhard. unfold infer_cpu.
  destruct (outer_loop _ _ _ _ _ _ _ _ _ _ _) as [[st'|e]|] eqn:E; try discriminate.
  intros E'; injection E' as <- <- <-.
  assert (Hst : hard_state (lca L) (drive (Q L) X) M N st').
  { eapply (@outer_loop_inv _ _ (lca L) _ _
              (hard_state (lca L) (drive (Q L) X) M N)); [ | | exact E].
    - intros kk st0 st1 H0 H1.
      eapply hard_state_step; [exact Hhard | exact HN | | | exact H0 | exact H1].
      + exact (@shape_ok_overlap _ _ (Q L) N D HN HD HQ).
      + exact (@shape_ok_drive _ _ (Q L) X N D M HN HD HQ HX).
    - exact (@hard_state_init (lca L) (Q L) X N D M HN HD HQ HX). }
  destruct Hst as ((Hu & Hs & _) & k & Hk & Hent).
  exists k. split; [exact Hk|].
  destruct k as [|k'].
  - intros i j Hi Hj.
    rewrite (nth_transpose Hs HM Hi Hj), (nth_transpose Hu HM Hi Hj).
    apply Hent; assumption.
  - intros i j Hi Hj.
    rewrite (nth_transpose Hs HM Hi Hj), (nth_transpose Hu HM Hi Hj).
    apply Hent; assumption.
Qed.
End InferenceTheorems.

(** One unit, one stimulus: the coefficient is the potential. *)
Lemma inference_result_shapes_witness :
  let L := Examples.learner1 LCALearner_class 1%float 0%float None [[1%float]]
             (Examples.params1 1%float 0.5%float false) in
  exists s u thresh,
    infer Examples.no_externals 1 L [[1%float]] = Some (Ok (s, u, thresh)) /\
    shape_ok 1 1 s /\ shape_ok 1 1 u /\ length thresh = 1.
Proof.
  intros L.
  destruct (infer Examples.no_externals 1 L [[1%float]]) as [[[[s u] th]|e]|] eqn:E;
    [|vm_compute in E; discriminate|vm_compute in E; discriminate].
  exists s, u, th. split; [reflexivity|].
  refine (proj2 (@inference_result_shapes _ _ Examples.no_externals 1 L [[1%float]]
                   1 1 1 _ _ _ _ _) eq_refl eq_refl s u th E); try lia;
    (split; [reflexivity | repeat constructor]).
Defined.

(** One unit, two stimuli, thresholds 0.5 and 1 at the only iteration:
    the potential 0.25 is below its threshold and its coefficient is zero,
    the potential 1 is not below its threshold and is passed on. *)
Lemma hard_threshold_coefficients_witness :
  let P := Examples.params1 1%float 0.5%float false in
  let L := Examples.learner1 LCALearner_class 1%float 0%float None [[1%float]] P in
  let X := [[0.25; 1]]%float in
  infer_cpu 1 L X None None = Some (Ok ([[0; 1]], [[0.25; 1]], [0.5; 1]))%float /\
  thresh_after P (drive (Q L) X) 0 = [0.5; 1]%float /\
  exists k,
    [0.5; 1]%float = thresh_after P (drive (Q L) X) (S k) /\
    (0%float = if PrimFloat.ltb (abs 0.25) (nth 0 (thresh_after P (drive (Q L) X) k) 0)
               then 0 else 0.25)%float /\
    (1%float = if PrimFloat.ltb (abs 1) (nth 1 (thresh_after P (drive (Q L) X) k) 0)
               then 0 else 1)%float.
Proof.
  intros P L X.
  assert (E : infer_cpu 1 L X None None =
              Some (Ok ([[0; 1]], [[0.25; 1]], [0.5; 1]))%float)
    by (vm_compute; reflexivity).
  split; [exact E|]. split; [vm_compute; reflexivity|].
  destruct (@hard_threshold_coefficients _ _ 1 L X None None 1 1 2 _ _ _
              ltac:(lia) ltac:(lia) ltac:(lia)
              ltac:(split; [reflexivity | repeat constructor])
              ltac:(split; [reflexivity | repeat constructor])
              eq_refl E) as (k & Hk & Hent).
  destruct k as [|k].
  - exfalso. destruct (Hent 0 0 ltac:(lia) ltac:(lia)) as [_ Hu]. vm_compute in Hu.
    discriminate.
  - exists k. split; [exact Hk|]. split.
    + exact (Hent 0 0 ltac:(lia) ltac:(lia)).
    + exact (Hent 0 1 ltac:(lia) ltac:(lia)).
Defined.

(** ** The initial dictionary and the reconstruction error *)

Section Reconstruction.
Local Open Scope R_scope.

(** X16: [rand_dict] normalises the rows of the array it drew.  Over the
    reals, for an N x D draw (N positive) without a zero row, the result is
    N x D, each of its rows is the drawn row divided by its norm, and each
    has norm 1. *)
Theorem rand_dict_rows_unit_norm (draw : matrix R) (N D : nat) :
  (0 < N)%nat -> shape_ok N D draw ->
  Forall (fun r => row_norm r <> 0) draw ->
  shape_ok N D (rand_dict draw) /\
  Forall (fun r => row_norm r = 1) (rand_dict draw) /\
  forall i, (i < N)%nat ->
    nth i (rand_dict draw) [] =
    map (fun x => 1 / row_norm (nth i draw []) * x) (nth i draw []).
Proof.
  intros HN Hd Hnz. unfold rand_dict.
  assert (Hlen : length (map (fun r => fdiv fone (row_norm r)) draw) = N)
    by (rewrite length_map; apply Hd).
  split; [|split].
  - assert (Hn : shape_ok N N (normmatrix draw)).
    { unfold normmatrix. rewrite <- Hlen at 1 2. apply shape_ok_diag. }
    exact (shape_ok_dot Hn Hd HN).
  - exact (normalize_rows_unit HN Hd Hnz).
  - intros i Hi. unfold normmatrix.
    rewrite (@dot_diag _ draw N D HN Hlen Hd).
    assert (Hi' : (i < length draw)%nat) by (destruct Hd as [Hl _]; rewrite Hl; exact Hi).
    rewrite (@nth_map2 _ _ _ (fun a row => map (Rmult a) row)
               (map (fun r => fdiv fone (row_norm r)) draw) draw i 0 [] [])
      by (try rewrite length_map; exact Hi').
    rewrite (nth_map_in (fun r => fdiv fone (row_norm r)) draw [] 0 Hi').
    reflexivity.
Qed.

Lemma transpose_zero (m : matrix R) :
  Forall (Forall (fun x => x = 0)) m ->
  Forall (Forall (fun x => x = 0)) (transpose m).
Proof.
  intros Hz. unfold transpose. apply Forall_map. apply Forall_forall. intros j _.
  unfold col. apply Forall_map. apply Forall_forall. intros row Hrow.
  rewrite Forall_forall in Hz. specialize (Hz row Hrow).
  destruct (Nat.lt_ge_cases j (length row)) as [Hj|Hj].
  - rewrite Forall_forall in Hz. apply Hz. apply nth_In. exact Hj.
  - apply nth_overflow. exact Hj.
Qed.

Lemma dot_zero_r (a b : matrix R) :
  Forall (Forall (fun x => x = 0)) b -> Forall (Forall (fun x => x = 0)) (dot a b).
Proof.
  intros Hz. apply transpose_zero in Hz. unfold dot.
  apply Forall_map. apply Forall_forall. intros row _.
  apply Forall_map. eapply Forall_impl; [|exact Hz].
  simpl. intros c Hc. apply vdot_zero_r. exact Hc.
Qed.

Lemma map2_sub_zeros (x g : vec R) :
  length g = length x -> Forall (fun y => y = 0) g -> map2 Rminus x g = x.
Proof.
  revert g. induction x as [|a x IH]; intros g Hl Hg; [reflexivity|].
  destruct g as [|b g]; [discriminate|]. inversion Hg as [|? ? Hb Hg']; subst.
  simpl. rewrite IH by (simpl in Hl; lia || assumption). f_equal. lra.
Qed.

Lemma msub_zeros (X G : matrix R) (B : nat) :
  length G = length X ->
  Forall (fun row => length row = B) X -> Forall (fun row => length row = B) G ->
  Forall (Forall (fun x => x = 0)) G -> msub X G = X.
Proof.
  revert G. induction X as [|x X IH]; intros G Hl HX HG Hz; [reflexivity|].
  destruct G as [|g G]; [discriminate|].
  inversion HX as [|? ? Hx HX']; inversion HG as [|? ? Hg HG'];
    inversion Hz as [|? ? Hgz Hz']; subst.
  unfold msub in *. simpl. change (@fsub R Scalar_R) with Rminus in *.
  rewrite map2_sub_zeros by (congruence || assumption).
  f_equal. apply IH; try assumption. simpl in Hl. lia.
Qed.

Lemma msub_self (X : matrix R) : Forall (Forall (fun x => x = 0)) (msub X X).
Proof.
  unfold msub. induction X as [|x X IH]; simpl; constructor; [|exact IH].
  clear IH. induction x as [|a x IH]; simpl; constructor; [cbn; lra | exact IH].
Qed.

Lemma mmul_zero (m : matrix R) :
  Forall (Forall (fun x => x = 0)) m -> Forall (Forall (fun x => x = 0)) (mmul m m).
Proof.
  intros Hz. rewrite mmul_self. apply Forall_map. eapply Forall_impl; [|exact Hz].
  simpl. intros row Hrow. apply Forall_map. eapply Forall_impl; [|exact Hrow].
  simpl. intros x ->. lra.
Qed.

Lemma col_means_zero (m : matrix R) :
  Forall (Forall (fun x => x = 0)) m -> Forall (fun x => x = 0) (col_means m).
Proof.
  intros Hz. apply transpose_zero in Hz. unfold col_means. apply Forall_map.
  eapply Forall_impl; [|exact Hz]. simpl. intros c Hc.
  unfold vmean. rewrite (vsum_all_zero Hc). cbn. unfold Rdiv. lra.
Qed.

Lemma length_col_means (m : matrix R) (r c : nat) :
  shape_ok r c m -> (0 < r)%nat -> length (col_means m) = c.
Proof.
  intros Hm Hr. unfold col_means. rewrite length_map.
  apply (shape_ok_transpose Hm Hr).
Qed.

(** The column means of the squares of a matrix with at least one row. *)
Lemma col_means_squares_nonneg (m : matrix R) (r c : nat) :
  shape_ok r c m -> (0 < r)%nat ->
  Forall (fun x => 0 <= x) (col_means (mmul m m)).
Proof.
  intros Hm Hr.
  assert (Hsq : shape_ok r c (mmul m m)) by (apply shape_ok_map2; exact Hm).
  pose proof (shape_ok_transpose Hsq Hr) as Ht.
  unfold col_means. apply Forall_map. apply Forall_forall. intros cl Hin.
  apply vmean_nonneg.
  - destruct Ht as [_ Hrows]. rewrite Forall_forall in Hrows.
    specialize (Hrows cl Hin). intros ->. simpl in Hrows. lia.
  - unfold transpose in Hin. apply in_map_iff in Hin. destruct Hin as (j & <- & _).
    unfold col. apply Forall_map. apply Forall_forall. intros row Hrow.
    rewrite mmul_self in Hrow. apply in_map_iff in Hrow. destruct Hrow as (r0 & <- & _).
    destruct (Nat.lt_ge_cases j (length (map (fun x => x * x) r0))) as [Hj|Hj].
    + assert (Hall : Forall (fun x => 0 <= x) (map (fun x => x * x) r0))
        by (apply Forall_map; apply Forall_forall; intros x _; nra).
      rewrite Forall_forall in Hall. apply Hall. apply nth_In. exact Hj.
    + rewrite nth_overflow by exact Hj. cbn. lra.
Qed.

(** X17: [compute_errors] gives one relative error per stimulus.  Over the
    reals, for an N x D dictionary, N x B activities and D x B stimuli
    (N, D, B positive) of which none has zero energy, the result has
    length B and no negative entry; the all-zero code has relative error 1
    on every stimulus; and a code the model reconstructs the stimuli from
    exactly has error 0 on every stimulus. *)
Theorem compute_errors_per_stimulus (L : Learner (F:=R)) (acts X : matrix R)
    (N D B : nat) :
  (0 < N)%nat -> (0 < D)%nat -> (0 < B)%nat ->
  shape_ok N D (Q L) -> shape_ok N B acts -> shape_ok D B X ->
  Forall (fun m => m <> 0) (col_means (mmul X X)) ->
  length (compute_errors L acts X) = B /\
  Forall (fun e => 0 <= e) (compute_errors L acts X) /\
  (Forall (Forall (fun x => x = 0)) acts ->
   Forall (fun e => e = 1) (compute_errors L acts X)) /\
  (generate_model L acts = X ->
   Forall (fun e => e = 0) (compute_errors L acts X)).
Proof.
  intros HN HD HB HQ Ha HX Hen.
  assert (HG : shape_ok D B (generate_model L acts)).
  { unfold generate_model. exact (shape_ok_dot (shape_ok_transpose HQ HN) Ha HN). }
  assert (Hdf : shape_ok D B (msub X (generate_model L acts)))
    by (apply shape_ok_map2; assumption).
  pose proof (col_means_squares_nonneg Hdf HD) as Hnum.
  pose proof (col_means_squares_nonneg HX HD) as Hden.
  assert (Hln : length (col_means (mmul (msub X (generate_model L acts))
                                        (msub X (generate_model L acts)))) = B).
  { apply (@length_col_means _ D B); [apply shape_ok_map2; exact Hdf | exact HD]. }
  assert (Hld : length (col_means (mmul X X)) = B).
  { apply (@length_col_means _ D B); [apply shape_ok_map2; exact HX | exact HD]. }
  unfold compute_errors. cbv zeta. change (@fdiv R Scalar_R) with Rdiv.
  split; [|split; [|split]].
  - rewrite length_map2, Hln, Hld. apply Nat.min_id.
  - apply Forall_map2. intros x y Hx Hy.
    rewrite Forall_forall in Hnum, Hden, Hen.
    specialize (Hnum x Hx). specialize (Hden y Hy). specialize (Hen y Hy).
    apply Rmult_le_pos; [exact Hnum|]. left. apply Rinv_0_lt_compat. lra.
  - intros Hz.
    assert (Hgz : Forall (Forall (fun x => x = 0)) (generate_model L acts))
      by (unfold generate_model; apply dot_zero_r; exact Hz).
    rewrite (@msub_zeros X (generate_model L acts) B)
      by (try (destruct HG as [-> _]; destruct HX as [-> _]; reflexivity);
          try apply HX; try apply HG; exact Hgz).
    revert Hen. generalize (col_means (mmul X X)). intros cm Hcm.
    induction Hcm as [|m cm Hm _ IH]; simpl; constructor; [|exact IH].
    unfold Rdiv. apply Rinv_r. exact Hm.
  - intros Hex. rewrite Hex.
    pose proof (col_means_zero (mmul_zero (msub_self X))) as Hz0.
    apply Forall_map2. intros x y Hx _.
    rewrite Forall_forall in Hz0. rewrite (Hz0 x Hx). unfold Rdiv. lra.
Qed.
End Reconstruction.

(** A draw of one row [2]: the dictionary is one row of norm 1. *)
Lemma rand_dict_rows_unit_norm_witness :
  Forall (fun r => row_norm r = 1%R) (rand_dict [[2%R]]).
Proof.
  refine (proj1 (proj2 (@rand_dict_rows_unit_norm [[2%R]] 1 1 _ _ _))).
  - lia.
  - split; [reflexivity | repeat constructor].
  - constructor; [|constructor].
    unfold row_norm. simpl map2. rewrite vsum_cons_R, vsum_nil_R. cbn.
    match goal with |- R_sqrt.sqrt ?e <> _ => replace e with (2 * 2)%R by lra end.
    rewrite R_sqrt.sqrt_square by lra. lra.
Defined.

(** One stimulus and the zero code: the relative error is 1. *)
Lemma compute_errors_per_stimulus_witness :
  let L := Examples.learner1 DictLearner_class 1%R 0%R None [[1%R]]
             (Examples.params1 1%R 0%R false) in
  Forall (fun e => e = 1%R) (compute_errors L [[0%R]] [[1%R]]).
Proof.
  intros L.
  assert (Hshape : forall x : R, shape_ok 1 1 [[x]])
    by (intros x; split; [reflexivity | repeat constructor]).
  refine (proj1 (proj2 (proj2 (@compute_errors_per_stimulus L [[0%R]] [[1%R]] 1 1 1
                                 _ _ _ _ _ _ _))) _);
    try lia; try apply Hshape.
  - unfold col_means, vmean. cbn. constructor; [|constructor].
    lra.
  - repeat constructor.
Defined.

(** ** Parameter files of the LCALearner *)

Section ParameterFiles.
Context {F : Type} {SF : Scalar F}.

Lemma contents_write_same (fs : FileSystem (F:=F)) (f : string) (p : pickled) :
  contents (write_file fs f p) f = Some p.
Proof. unfold write_file. simpl. rewrite String.eqb_refl. reflexivity. Qed.

Lemma contents_write_other (fs : FileSystem (F:=F)) (f g : string) (p : pickled) :
  g <> f -> contents (write_file fs f p) g = contents fs g.
Proof.
  intros Hne. unfold write_file. simpl.
  destruct (String.eqb g f) eqn:E; [|reflexivity].
  apply String.eqb_eq in E. contradiction.
Qed.

(** X18: [save_params] followed by [load_params] is a round trip for what
    the file holds, and for nothing else.  When the name the call settles
    on ([filename], else [paramfile]) can be opened for writing,
    [save_params] returns, binds [paramfile] to that name, changes no
    other attribute and no other file.  [load_params] of that file into
    any learner then returns and gives it the saved dictionary, error
    history and the eight saved parameters (learnrate, theta, min_thresh,
    infrate, niter, adapt, max_iter, tolerance); [softthresh], [gpu], the
    usage statistics, the other histories and the correlation matrix are
    not in the file and keep the values of the loading learner. *)
Theorem save_load_params_round_trip (L : Learner (F:=F)) (filename : option string)
    (f : string) (fs : FileSystem (F:=F)) :
  or_str filename (paramfile L) = Some f ->
  writable fs f = true ->
  exists L1 fs1,
    save_params L filename fs = (L1, fs1, Ok tt) /\
    L1 = set_paramfile L (Some f) /\
    (forall g, g <> f -> contents fs1 g = contents fs g) /\
    forall L2 : Learner (F:=F),
    exists L3,
      load_params L2 (Some f) fs1 = (L3, Ok (Some f)) /\
      Q L3 = Q L /\ errorhist (stats L3) = errorhist (stats L) /\
      learnrate L3 = learnrate L /\ theta L3 = theta L /\
      min_thresh (lca L3) = min_thresh (lca L) /\
      infrate (lca L3) = infrate (lca L) /\
      niter (lca L3) = niter (lca L) /\
      adapt (lca L3) = adapt (lca L) /\
      max_iter (lca L3) = max_iter (lca L) /\
      tolerance (lca L3) = tolerance (lca L) /\
      paramfile L3 = Some f /\
      softthresh (lca L3) = softthresh (lca L2) /\ gpu (lca L3) = gpu (lca L2) /\
      L0acts (stats L3) = L0acts (stats L2) /\ L1acts (stats L3) = L1acts (stats L2) /\
      L2acts (stats L3) = L2acts (stats L2) /\ meanacts (stats L3) = meanacts (stats L2) /\
      L0hist (stats L3) = L0hist (stats L2) /\ L1hist (stats L3) = L1hist (stats L2) /\
      L2hist (stats L3) = L2hist (stats L2) /\
      corrmatrix_ave (stats L3) = corrmatrix_ave (stats L2) /\
      nunits L3 = nunits L2 /\ batch_size L3 = batch_size L2 /\
      moving_avg_rate L3 = moving_avg_rate L2 /\ stims L3 = stims L2.
Proof.
  intros Hname Hw. unfold save_params. rewrite Hname, Hw.
  eexists _, _. split; [reflexivity|]. split; [reflexivity|]. split.
  - intros g Hg. apply contents_write_other. exact Hg.
  - intros L2. unfold load_params. rewrite contents_write_same.
    eexists. split; [reflexivity|]. simpl. repeat split; reflexivity.
Qed.

(** X19: [load_params] on the files it may meet.  A file in the older
    format (dictionary and error history only) is loaded through the
    [except ValueError] branch: the dictionary and the error history are
    replaced and the eight parameters keep their current values.  Without
    a file name the call raises TypeError, and on a missing file OSError;
    in both cases [paramfile] has already been overwritten with the
    argument, so a failed load loses the previous name, and nothing else
    has changed. *)
Theorem load_params_cases (L : Learner (F:=F)) (fs : FileSystem (F:=F)) :
  (forall f q eh,
     contents fs f = Some (Pickled2 q eh) ->
     exists L',
       load_params L (Some f) fs = (L', Ok (Some f)) /\
       Q L' = q /\ errorhist (stats L') = eh /\
       learnrate L' = learnrate L /\ theta L' = theta L /\ lca L' = lca L /\
       paramfile L' = Some f /\
       L0acts (stats L') = L0acts (stats L) /\ L1acts (stats L') = L1acts (stats L) /\
       L2acts (stats L') = L2acts (stats L) /\ meanacts (stats L') = meanacts (stats L) /\
       corrmatrix_ave (stats L') = corrmatrix_ave (stats L)) /\
  (exists msg, load_params L None fs = (set_paramfile L None, Raise (TypeError msg))) /\
  (forall f,
     contents fs f = None ->
     exists msg, load_params L (Some f) fs = (set_paramfile L (Some f), Raise (OSError msg))).
Proof.
  split; [|split].
  - intros f q eh Hc. unfold load_params. rewrite Hc.
    eexists. split; [reflexivity|]. simpl. repeat split; reflexivity.
  - eexists. reflexivity.
  - intros f Hc. unfold load_params. rewrite Hc. eexists. reflexivity.
Qed.

(** X20: when [save_params] fails it writes nothing.  With neither a
    [filename] nor a [paramfile] it raises ValueError and leaves the
    learner as it was; when the file cannot be opened for writing it raises
    OSError after it has bound [paramfile] to the new name.  In both cases,
    and whenever the call is made, the content of every file other than
    the one named is what it was. *)
Theorem save_params_failures (L : Learner (F:=F)) (filename : option string)
    (fs : FileSystem (F:=F)) :
  (or_str filename (paramfile L) = None ->
   exists msg, save_params L filename fs = (L, fs, Raise (ValueError msg))) /\
  (forall f,
     or_str filename (paramfile L) = Some f -> writable fs f = false ->
     exists msg,
       save_params L filename fs = (set_paramfile L (Some f), fs, Raise (OSError msg))) /\
  (forall g,
     or_str filename (paramfile L) <> Some g ->
     contents (snd (fst (save_params L filename fs))) g = contents fs g).
Proof.
  split; [|split].
  - intros Hn. unfold save_params. rewrite Hn. eexists. reflexivity.
  - intros f Hn Hw. unfold save_params. rewrite Hn, Hw. eexists. reflexivity.
  - intros g Hg. unfold save_params.
    destruct (or_str filename (paramfile L)) as [f|]; [|reflexivity].
    destruct (writable fs f); [|reflexivity].
    simpl. apply contents_write_other. intros ->. apply Hg. reflexivity.
Qed.
End ParameterFiles.

(** A save into an empty file system and a load back. *)
Lemma save_load_params_round_trip_witness :
  let L := Examples.learner1 LCALearner_class 1%float 0.25%float None [[1%float]]
             (Examples.params1 1%float 0.5%float false) in
  exists L1 fs1,
    save_params L (Some "dict.pickle"%string) FileExamples.empty_disk = (L1, fs1, Ok tt) /\
    exists L3,
      load_params L (Some "dict.pickle"%string) fs1 = (L3, Ok (Some "dict.pickle"%string)) /\
      Q L3 = Q L.
Proof.
  intros L.
  destruct (@save_load_params_round_trip _ L (Some "dict.pickle"%string)
              "dict.pickle"%string FileExamples.empty_disk eq_refl eq_refl)
    as (L1 & fs1 & Hs & _ & _ & Hl).
  exists L1, fs1. split; [exact Hs|].
  destruct (Hl L) as (L3 & H3 & HQ & _). exists L3. split; [exact H3 | exact HQ].
Defined.

Section LoadHook.
Context {F : Type} {SF : Scalar F}.

End LoadHook.

(** ** Inference over the reals *)

Section RealInference.
Local Open Scope R_scope.

Lemma any_nan_R (m : matrix R) : any_nan m = false.
Proof. apply any_nan_false. intros r x _ _. reflexivity. Qed.

Lemma inner_step_R (P : LCAParams (F:=R)) (c b : matrix R) (kk : nat) (st : lca_state) :
  exists st', inner_step P c b kk st = Ok st'.
Proof. unfold inner_step. rewrite any_nan_R. eexists. reflexivity. Qed.

Lemma inner_from_R (P : LCAParams (F:=R)) (c b : matrix R) (n : nat) :
  forall k0 st, exists st', inner_from P c b k0 n st = Ok st'.
Proof.
  induction n as [|n IH]; intros k0 st; simpl; [eexists; reflexivity|].
  destruct (inner_step_R P c b k0 st) as [st1 ->]. simpl. apply IH.
Qed.

Lemma outer_loop_R (P : LCAParams (F:=R)) (c b : matrix R) (fuel : nat) :
  forall tol cap q X err k st e,
    outer_loop fuel P tol cap q X c b err k st <> Some (Raise e).
Proof.
  induction fuel as [|fuel IH]; intros tol cap q X err k st e; simpl;
    destruct (continue tol cap err k); try discriminate.
  destruct (inner_from_R P c b (Z.to_nat (niter P)) 0 st) as [st1 H1].
  unfold inner_loop. rewrite H1. apply IH.
Qed.

Lemma zero_map2 (f : R -> R -> R) (a b : matrix R) :
  f 0 0 = 0 ->
  Forall (Forall (fun x => x = 0)) a -> Forall (Forall (fun x => x = 0)) b ->
  Forall (Forall (fun x => x = 0)) (map2 (map2 f) a b).
Proof.
  intros Hf Ha Hb. apply Forall_map2. intros x y Hx Hy.
  rewrite Forall_forall in Ha, Hb. specialize (Ha x Hx). specialize (Hb y Hy).
  apply Forall_map2. intros p q Hp Hq.
  rewrite Forall_forall in Ha, Hb. rewrite (Ha p Hp), (Hb q Hq). exact Hf.
Qed.

Lemma zero_mscale (x : R) (a : matrix R) :
  Forall (Forall (fun y => y = 0)) a -> Forall (Forall (fun y => y = 0)) (mscale x a).
Proof.
  intros Ha. unfold mscale. apply Forall_map. eapply Forall_impl; [|exact Ha].
  simpl. intros row Hrow. apply Forall_map. eapply Forall_impl; [|exact Hrow].
  simpl. intros y ->. cbn. lra.
Qed.

Lemma dot_zero_l (a b : matrix R) :
  Forall (Forall (fun x => x = 0)) a -> Forall (Forall (fun x => x = 0)) (dot a b).
Proof.
  intros Ha. unfold dot. apply Forall_map. eapply Forall_impl; [|exact Ha].
  simpl. intros row Hrow. apply Forall_map. apply Forall_forall. intros c _.
  apply vdot_zero_l. exact Hrow.
Qed.

Lemma zero_zeros (r c : nat) : Forall (Forall (fun x => x = 0)) (zeros (F:=R) r c).
Proof.
  unfold zeros. apply Forall_forall. intros row Hrow. apply repeat_spec in Hrow.
  subst row. apply Forall_forall. intros x Hx. apply repeat_spec in Hx. exact Hx.
Qed.

Lemma zero_threshold (P : LCAParams (F:=R)) (u : matrix R) (thresh : vec R) :
  Forall (Forall (fun x => x = 0)) u ->
  Forall (Forall (fun x => x = 0)) (threshold P u thresh).
Proof.
  intros Hu. unfold threshold. apply Forall_map2. intros row th Hrow _.
  rewrite Forall_forall in Hu. specialize (Hu row Hrow).
  apply Forall_map. eapply Forall_impl; [|exact Hu]. simpl. intros x ->.
  destruct (softthresh P).
  - unfold soft. rewrite fsign_R_zero. cbn. lra.
  - unfold hard. destruct (fltb _ _); reflexivity.
Qed.

(** Over the reals no potential is NaN, and the inference does not raise. *)
Lemma infer_cpu_R_no_raise (fuel : nat) (L : Learner (F:=R)) (X : matrix R)
    (ta : option R) (ma : option Z) (e : exn) :
  infer_cpu fuel L X ta ma <> Some (Raise e).
Proof.
  unfold infer_cpu.
  destruct (outer_loop _ _ _ _ _ _ _ _ _ _ _) as [[st'|e']|] eqn:E; try discriminate.
  exfalso. exact (outer_loop_R _ _ _ _ _ _ _ _ _ _ _ E).
Qed.

(** X22: an all-zero batch is given the all-zero code.  Over the reals,
    when every entry of [X] is zero, every coefficient and every potential
    a returning [infer_cpu] gives is zero, in both thresholding modes and
    whatever the dictionary, the tolerance and the cap. *)
Theorem zero_batch_zero_code (fuel : nat) (L : Learner (F:=R)) (X : matrix R)
    (ta : option R) (ma : option Z) (s u : matrix R) (thresh : vec R) :
  Forall (Forall (fun x => x = 0)) X ->
  infer_cpu fuel L X ta ma = Some (Ok (s, u, thresh)) ->
  Forall (Forall (fun x => x = 0)) s /\ Forall (Forall (fun x => x = 0)) u.
Proof.
  intros HX. unfold infer_cpu.
  destruct (outer_loop _ _ _ _ _ _ _ _ _ _ _) as [[st'|e]|] eqn:E; try discriminate.
  intros E'; injection E' as <- <- <-.
  assert (Hb : Forall (Forall (fun x => x = 0)) (drive (Q L) X))
    by (unfold drive; apply transpose_zero, dot_zero_r; exact HX).
  assert (Hst : Forall (Forall (fun x => x = 0)) (st_u st') /\
                Forall (Forall (fun x => x = 0)) (st_s st')).
  { eapply (@outer_loop_inv _ _ (lca L) _ _
              (fun st => Forall (Forall (fun x => x = 0)) (st_u st) /\
                         Forall (Forall (fun x => x = 0)) (st_s st)));
      [ | | exact E].
    - intros kk st0 st1 [Hu Hs] H1. apply inner_step_Ok in H1.
      destruct H1 as (_ & Hu1 & Hs1 & _).
      assert (Hn : Forall (Forall (fun x => x = 0))
                     (next_u (lca L) (overlap (Q L)) (drive (Q L) X) st0)).
      { unfold next_u, madd, msub.
        apply zero_map2; [cbn; lra | |].
        - apply zero_mscale. apply zero_map2; [cbn; lra | exact Hb |].
          apply dot_zero_l. exact Hs.
        - apply zero_mscale. exact Hu. }
      rewrite Hu1, Hs1. split; [exact Hn | apply zero_threshold; exact Hn].
    - simpl. split; apply zero_zeros. }
  destruct Hst as [Hu Hs]. split; apply transpose_zero; assumption.
Qed.
End RealInference.

(** One unit and the zero stimulus. *)
Lemma zero_batch_zero_code_witness :
  let L := Examples.learner1 LCALearner_class 1%R 0%R None [[1%R]]
             (Examples.params1 1%R 0%R false) in
  exists s u thresh,
    infer_cpu 1 L [[0%R]] None None = Some (Ok (s, u, thresh)) /\
    Forall (Forall (fun x => x = 0%R)) s.
Proof.
  intros L.
  destruct (infer_cpu 1 L [[0%R]] None None) as [[[[s u] th]|e]|] eqn:E.
  - exists s, u, th. split; [reflexivity|].
    refine (proj1 (@zero_batch_zero_code 1 L [[0%R]] None None s u th _ E)).
    repeat constructor.
  - exfalso. exact (@infer_cpu_R_no_raise 1 L [[0%R]] None None e E).
  - exfalso. unfold infer_cpu in E.
    destruct (outer_loop _ _ _ _ _ _ _ _ _ _ _) as [[st'|e]|] eqn:E2; try discriminate.
    refine (@outer_loop_capped _ _ _ _ _ _ _ _ _ 1%Z 1 eq_refl _ _ _ _ E2).
    simpl. lia.
Defined.
